(** * StudySphere: quiz engine, bulk question parser and repositories

  A shallow embedding of the JavaScript sources of the StudySphere
  exam-preparation application, and the properties of its specification
  established on that embedding.

  Definitions:
  - [JsNumber]: ECMAScript Numbers (IEEE-754 binary64), on the
    specification floats of the standard library;
  - [QuizData], [Quiz]: the quiz page (module variables, countdown,
    submission, scoring);
  - [Js]: the string and array operations used by the sources;
  - [BulkParse]: [parseQuestionText] of the passage-authoring page;
  - [Platform], [Firestore]: the auth manager, the page log and the
    document store;
  - [Attempts], [Passages]: the repository modules;
  - [PassagesMore], [PassagesListing], [AttemptsMore]: the other
    operations of the repositories and their callers on the dashboard and
    the subjects page;
  - [QuizMore]: the other handlers of the quiz page and its events;
  - [BulkParseMore], [Editor], [PassageForm]: the question editor and the
    form of the authoring page;
  - [Auth]: the loading of the role of the signed-in user;
  - [Router]: the router.

  Properties:
  - [JsFacts], [AttemptsFacts], [PassagesFacts]: the repositories;
  - [QuizFacts]: countdown and submission;
  - [BulkParseFacts]: the parser of pasted questions;
  - [JsNumberFacts], [ScoreFacts]: rounding and the score;
  - [PassagesMoreFacts], [PassagesListingFacts], [AttemptsMoreFacts]:
    reading back what was written, listings, statistics;
  - [QuizMoreFacts]: what holds of the quiz page under any sequence of its
    events;
  - [BulkParseMoreFacts], [EditorFacts], [PassageFormFacts]: the authoring
    page;
  - [AuthFacts], [RouterFacts]: the role cache and the navigation.
*)

From Stdlib Require Import ZArith List Lia Bool Ascii String Sorted OrdersEx.
From Stdlib Require Import Floats.SpecFloat.
From stdpp Require Import gmap strings list.

Local Open Scope Z_scope.

(* ===================================================================== *)
(** * ECMAScript Numbers *)
(* ===================================================================== *)

Module JsNumber.

(** A Number is an IEEE-754 binary64 value: precision 53, [emax] 1024. *)
Definition prec : Z := 53.
Definition emax : Z := 1024.

Definition Number : Type := spec_float.

(** The Number nearest to an integer (exact below [2^53]). *)
Definition of_Z (z : Z) : Number := binary_normalize prec emax z 0 false.

(** [x / y] and [x * y], correctly rounded to nearest, ties to even. *)
Definition div (x y : Number) : Number := SFdiv prec emax x y.
Definition mul (x y : Number) : Number := SFmul prec emax x y.

(** [Math.round(x)]: the integral Number closest to [x], ties going
    towards [+∞]; [NaN], the infinities and the zeros are returned as they
    are, and so is a finite [x] with a non-negative exponent, which is
    integral already.  For [x = ±m * 2^e] with [e < 0] the result is
    [floor (x + 1/2)], computed exactly on integers; a zero result keeps
    the sign of [x]. *)
Definition Math_round (x : Number) : Number :=
  match x with
  | S754_finite s m e =>
      if 0 <=? e then x
      else
        let k := (cond_Zopp s (Zpos m) + 2 ^ (- e - 1)) / 2 ^ (- e) in
        binary_normalize prec emax k 0 s
  | _ => x
  end.

(** ** Notions used to bound the result of a rounding *)

(** A shift record that has lost no bit so far. *)
Definition exact_record (mrs : shr_record) : Prop :=
  shr_r mrs = false /\ shr_s mrs = false.

(** [1] when the location tells that the value lies strictly above
    [m * 2^e], [0] when it is [m * 2^e]. *)
Definition excess (l : location) : Z :=
  match l with loc_Exact => 0 | loc_Inexact _ => 1 end.

(** The mantissas of the Numbers [1 = 2^52 * 2^-52] and
    [100 = (100 * 2^46) * 2^-46]. *)
Definition one_m : positive := 4503599627370496.
Definition hundred_m : positive := 7036874417766400.

(** A Number that is [+0] or positive and at most [mb * 2^eb], with an
    exponent that is at most [eb]. *)
Definition at_most (x : Number) (mb : positive) (eb : Z) : Prop :=
  x = S754_zero false \/
  exists m e, x = S754_finite false m e /\ e <= eb
              /\ Zpos m <= Zpos mb * 2 ^ (eb - e).

#[global] Instance Number_eq_dec : EqDecision Number.
Proof. solve_decision. Defined.

End JsNumber.

(* ===================================================================== *)
(** * The quiz page: data *)
(* ===================================================================== *)

Module QuizData.
Import JsNumber.

(** A question as the authoring page stores it: [{q, options, answerIndex}]. *)
Record Question := mkQuestion {
  q : string;
  options : list string;
  answerIndex : Z
}.

Record Passage := mkPassage {
  id : string;
  title : string;
  subject : string;
  category : option string;
  difficulty : string;
  text : string;
  timeLimit : Z;                 (* minutes *)
  questions : list Question
}.

(** One entry of the per-question breakdown.  [None] stands for
    [undefined] (an index outside the options). *)
Record BreakdownItem := mkBreakdownItem {
  question : string;
  userAnswer : option string;
  correctAnswer : option string;
  isCorrect : bool
}.

Record Results := mkResults {
  correct : nat;
  total : nat;
  percentage : Number;
  timeElapsed : Z;
  breakdown : list BreakdownItem
}.

(** Modelled from the spec: [auth.recordQuizAttempt], which saves the
    attempt of the signed-in user, is not part of the sources; a call is
    kept with its arguments [(passageId, score, timeElapsed,
    totalQuestions)], one saved attempt per call. *)
Record RecordedAttempt := mkRecordedAttempt {
  ra_passageId : string;
  ra_score : nat;
  ra_timeElapsed : Z;
  ra_totalQuestions : nat
}.

End QuizData.

(* ===================================================================== *)
(** * The quiz page: state and handlers *)
(* ===================================================================== *)

Module Quiz.
Import JsNumber QuizData.

(** ** Scoring *)

(** [arr[i]] for a Number index [i] holding an integer. *)
Definition index_Z {A} (l : list A) (i : Z) : option A :=
  if i <? 0 then None else l !! Z.to_nat i.

(** [userAnswer === correctAnswer], where [userAnswer] may be [undefined]. *)
Definition strict_eq (userAnswer : option Z) (correctAnswer : Z) : bool :=
  match userAnswer with
  | Some a => a =? correctAnswer
  | None => false
  end.

(** [Math.floor((now - startTime) / 1000)] on integral millisecond counts:
    the integer quotient rounded towards [-∞]. *)
Definition elapsed_seconds (now startTime : Z) : Z := (now - startTime) / 1000.

(** The body of the [forEach] of [calculateScore], with its two
    accumulators [correct] and [breakdown]. *)
Definition score_step (userAnswers : gmap nat Z)
    (acc : nat * list BreakdownItem) (index : nat) (question : Question)
    : nat * list BreakdownItem :=
  let userAnswer := userAnswers !! index in
  let correctAnswer := answerIndex question in
  let isCorrect := strict_eq userAnswer correctAnswer in
  (if isCorrect then S (fst acc) else fst acc,
   snd acc ++
     [ {| question := q question;
          userAnswer :=
            match userAnswer with
            | Some a => index_Z (options question) a
            | None => Some "Not answered"%string
            end;
          correctAnswer := index_Z (options question) correctAnswer;
          isCorrect := isCorrect |} ]).

(** [questions.forEach((question, index) => ...)] from position [index]. *)
Fixpoint score_loop (userAnswers : gmap nat Z) (qs : list Question)
    (index : nat) (acc : nat * list BreakdownItem)
    : nat * list BreakdownItem :=
  match qs with
  | [] => acc
  | question :: rest =>
      score_loop userAnswers rest (S index)
        (score_step userAnswers acc index question)
  end.

(** [calculateScore()], reading [currentPassage], [userAnswers],
    [startTime] and the clock. *)
Definition calculateScore (currentPassage : Passage)
    (userAnswers : gmap nat Z) (startTime now : Z) : Results :=
  let total := length (questions currentPassage) in
  let '(correct, breakdown) :=
    score_loop userAnswers (questions currentPassage) 0%nat (0%nat, []) in
  let percentage :=
    Math_round (mul (div (of_Z (Z.of_nat correct)) (of_Z (Z.of_nat total)))
                    (of_Z 100)) in
  let elapsed := elapsed_seconds now startTime in
  {| correct := correct;
     total := total;
     percentage := percentage;
     timeElapsed := elapsed;
     breakdown := breakdown |}.

(** ** The score of the specification *)

(** Question [i] is answered and its answer is the correct one. *)
Definition is_correct (userAnswers : gmap nat Z) (qs : list Question)
    (i : nat) : bool :=
  match qs !! i with
  | Some question => strict_eq (userAnswers !! i) (answerIndex question)
  | None => false
  end.

(** The set [{i : A[i] = correctIndex[i]}], in increasing order. *)
Definition correct_indices (userAnswers : gmap nat Z) (qs : list Question)
    : list nat :=
  List.filter (is_correct userAnswers qs) (seq 0 (length qs)).

(** [round(100 * c / N)] on exact fractions, a half going up:
    [floor (100 * c / N + 1/2)]. *)
Definition round_percent (c N : Z) : Z := (200 * c + N) / (2 * N).

(** The breakdown entry of question [i]. *)
Definition breakdown_item (userAnswers : gmap nat Z) (i : nat)
    (question : Question) : BreakdownItem :=
  {| QuizData.question := q question;
     userAnswer :=
       match userAnswers !! i with
       | Some a => index_Z (options question) a
       | None => Some "Not answered"%string
       end;
     correctAnswer := index_Z (options question) (answerIndex question);
     isCorrect := strict_eq (userAnswers !! i) (answerIndex question) |}.

(** ** The page state *)

(** The five module variables of the quiz script, then the parts of the
    browser and of the [auth] object that the handlers read and write:
    the live [setInterval] handles, the timer display, the results modal
    (with the history of the results it was populated with, newest first),
    the toasts, the signed-in user and the calls made to
    [auth.recordQuizAttempt] (newest first). *)
Record World := mkWorld {
  currentPassage : option Passage;
  startTime : Z;
  timerInterval : option nat;
  timeLimit : Z;
  userAnswers : gmap nat Z;
  intervals : gset nat;
  next_handle : nat;
  time_remaining : Z;
  results_modal_shown : bool;
  results_populated : list (Results * bool);
  toasts : list string;
  auth_currentUser : option string;
  recorded : list RecordedAttempt
}.

(** The page before [loadQuiz]: [null] module variables read as [0] in
    arithmetic. *)
Definition initial (user : option string) : World :=
  {| currentPassage := None; startTime := 0; timerInterval := None;
     timeLimit := 0; userAnswers := ∅; intervals := ∅; next_handle := 1%nat;
     time_remaining := 0; results_modal_shown := false;
     results_populated := []; toasts := []; auth_currentUser := user;
     recorded := [] |}.

Definition with_vars (w : World) (p : option Passage) (st : Z) (tl : Z)
    (ua : gmap nat Z) : World :=
  {| currentPassage := p; startTime := st; timerInterval := timerInterval w;
     timeLimit := tl; userAnswers := ua; intervals := intervals w;
     next_handle := next_handle w; time_remaining := time_remaining w;
     results_modal_shown := results_modal_shown w;
     results_populated := results_populated w; toasts := toasts w;
     auth_currentUser := auth_currentUser w; recorded := recorded w |}.

Definition with_timer (w : World) (ti : option nat) (live : gset nat)
    (next : nat) : World :=
  {| currentPassage := currentPassage w; startTime := startTime w;
     timerInterval := ti; timeLimit := timeLimit w;
     userAnswers := userAnswers w; intervals := live; next_handle := next;
     time_remaining := time_remaining w;
     results_modal_shown := results_modal_shown w;
     results_populated := results_populated w; toasts := toasts w;
     auth_currentUser := auth_currentUser w; recorded := recorded w |}.

Definition with_page (w : World) (remaining : Z) (shown : bool)
    (populated : list (Results * bool)) (ts : list string)
    (rec : list RecordedAttempt) : World :=
  {| currentPassage := currentPassage w; startTime := startTime w;
     timerInterval := timerInterval w; timeLimit := timeLimit w;
     userAnswers := userAnswers w; intervals := intervals w;
     next_handle := next_handle w; time_remaining := remaining;
     results_modal_shown := shown; results_populated := populated;
     toasts := ts; auth_currentUser := auth_currentUser w;
     recorded := rec |}.

(** ** Timers of the browser *)

(** [setInterval(callback, 1000)]: a fresh live handle. *)
Definition setInterval (w : World) : nat * World :=
  (next_handle w,
   with_timer w (timerInterval w) ({[ next_handle w ]} ∪ intervals w)
     (S (next_handle w))).

(** [clearInterval(handle)]; [clearInterval(null)] does nothing. *)
Definition clearInterval (handle : option nat) (w : World) : World :=
  match handle with
  | Some h => with_timer w (timerInterval w) (intervals w ∖ {[ h ]}) (next_handle w)
  | None => w
  end.

(** ** Handlers *)

Definition updateTimerDisplay (remaining : Z) (w : World) : World :=
  with_page w remaining (results_modal_shown w) (results_populated w)
    (toasts w) (recorded w).

(** [startTimer()]: the display is reset to the whole [timeLimit] and a new
    interval is registered in [timerInterval]. *)
Definition startTimer (w : World) : World :=
  let w1 := updateTimerDisplay (timeLimit w) w in
  let '(handle, w2) := setInterval w1 in
  with_timer w2 (Some handle) (intervals w2) (next_handle w2).

(** [loadQuiz(passageId)] over the passages cached in local storage. *)
Definition loadQuiz (stored : list Passage) (passageId : string) (now : Z)
    (w : World) : World :=
  match List.find (fun p => String.eqb (id p) passageId) stored with
  | None =>
      with_page (with_vars w None (startTime w) (timeLimit w) (userAnswers w))
        (time_remaining w) (results_modal_shown w)
        (results_populated w) ("Passage not found"%string :: toasts w)
        (recorded w)
  | Some p =>
      startTimer (with_vars w (Some p) now (QuizData.timeLimit p * 60) ∅)
  end.

(** [selectAnswer(questionIndex, answerIndex)]: last write wins. *)
Definition selectAnswer (questionIndex : nat) (answerIndex : Z) (w : World)
    : World :=
  with_vars w (currentPassage w) (startTime w) (timeLimit w)
    (<[questionIndex := answerIndex]> (userAnswers w)).

(** [showResults(results, autoSubmit)]. *)
Definition showResults (p : Passage) (results : Results) (autoSubmit : bool)
    (w : World) : World :=
  let ts :=
    if autoSubmit
    then "Time expired! Quiz submitted automatically."%string :: toasts w
    else toasts w in
  let rec :=
    match auth_currentUser w with
    | Some _ =>
        {| ra_passageId := id p;
           ra_score := correct results;
           ra_timeElapsed := timeElapsed results;
           ra_totalQuestions := total results |} :: recorded w
    | None => recorded w
    end in
  with_page w (time_remaining w) true
    ((results, autoSubmit) :: results_populated w) ts rec.

(** [submitQuiz(autoSubmit)].  [confirmSubmit] is the user's answer to the
    [confirm] dialog, consulted only when the dialog is opened; [now] is
    the clock read by [calculateScore].  Without a loaded passage the
    handler stops at its first use of [currentPassage] (a [TypeError]),
    after [clearInterval]. *)
Definition submitQuiz (autoSubmit confirmSubmit : bool) (now : Z)
    (w : World) : World :=
  let w1 := clearInterval (timerInterval w) w in
  match currentPassage w1 with
  | None => w1
  | Some p =>
      let totalQuestions := length (questions p) in
      let answeredQuestions := size (userAnswers w1) in
      if negb autoSubmit && (answeredQuestions <? totalQuestions)%nat
         && negb confirmSubmit
      then startTimer w1
      else
        let results :=
          calculateScore p (userAnswers w1) (startTime w1) now in
        showResults p results autoSubmit w1
  end.

(** The callback given to [setInterval]: [now] is the clock it reads,
    [now'] the clock read by [calculateScore] when the quiz is submitted. *)
Definition timer_callback (now now' : Z) (w : World) : World :=
  let elapsed := elapsed_seconds now (startTime w) in
  let remaining := Z.max 0 (timeLimit w - elapsed) in
  let w1 := updateTimerDisplay remaining w in
  if remaining =? 0 then submitQuiz true false now' w1 else w1.

(** The browser runs the callback of a handle only while it is live. *)
Definition fire (handle : nat) (now now' : Z) (w : World) : World :=
  if decide (handle ∈ intervals w) then timer_callback now now' w else w.

(** [retakeQuiz()]. *)
Definition retakeQuiz (now : Z) (w : World) : World :=
  let w1 :=
    with_page w (time_remaining w) false (results_populated w) (toasts w)
      (recorded w) in
  startTimer (with_vars w1 (currentPassage w1) now (timeLimit w1) ∅).

(** ** Derived notions used by the specification *)

(** [remainingSeconds] at clock [now]. *)
Definition remainingSeconds (w : World) (now : Z) : Z :=
  Z.max 0 (timeLimit w - elapsed_seconds now (startTime w)).

(** A session is active when a passage is loaded and the interval held in
    [timerInterval] is the one live tick source of the page. *)
Definition Active (w : World) : Prop :=
  is_Some (currentPassage w) ∧
  ∃ handle, timerInterval w = Some handle ∧ intervals w = {[ handle ]}.

(** A session is finished when the results modal is shown and no tick
    source is live. *)
Definition Finished (w : World) : Prop :=
  is_Some (currentPassage w) ∧ results_modal_shown w = true ∧
  intervals w = ∅.

(** The number of automatic submissions so far. *)
Definition auto_submissions (w : World) : nat :=
  length (filter (fun r => snd r = true) (results_populated w)).

(** ** A concrete session *)

(** The passage of the end-to-end scenario of the specification: three
    questions with correct indices 1, 0 and 2, and a time limit of one
    minute. *)
Definition sample_question (answer : Z) : Question :=
  {| q := "Q"; options := ["a"; "b"; "c"; "d"]%string; answerIndex := answer |}.

Definition sample_passage : Passage :=
  {| id := "p1"; title := "Cells"; subject := "biology"; category := None;
     difficulty := "Easy"; text := "text"; QuizData.timeLimit := 1;
     questions := [sample_question 1; sample_question 0; sample_question 2] |}.

(** The page of a signed-in user after [loadQuiz] at clock [0]. *)
Definition sample_loaded : World :=
  loadQuiz [sample_passage] "p1" 0 (initial (Some "alice"%string)).

(** The same page with the answers [{0: 1, 1: 0, 2: 1}]. *)
Definition sample_answered : World :=
  selectAnswer 2 1 (selectAnswer 1 0 (selectAnswer 0 1 sample_loaded)).

(** The same page with the answer [{0: 1}] only. *)
Definition sample_partial : World := selectAnswer 0 1 sample_loaded.

(** A passage of forty questions whose correct option is the first one, and
    the answers that pick the first option for the first [n] questions. *)
Definition forty_questions : Passage :=
  {| id := "p40"; title := "Rocks"; subject := "geology"; category := None;
     difficulty := "Hard"; text := "text"; QuizData.timeLimit := 30;
     questions := replicate 40 (sample_question 0) |}.

Definition first_answers (n : nat) : gmap nat Z :=
  list_to_map (map (fun i => (i, 0)) (seq 0 n)).

End Quiz.

(* ===================================================================== *)
(** * Strings and arrays of the language *)
(* ===================================================================== *)

Module Js.


(** Strings are sequences of code units below 256. *)

(** White space and line terminators stripped by [trim]. *)
Definition is_white_space (c : ascii) : bool :=
  let n := nat_of_ascii c in
  ((n =? 9) || (n =? 10) || (n =? 11) || (n =? 12) || (n =? 13)
   || (n =? 32) || (n =? 160))%nat.

Fixpoint trimStart (s : string) : string :=
  match s with
  | String c s' => if is_white_space c then trimStart s' else s
  | EmptyString => EmptyString
  end.

Definition trimEnd (s : string) : string :=
  String.rev (trimStart (String.rev s)).

Definition trim (s : string) : string := trimEnd (trimStart s).

(** [s.split(sep)] for a one-character separator: never empty. *)
Fixpoint split (sep : ascii) (s : string) : list string :=
  match s with
  | EmptyString => [EmptyString]
  | String c s' =>
      if Ascii.eqb c sep then EmptyString :: split sep s'
      else
        match split sep s' with
        | piece :: pieces => String c piece :: pieces
        | [] => [String c EmptyString]
        end
  end.

(** [toLowerCase] on one code unit: [A-Z] and the upper-case letters of
    Latin-1. *)
Definition lower (c : ascii) : ascii :=
  let n := nat_of_ascii c in
  if ((65 <=? n) && (n <=? 90)
      || (192 <=? n) && (n <=? 222) && negb (n =? 215))%nat
  then ascii_of_nat (n + 32) else c.

Fixpoint toLowerCase (s : string) : string :=
  match s with
  | String c s' => String (lower c) (toLowerCase s')
  | EmptyString => EmptyString
  end.

(** [s.startsWith(p)]. *)
Definition startsWith (s p : string) : bool := String.prefix p s.

(** [s.substring(n)]. *)
Fixpoint substring (n : nat) (s : string) : string :=
  match n, s with
  | O, _ => s
  | S n', String _ s' => substring n' s'
  | S _, EmptyString => EmptyString
  end.

(** [s.includes(c)] for a one-character [c]. *)
Fixpoint includes (c : ascii) (s : string) : bool :=
  match s with
  | String c' s' => Ascii.eqb c' c || includes c s'
  | EmptyString => false
  end.

(** [s.replace(c, '')]: the first occurrence only. *)
Fixpoint remove_first (c : ascii) (s : string) : string :=
  match s with
  | String c' s' => if Ascii.eqb c' c then s' else String c' (remove_first c s')
  | EmptyString => EmptyString
  end.

(** Truthiness of a string. *)
Definition truthy (s : string) : bool :=
  match s with EmptyString => false | _ => true end.

(** [arr.sort(compare)]: the stable sort by a comparator; [a] stays before
    [b] when [compare(a, b) <= 0]. *)
Fixpoint insert_sorted {A} (compare : A → A → Z) (a : A) (l : list A)
    : list A :=
  match l with
  | [] => [a]
  | b :: l' =>
      if (compare a b <=? 0)%Z then a :: l
      else b :: insert_sorted compare a l'
  end.

Definition sort {A} (compare : A → A → Z) (l : list A) : list A :=
  foldr (insert_sorted compare) [] l.

(** The order left by [sort] under a comparator [(a, b) => key(b) - key(a)]. *)
Definition newest_first {A} (key : A → Z) (a b : A) : Prop := key b ≤ key a.

(** [arr.slice(0, end)] for an integral [end]: a negative [end] counts from
    the end of the array. *)
Definition slice0 {A} (l : list A) (end_ : Z) : list A :=
  if (end_ <? 0)%Z
  then take (Z.to_nat (Z.max (Z.of_nat (length l) + end_) 0)%Z) l
  else take (Z.to_nat end_) l.

End Js.

(* ===================================================================== *)
(** * The passage-authoring page: pasted questions *)
(* ===================================================================== *)

Module BulkParse.
Import Js.


(** A question as [parseQuestionText] builds it. *)
Record ParsedQuestion := mkParsedQuestion {
  text : string;
  options : list string;
  correctIndex : Z
}.

(** The test [/^[A-D]\)/]. *)
Definition is_option_line (line : string) : bool :=
  match line with
  | String c (String d _) =>
      let n := nat_of_ascii c in
      ((65 <=? n) && (n <=? 68))%nat && Ascii.eqb d ")"%char
  | _ => false
  end.

(** The test [line.toLowerCase().startsWith('question:')]. *)
Definition is_question_line (line : string) : bool :=
  startsWith (toLowerCase line) "question:"%string.

(** [line.substring(2).replace('*', '').trim()]. *)
Definition option_text (line : string) : string :=
  trim (remove_first "*"%char (substring 2 line)).

(** The loop state: the array [questions] and [currentQuestion]. *)
Definition ParseState : Type := list ParsedQuestion * option ParsedQuestion.

(** One iteration of [for (const line of lines)]. *)
Definition parse_line (st : ParseState) (line : string) : ParseState :=
  let '(questions, currentQuestion) := st in
  if is_question_line line then
    (match currentQuestion with
     | Some c => questions ++ [c]
     | None => questions
     end,
     Some {| text := trim (substring 9 line);
             options := [];
             correctIndex := (-1)%Z |})
  else
    match currentQuestion with
    | Some c =>
        if is_option_line line then
          let isCorrect := includes "*"%char line in
          let optionText := option_text line in
          let options' := options c ++ [optionText] in
          (questions,
           Some {| text := text c;
                   options := options';
                   correctIndex :=
                     if isCorrect then (Z.of_nat (length options') - 1)%Z
                     else correctIndex c |})
        else st
    | None => st
    end.

(** The lines of the text, trimmed, the empty ones left out. *)
Definition lines_of (text : string) : list string :=
  List.filter truthy (map trim (split "010"%char text)).

(** The questions collected by the loop, before validation. *)
Definition collect (lines : list string) : list ParsedQuestion :=
  let '(questions, currentQuestion) := fold_left parse_line lines ([], None) in
  match currentQuestion with
  | Some c => questions ++ [c]
  | None => questions
  end.

(** The predicate of the final [filter]. *)
Definition valid (q : ParsedQuestion) : bool :=
  truthy (text q) && (length (options q) =? 4)%nat && (0 <=? correctIndex q)%Z.

Definition parseQuestionText (text : string) : list ParsedQuestion :=
  List.filter valid (collect (lines_of text)).

(** ** Notions used by the specification *)

(** The option lines that carry the [*] marker. *)
Definition marked_lines (lines : list string) : list string :=
  List.filter (includes "*"%char) lines.

(** The position, counted from [index], of the last line that carries the
    marker; [found] when there is none. *)
Fixpoint last_marked (lines : list string) (index : nat) (found : Z) : Z :=
  match lines with
  | [] => found
  | line :: rest =>
      last_marked rest (S index)
        (if includes "*"%char line then Z.of_nat index else found)
  end.

(** Every collected question has its [correctIndex] at [-1] or at one of
    its options. *)
Definition index_in_range (Q : ParsedQuestion) : Prop :=
  -1 ≤ correctIndex Q < Z.of_nat (length (options Q)).

Definition state_in_range (st : ParseState) : Prop :=
  Forall index_in_range st.1 ∧ ∀ c, st.2 = Some c → index_in_range c.

(** ** Sample texts *)

Definition newline : string := String "010"%char EmptyString.

Definition join_lines (lines : list string) : string :=
  foldr (fun l acc => String.append l (String.append newline acc))
    EmptyString lines.

(** A well-formed block of two questions, one marked option each. *)
Definition two_questions : string :=
  join_lines
    [ "Question: What is 2+2?"; "A) 3"; "B) *4"; "C) 5"; "D) 6"; "";
      "  question:   Capital of France?  "; "A) Paris *"; "B) Rome";
      "C) Bonn"; "D) Oslo" ]%string.

(** A question with three options only. *)
Definition three_options : string :=
  join_lines [ "Question: Q"; "A) *a"; "B) b"; "C) c" ]%string.

(** A question with two marked options. *)
Definition two_marked : string :=
  join_lines [ "Question: Q"; "A) *a"; "B) *b"; "C) c"; "D) d" ]%string.

(** A question whose first option is empty. *)
Definition empty_option : string :=
  join_lines [ "Question: Q"; "A)"; "B) b"; "C) c"; "D) *d" ]%string.

End BulkParse.

(* ===================================================================== *)
(** * The platform: outcomes, the auth manager, the page log *)
(* ===================================================================== *)

Module Platform.

(** The outcome of an [async] function: its promise is fulfilled with a
    value or rejected with an error. *)
Inductive Outcome (A : Type) : Type :=
| Returned (a : A)
| Thrown (message : string).
Arguments Returned {A} a.
Arguments Thrown {A} message.

Record User := mkUser { uid : string }.

(** The fields of [authManager] that the repositories read. *)
Record AuthManager := mkAuthManager {
  currentUser : option User;
  userRole : option string
}.

(** [isAdmin() { return this.userRole === 'admin'; }] *)
Definition isAdmin (am : AuthManager) : bool :=
  match userRole am with
  | Some r => String.eqb r "admin"
  | None => false
  end.

(** [isAuthenticated() { return !!this.currentUser; }] *)
Definition isAuthenticated (am : AuthManager) : bool :=
  match currentUser am with
  | Some _ => true
  | None => false
  end.

(** What the helpers of [ui.js] and the console were asked to show. *)
Inductive UiEvent :=
| ShowLoader (message : string)
| HideLoader
| ShowToast (message kind : string)
| ConsoleError (message : string).

End Platform.

(* ===================================================================== *)
(** * The document store *)
(* ===================================================================== *)

Module Firestore.
Import Platform.

(** Modelled from the spec: the document store is an external service;
    its client library is not part of the sources.  The specification
    describes its contract as document create, read, update and delete by
    id, and queries with equality filters, one sort field and a
    result-count limit.  A collection is the list of its documents in the
    order the store enumerates them; the values of the fields are booleans,
    numbers, timestamps and strings. *)
Inductive Value :=
| VBoolean (b : bool)
| VNumber (z : Z)
| VTimestamp (t : Z)
| VString (s : string).

Definition Value_eqb (v1 v2 : Value) : bool :=
  match v1, v2 with
  | VBoolean a, VBoolean b => Bool.eqb a b
  | VNumber a, VNumber b => a =? b
  | VTimestamp a, VTimestamp b => a =? b
  | VString a, VString b => String.eqb a b
  | _, _ => false
  end.

(** The order of values: by type first (booleans, numbers, timestamps,
    strings), then by value. *)
Definition type_rank (v : Value) : Z :=
  match v with
  | VBoolean _ => 1 | VNumber _ => 2 | VTimestamp _ => 3 | VString _ => 4
  end.

Definition comparison_Z (c : comparison) : Z :=
  match c with Lt => -1 | Eq => 0 | Gt => 1 end.

Definition Value_compare (v1 v2 : Value) : Z :=
  match v1, v2 with
  | VBoolean a, VBoolean b => comparison_Z (Bool.compare a b)
  | VNumber a, VNumber b => comparison_Z (a ?= b)
  | VTimestamp a, VTimestamp b => comparison_Z (a ?= b)
  | VString a, VString b => comparison_Z (String.compare a b)
  | _, _ => comparison_Z (type_rank v1 ?= type_rank v2)
  end.

Record Document (D : Type) := mkDocument {
  doc_id : string;
  doc_data : D
}.
Arguments mkDocument {D} doc_id doc_data.
Arguments doc_id {D} d.
Arguments doc_data {D} d.

(** [where(field, '==', value)], [orderBy(field, direction)], [limit(n)]. *)
Inductive Constraint :=
| Where (field : string) (value : Value)
| OrderBy (field direction : string)
| Limit (n : Z).

Section Query.
Context {D : Type}.
(** The value of a named field of a document, when it has the field. *)
Variable field_of : D → string → option Value.

Definition has_value (d : Document D) (field : string) (v : Value) : bool :=
  match field_of (doc_data d) field with
  | Some v' => Value_eqb v' v
  | None => false
  end.

Definition has_field (d : Document D) (field : string) : bool :=
  match field_of (doc_data d) field with
  | Some _ => true
  | None => false
  end.

Definition compare_on (field : string) (a b : Document D) : Z :=
  match field_of (doc_data a) field, field_of (doc_data b) field with
  | Some va, Some vb => Value_compare va vb
  | _, _ => 0
  end.

(** An equality filter keeps the documents whose field has the value; an
    ordering keeps the documents that have the field, sorted on it; a
    limit keeps the first [n] documents. *)
Definition apply_constraint (docs : list (Document D)) (c : Constraint)
    : list (Document D) :=
  match c with
  | Where field v => List.filter (fun d => has_value d field v) docs
  | OrderBy field direction =>
      let ascending :=
        Js.sort (compare_on field)
          (List.filter (fun d => has_field d field) docs) in
      if String.eqb direction "desc" then rev ascending else ascending
  | Limit n => take (Z.to_nat n) docs
  end.

(** [limit(n)] rejects a non-positive [n]. *)
Definition acceptable (c : Constraint) : bool :=
  match c with
  | Limit n => 0 <? n
  | _ => true
  end.

(** [getDocs(query(collection, ...constraints))]. *)
Definition getDocs (reachable : bool) (docs : list (Document D))
    (constraints : list Constraint) : Outcome (list (Document D)) :=
  if reachable && forallb acceptable constraints
  then Returned (fold_left apply_constraint constraints docs)
  else Thrown "FirebaseError".
End Query.

End Firestore.

(* ===================================================================== *)
(** * Quiz attempts (attempts.js) *)
(* ===================================================================== *)

Module Attempts.
Import Platform Firestore.

(** The data of a document of the collection [attempts].  [attemptedAt] is
    the server timestamp in milliseconds, absent while it is pending. *)
Record AttemptData := mkAttemptData {
  userId : string;
  passageId : string;
  subject : string;
  score : Z;
  answers : gmap nat Z;
  timeTakenSec : Z;
  attemptedAt : option Z
}.

Definition field_of (d : AttemptData) (field : string) : option Value :=
  if String.eqb field "userId" then Some (VString (userId d))
  else if String.eqb field "passageId" then Some (VString (passageId d))
  else if String.eqb field "subject" then Some (VString (subject d))
  else if String.eqb field "score" then Some (VNumber (score d))
  else if String.eqb field "timeTakenSec" then Some (VNumber (timeTakenSec d))
  else if String.eqb field "attemptedAt" then VTimestamp <$> attemptedAt d
  else None.

(** An element of the returned array: [{id: doc.id, ...data, attemptedAt}],
    with [attemptedAt] a date in milliseconds. *)
Record Attempt := mkAttempt {
  id : string;
  data : AttemptData;
  attemptedAt_date : Z
}.

Record Options := mkOptions {
  opt_subject : option string;
  opt_startDate : option Z;
  opt_endDate : option Z;
  opt_limitCount : option Z
}.

(** [getAttemptsForUser()] called with no argument: [options = {}]. *)
Definition no_options : Options :=
  {| opt_subject := None; opt_startDate := None; opt_endDate := None;
     opt_limitCount := None |}.

Record Env := mkEnv {
  authManager : AuthManager;
  attempts : list (Document AttemptData);
  reachable : bool;
  ui : list UiEvent
}.

Definition log (e : Env) (evs : list UiEvent) : Env :=
  {| authManager := authManager e; attempts := attempts e;
     reachable := reachable e; ui := ui e ++ evs |}.

(** The filter of the date range. *)
Definition in_range (startDate endDate : option Z) (attempt : Attempt) : bool :=
  let attemptDate := attemptedAt_date attempt in
  if match startDate with Some s => attemptDate <? s | None => false end
  then false
  else if match endDate with Some e => e <? attemptDate | None => false end
  then false
  else true.

(** [getAttemptsForUser(options)]; [now] is the clock read by [new Date()]. *)
Definition getAttemptsForUser (options : Options) (now : Z) (e : Env)
    : Outcome (list Attempt) * Env :=
  if negb (isAuthenticated (authManager e))
  then (Thrown "Authentication required", e)
  else
    let subject_ := opt_subject options in
    let startDate := opt_startDate options in
    let endDate := opt_endDate options in
    let limitCount := default 50 (opt_limitCount options) in
    let uid_ :=
      match currentUser (authManager e) with
      | Some u => uid u
      | None => EmptyString
      end in
    match getDocs field_of (reachable e) (attempts e)
            [Where "userId" (VString uid_)] with
    | Thrown message =>
        (Thrown message,
         log e [ConsoleError "Error getting attempts:";
                ShowToast "Failed to load quiz history" "error"])
    | Returned querySnapshot =>
        let attempts0 :=
          map (fun doc =>
                 {| id := doc_id doc;
                    data := doc_data doc;
                    attemptedAt_date :=
                      default now (attemptedAt (doc_data doc)) |})
              querySnapshot in
        let attempts1 :=
          match subject_ with
          | Some s =>
              if Js.truthy s
              then List.filter (fun a => String.eqb (subject (data a)) s) attempts0
              else attempts0
          | None => attempts0
          end in
        let attempts2 :=
          match startDate, endDate with
          | None, None => attempts1
          | _, _ => List.filter (in_range startDate endDate) attempts1
          end in
        let attempts3 :=
          Js.sort (fun a b => attemptedAt_date b - attemptedAt_date a) attempts2 in
        (Returned (Js.slice0 attempts3 limitCount), e)
    end.

(** The element of the result built from a document. *)
Definition view (now : Z) (doc : Document AttemptData) : Attempt :=
  {| id := doc_id doc;
     data := doc_data doc;
     attemptedAt_date := default now (attemptedAt (doc_data doc)) |}.

(** An attempt passes the optional filters of [options]. *)
Definition passes (options : Options) (a : Attempt) : Prop :=
  (∀ s, opt_subject options = Some s → s ≠ EmptyString →
        subject (data a) = s) ∧
  (∀ s, opt_startDate options = Some s → s ≤ attemptedAt_date a) ∧
  (∀ t, opt_endDate options = Some t → attemptedAt_date a ≤ t).

Definition newest_first_attempt : Attempt → Attempt → Prop :=
  Js.newest_first attemptedAt_date.

(** A concrete store: two attempts of [alice] and one of [bob]. *)
Definition sample_attempt (user subject_ : string) (t : Z) : AttemptData :=
  {| userId := user; passageId := "p1"; subject := subject_; score := 80;
     answers := ∅; timeTakenSec := 42; attemptedAt := Some t |}.

Definition sample_env : Env :=
  {| authManager := {| currentUser := Some (mkUser "alice");
                       userRole := Some "student"%string |};
     attempts := [ mkDocument "a1" (sample_attempt "alice" "Biology" 1000);
                   mkDocument "b1" (sample_attempt "bob" "Biology" 2000);
                   mkDocument "a2" (sample_attempt "alice" "Physics" 3000) ];
     reachable := true;
     ui := [] |}.

Definition sample_options : Options :=
  {| opt_subject := Some "Biology"%string; opt_startDate := None;
     opt_endDate := None; opt_limitCount := Some 10 |}.

End Attempts.

(* ===================================================================== *)
(** * Passages (passages.js) *)
(* ===================================================================== *)

Module Passages.
Import Platform Firestore.

(** The data of a document of the collection [passages].  A document
    holds the fields of the object it was created from: [content] is absent
    ([None]) from a passage that holds its text under another name, as the
    passages of the authoring page do under [text]. *)
Record PassageDoc := mkPassageDoc {
  title : string;
  subject : string;
  difficulty : string;
  content : option string;
  isPublished : bool;
  createdBy : string;
  createdAt : Z;
  updatedAt : Z
}.

Definition field_of (d : PassageDoc) (field : string) : option Value :=
  if String.eqb field "title" then Some (VString (title d))
  else if String.eqb field "subject" then Some (VString (subject d))
  else if String.eqb field "difficulty" then Some (VString (difficulty d))
  else if String.eqb field "content" then VString <$> content d
  else if String.eqb field "isPublished" then Some (VBoolean (isPublished d))
  else if String.eqb field "createdBy" then Some (VString (createdBy d))
  else if String.eqb field "createdAt" then Some (VTimestamp (createdAt d))
  else if String.eqb field "updatedAt" then Some (VTimestamp (updatedAt d))
  else None.

(** The argument of [createPassage]; [content] and [isPublished] may be
    left out. *)
Record PassageData := mkPassageData {
  pd_title : string;
  pd_subject : string;
  pd_difficulty : string;
  pd_content : option string;
  pd_isPublished : option bool
}.

(** The argument [updates] of [updatePassage]: the fields to overwrite. *)
Record Updates := mkUpdates {
  u_title : option string;
  u_subject : option string;
  u_difficulty : option string;
  u_content : option string;
  u_isPublished : option bool
}.

(** The calls made to the store, oldest first. *)
Inductive Call :=
| AddDoc (id : string)
| UpdateDoc (id : string)
| DeleteDoc (id : string)
| GetDocs (constraints : list Constraint).

Record Env := mkEnv {
  authManager : AuthManager;
  passages : list (Document PassageDoc);
  reachable : bool;
  calls : list Call;
  ui : list UiEvent
}.

Definition log (e : Env) (evs : list UiEvent) : Env :=
  {| authManager := authManager e; passages := passages e;
     reachable := reachable e; calls := calls e; ui := ui e ++ evs |}.

(** A call reaches the store: it is recorded and, when it succeeds, the
    collection becomes [docs]. *)
Definition io (e : Env) (c : Call) (docs : list (Document PassageDoc)) : Env :=
  {| authManager := authManager e; passages := docs;
     reachable := reachable e; calls := calls e ++ [c]; ui := ui e |}.

Definition apply_updates (u : Updates) (serverTime : Z) (d : PassageDoc)
    : PassageDoc :=
  {| title := default (title d) (u_title u);
     subject := default (subject d) (u_subject u);
     difficulty := default (difficulty d) (u_difficulty u);
     content := match u_content u with
                | Some c => Some c
                | None => content d
                end;
     isPublished := default (isPublished d) (u_isPublished u);
     createdBy := createdBy d;
     createdAt := createdAt d;
     updatedAt := serverTime |}.

Definition exists_doc (passageId : string) (docs : list (Document PassageDoc))
    : bool :=
  existsb (fun d => String.eqb (doc_id d) passageId) docs.

(** [createPassage(passageData)]; [autoId] is the id given to the new
    document and [serverTime] the value of [serverTimestamp()]. *)
Definition createPassage (passageData : PassageData) (autoId : string)
    (serverTime : Z) (e : Env) : Outcome string * Env :=
  if negb (isAdmin (authManager e))
  then (Thrown "Admin privileges required", e)
  else
    let e1 := log e [ShowLoader "Creating passage..."] in
    match currentUser (authManager e1) with
    | None =>
        (* [authManager.currentUser.uid] on [null] *)
        (Thrown "TypeError",
         log e1 [HideLoader; ConsoleError "Error creating passage:";
                 ShowToast "Failed to create passage" "error"])
    | Some u =>
        let passage :=
          {| title := pd_title passageData;
             subject := pd_subject passageData;
             difficulty := pd_difficulty passageData;
             content := pd_content passageData;
             isPublished := default false (pd_isPublished passageData);
             createdBy := uid u;
             createdAt := serverTime;
             updatedAt := serverTime |} in
        if reachable e1 then
          let e2 := io e1 (AddDoc autoId)
                      (passages e1 ++ [mkDocument autoId passage]) in
          (Returned autoId,
           log e2 [HideLoader; ShowToast "Passage created successfully" "success"])
        else
          let e2 := io e1 (AddDoc autoId) (passages e1) in
          (Thrown "FirebaseError",
           log e2 [HideLoader; ConsoleError "Error creating passage:";
                   ShowToast "Failed to create passage" "error"])
    end.

(** [updatePassage(passageId, updates)]. *)
Definition updatePassage (passageId : string) (updates : Updates)
    (serverTime : Z) (e : Env) : Outcome unit * Env :=
  if negb (isAdmin (authManager e))
  then (Thrown "Admin privileges required", e)
  else
    let e1 := log e [ShowLoader "Updating passage..."] in
    if reachable e1 && exists_doc passageId (passages e1) then
      let docs :=
        map (fun d =>
               if String.eqb (doc_id d) passageId
               then mkDocument (doc_id d)
                      (apply_updates updates serverTime (doc_data d))
               else d)
            (passages e1) in
      let e2 := io e1 (UpdateDoc passageId) docs in
      (Returned tt,
       log e2 [HideLoader; ShowToast "Passage updated successfully" "success"])
    else
      let e2 := io e1 (UpdateDoc passageId) (passages e1) in
      (Thrown "FirebaseError",
       log e2 [HideLoader; ConsoleError "Error updating passage:";
               ShowToast "Failed to update passage" "error"]).

(** [deletePassage(passageId)]. *)
Definition deletePassage (passageId : string) (e : Env)
    : Outcome unit * Env :=
  if negb (isAdmin (authManager e))
  then (Thrown "Admin privileges required", e)
  else
    let e1 := log e [ShowLoader "Deleting passage..."] in
    if reachable e1 then
      let docs :=
        List.filter (fun d => negb (String.eqb (doc_id d) passageId))
          (passages e1) in
      let e2 := io e1 (DeleteDoc passageId) docs in
      (Returned tt,
       log e2 [HideLoader; ShowToast "Passage deleted successfully" "success"])
    else
      let e2 := io e1 (DeleteDoc passageId) (passages e1) in
      (Thrown "FirebaseError",
       log e2 [HideLoader; ConsoleError "Error deleting passage:";
               ShowToast "Failed to delete passage" "error"]).

(** The argument [options] of [getPassages]. *)
Record Options := mkOptions {
  opt_subject : option string;
  opt_difficulty : option string;
  opt_publishedOnly : option bool;
  opt_limitCount : option Z;
  opt_orderByField : option string;
  opt_orderDirection : option string
}.

(** [getPassages()] called with no argument: [options = {}]. *)
Definition no_options : Options :=
  {| opt_subject := None; opt_difficulty := None; opt_publishedOnly := None;
     opt_limitCount := None; opt_orderByField := None;
     opt_orderDirection := None |}.

(** The same options with [publishedOnly] given by the caller. *)
Definition with_publishedOnly (options : Options) (publishedOnly_ : bool)
    : Options :=
  {| opt_subject := opt_subject options;
     opt_difficulty := opt_difficulty options;
     opt_publishedOnly := Some publishedOnly_;
     opt_limitCount := opt_limitCount options;
     opt_orderByField := opt_orderByField options;
     opt_orderDirection := opt_orderDirection options |}.

(** The value of [publishedOnly] after the destructuring with its default
    [!authManager.isAdmin()]. *)
Definition publishedOnly (options : Options) (am : AuthManager) : bool :=
  default (negb (isAdmin am)) (opt_publishedOnly options).

Definition truthy_string (s : option string) : option string :=
  match s with
  | Some v => if Js.truthy v then Some v else None
  | None => None
  end.

(** The array [constraints] built by [getPassages]. *)
Definition constraints_of (options : Options) (am : AuthManager)
    : list Constraint :=
  let orderByField := default "createdAt"%string (opt_orderByField options) in
  let orderDirection := default "desc"%string (opt_orderDirection options) in
  match truthy_string (opt_subject options) with
  | Some s => [Where "subject" (VString s)]
  | None => []
  end
  ++ match truthy_string (opt_difficulty options) with
     | Some d => [Where "difficulty" (VString d)]
     | None => []
     end
  ++ (if publishedOnly options am
      then [Where "isPublished" (VBoolean true)] else [])
  ++ [OrderBy orderByField orderDirection]
  ++ match opt_limitCount options with
     | Some n => if n =? 0 then [] else [Limit n]
     | None => []
     end.

(** [getPassages(options)]. *)
Definition getPassages (options : Options) (e : Env)
    : Outcome (list (Document PassageDoc)) * Env :=
  let constraints := constraints_of options (authManager e) in
  if forallb acceptable constraints then
    let e1 := io e (GetDocs constraints) (passages e) in
    match getDocs field_of (reachable e1) (passages e1) constraints with
    | Returned querySnapshot => (Returned querySnapshot, e1)
    | Thrown message =>
        (Thrown message,
         log e1 [ConsoleError "Error getting passages:";
                 ShowToast "Failed to load passages" "error"])
    end
  else
    (* [limit(limitCount)] throws while the constraints are built *)
    (Thrown "FirebaseError",
     log e [ConsoleError "Error getting passages:";
            ShowToast "Failed to load passages" "error"]).

(** A concrete store: a published and an unpublished passage, read by a
    student. *)
Definition sample_doc (title_ : string) (published : bool) (t : Z)
    : PassageDoc :=
  {| title := title_; subject := "Biology"; difficulty := "Easy";
     content := Some "text"%string; isPublished := published;
     createdBy := "admin1";
     createdAt := t; updatedAt := t |}.

Definition sample_env : Env :=
  {| authManager := {| currentUser := Some (mkUser "alice");
                       userRole := Some "student"%string |};
     passages := [ mkDocument "p1" (sample_doc "Cells" true 1000);
                   mkDocument "p2" (sample_doc "Genes" false 2000) ];
     reachable := true;
     calls := [];
     ui := [] |}.

Definition sample_data : PassageData :=
  {| pd_title := "Rocks"; pd_subject := "Geology"; pd_difficulty := "Hard";
     pd_content := Some "text"%string; pd_isPublished := Some true |}.

Definition sample_updates : Updates :=
  {| u_title := None; u_subject := None; u_difficulty := None;
     u_content := None; u_isPublished := Some true |}.

End Passages.

(* ===================================================================== *)
(** * Passages (passages.js): the other operations *)
(* ===================================================================== *)

Module PassagesMore.
Import Platform Firestore Passages.

(** [s.includes(sub)] for strings. *)
Fixpoint includes_string (s sub : string) : bool :=
  String.prefix sub s
  || match s with
     | String _ s' => includes_string s' sub
     | EmptyString => false
     end.

(** [getPassage(passageId)]: the document with its id, or [null]; reads by
    id are not entered in [calls]. *)
Definition getPassage (passageId : string) (e : Env)
    : Outcome (option (Document PassageDoc)) * Env :=
  if reachable e then
    (Returned (List.find (fun d => String.eqb (doc_id d) passageId) (passages e)),
     e)
  else
    (Thrown "FirebaseError",
     log e [ConsoleError "Error getting passage:";
            ShowToast "Failed to load passage" "error"]).

(** [getPublishedPassagesBySubject(subject)]. *)
Definition getPublishedPassagesBySubject (subject_ : string) (e : Env)
    : Outcome (list (Document PassageDoc)) * Env :=
  getPassages
    {| opt_subject := Some subject_; opt_difficulty := None;
       opt_publishedOnly := Some true; opt_limitCount := None;
       opt_orderByField := Some "title"%string;
       opt_orderDirection := Some "asc"%string |} e.

(** The test of the [filter] of [searchPassages].  The content is looked
    at only when the title does not match; [None] when the test stops on
    the [TypeError] of [passage.content.toLowerCase()] for a passage that
    has no [content]. *)
Definition matches_search (searchLower : string) (passage : Document PassageDoc)
    : option bool :=
  if includes_string (Js.toLowerCase (title (doc_data passage))) searchLower
  then Some true
  else
    match content (doc_data passage) with
    | Some c => Some (includes_string (Js.toLowerCase c) searchLower)
    | None => None
    end.

(** [l.filter(test)] for a test that may throw: the elements are tested in
    their order, and the first test that throws ends the call. *)
Fixpoint filter_throwing {A} (test : A → option bool) (l : list A)
    : option (list A) :=
  match l with
  | [] => Some []
  | a :: rest =>
      match test a with
      | None => None
      | Some keep =>
          match filter_throwing test rest with
          | None => None
          | Some kept => Some (if keep then a :: kept else kept)
          end
      end
  end.

(** [searchPassages(searchTerm, options)]. *)
Definition searchPassages (searchTerm : string) (options : Options) (e : Env)
    : Outcome (list (Document PassageDoc)) * Env :=
  match getPassages options e with
  | (Returned passages_, e1) =>
      if negb (Js.truthy searchTerm) then (Returned passages_, e1)
      else
        let searchLower := Js.toLowerCase searchTerm in
        match filter_throwing (matches_search searchLower) passages_ with
        | Some found => (Returned found, e1)
        | None =>
            (Thrown "TypeError",
             log e1 [ConsoleError "Error searching passages:";
                     ShowToast "Search failed" "error"])
        end
  | (Thrown message, e1) =>
      (Thrown message,
       log e1 [ConsoleError "Error searching passages:";
               ShowToast "Search failed" "error"])
  end.

(** [togglePassagePublished(passageId, isPublished)]. *)
Definition togglePassagePublished (passageId : string) (isPublished_ : bool)
    (serverTime : Z) (e : Env) : Outcome unit * Env :=
  if negb (isAdmin (authManager e))
  then (Thrown "Admin privileges required", e)
  else
    match updatePassage passageId
            {| u_title := None; u_subject := None; u_difficulty := None;
               u_content := None; u_isPublished := Some isPublished_ |}
            serverTime e with
    | (Returned _, e1) =>
        (Returned tt,
         log e1 [ShowToast
                   (if isPublished_ then "Passage published successfully"
                    else "Passage unpublished successfully")%string
                   "success"])
    | (Thrown message, e1) =>
        (Thrown message, log e1 [ConsoleError "Error toggling passage status:"])
    end.

(** The object returned by [getPassageStats]. *)
Record PassageStats := mkPassageStats {
  total : nat;
  published : nat;
  drafts : nat;
  bySubject : list (string * nat)
}.

(** The subjects counted by [getPassageStats]. *)
Definition subjects : list string :=
  ["Biology"; "Chemistry"; "Physics"; "Geology"; "English"]%string.

(** [getPassageStats()]. *)
Definition getPassageStats (e : Env) : Outcome PassageStats * Env :=
  if negb (isAdmin (authManager e))
  then (Thrown "Admin privileges required", e)
  else
    match getPassages
            {| opt_subject := None; opt_difficulty := None;
               opt_publishedOnly := Some false; opt_limitCount := None;
               opt_orderByField := None; opt_orderDirection := None |} e with
    | (Returned allPassages, e1) =>
        (Returned
           {| total := length allPassages;
              published :=
                length (List.filter (fun p => isPublished (doc_data p))
                          allPassages);
              drafts :=
                length (List.filter (fun p => negb (isPublished (doc_data p)))
                          allPassages);
              bySubject :=
                map (fun s =>
                       (s, length (List.filter
                                     (fun p => String.eqb (subject (doc_data p)) s)
                                     allPassages)))
                    subjects |},
         e1)
    | (Thrown message, e1) =>
        (Thrown message, log e1 [ConsoleError "Error getting passage stats:"])
    end.

(** What [window.retakeQuiz(passageId)] of the dashboard does. *)
Inductive RetakeOutcome :=
| Navigate (path : string)
| NotAvailable                   (* 'Passage not found or no longer available' *)
| FailedToLoad.                  (* 'Failed to load passage' *)

(** [window.retakeQuiz(passageId)] of the dashboard. *)
Definition dashboard_retakeQuiz (passageId : string) (e : Env)
    : RetakeOutcome * Env :=
  match getPassages
          {| opt_subject := None; opt_difficulty := None;
             opt_publishedOnly := Some true; opt_limitCount := None;
             opt_orderByField := None; opt_orderDirection := None |} e with
  | (Returned passages_, e1) =>
      match List.find (fun p => String.eqb (doc_id p) passageId) passages_ with
      | Some _ => (Navigate (String.append "/quiz?passage=" passageId), e1)
      | None =>
          (NotAvailable,
           log e1 [ShowToast "Passage not found or no longer available" "error"])
      end
  | (Thrown _, e1) =>
      (FailedToLoad,
       log e1 [ConsoleError "Error finding passage:";
               ShowToast "Failed to load passage" "error"])
  end.

(** The same store read by another signed-in user. *)
Definition as_user (am : AuthManager) (e : Env) : Env :=
  {| authManager := am; passages := passages e; reachable := reachable e;
     calls := calls e; ui := ui e |}.

(** An admin on the sample store. *)
Definition admin_env : Env :=
  as_user {| currentUser := Some (mkUser "admin1");
             userRole := Some "admin"%string |} sample_env.

(** The ids of a collection. *)
Definition ids (docs : list (Document PassageDoc)) : list string :=
  map doc_id docs.

(** [term] occurs in [s] when the case of the letters is ignored. *)
Definition occurs_ignoring_case (term s : string) : Prop :=
  ∃ before found after : string,
    s = String.append before (String.append found after) ∧
    Js.toLowerCase found = Js.toLowerCase term.

(** A passage matches the search term by its title, or by its content when
    it has one. *)
Definition title_matches (searchTerm : string) (d : Document PassageDoc)
    : Prop :=
  occurs_ignoring_case searchTerm (title (doc_data d)).

Definition content_matches (searchTerm : string) (d : Document PassageDoc)
    : Prop :=
  ∃ c, content (doc_data d) = Some c ∧ occurs_ignoring_case searchTerm c.

(** The sample store with a published passage of the authoring page, which
    holds its text under [text] and has no [content]. *)
Definition authored_env : Env :=
  {| authManager := authManager sample_env;
     passages :=
       passages sample_env
       ++ [ mkDocument "p3"
              {| title := "Rocks"; subject := "Geology"; difficulty := "Hard";
                 content := None; isPublished := true; createdBy := "admin1";
                 createdAt := 3000; updatedAt := 3000 |} ];
     reachable := true;
     calls := [];
     ui := [] |}.

(** A student. *)
Definition student : AuthManager :=
  {| currentUser := Some (mkUser "alice"); userRole := Some "student"%string |}.

(** The order of the titles: [a] may stand before [b]. *)
Definition title_le (a b : Document PassageDoc) : Prop :=
  String.compare (title (doc_data a)) (title (doc_data b)) <> Gt.

End PassagesMore.

(* ===================================================================== *)
(** * Quiz attempts (attempts.js): the other operations *)
(* ===================================================================== *)

Module AttemptsMore.
Import JsNumber Platform Firestore Attempts.

(** [getRecentAttempts(count = 10)]. *)
Definition getRecentAttempts (count : option Z) (now : Z) (e : Env)
    : Outcome (list Attempt) * Env :=
  getAttemptsForUser
    {| opt_subject := None; opt_startDate := None; opt_endDate := None;
       opt_limitCount := Some (default 10 count) |} now e.

(** The statistics of one subject. *)
Record SubjectStats := mkSubjectStats {
  s_attempts : nat;
  s_averageScore : Number;
  s_bestScore : Z;
  s_recentScore : Z
}.

(** The object returned by [getUserStats]. *)
Record UserStats := mkUserStats {
  totalAttempts : nat;
  averageScore : Number;
  totalTimeMinutes : Number;
  bestScore : Z;
  recentScore : Z;
  subjectStats : list (string * SubjectStats);
  scoreHistory : list Attempt
}.

(** [Math.max(first, ...rest)]. *)
Definition Math_max (first : Z) (rest : list Z) : Z := fold_left Z.max rest first.

(** [attempts.reduce((sum, attempt) => sum + f(attempt), 0)]. *)
Definition sum_of (f : Attempt → Z) (attempts_ : list Attempt) : Z :=
  fold_left (fun sum attempt => sum + f attempt) attempts_ 0.

(** [Math.round(total / n)]. *)
Definition rounded_quotient (total n : Z) : Number :=
  Math_round (div (of_Z total) (of_Z n)).

(** The subjects of [getUserStats]. *)
Definition subjects : list string :=
  ["Biology"; "Chemistry"; "Physics"; "Geology"; "English"]%string.

(** The body of [subjects.forEach] in [getUserStats]. *)
Definition subject_stats (attempts_ : list Attempt) (subject_ : string)
    : SubjectStats :=
  let subjectAttempts :=
    List.filter (fun attempt => String.eqb (subject (data attempt)) subject_)
      attempts_ in
  match subjectAttempts with
  | first :: rest =>
      {| s_attempts := length subjectAttempts;
         s_averageScore :=
           rounded_quotient (sum_of (fun a => score (data a)) subjectAttempts)
             (Z.of_nat (length subjectAttempts));
         s_bestScore :=
           Math_max (score (data first)) (map (fun a => score (data a)) rest);
         s_recentScore := score (data first) |}
  | [] =>
      {| s_attempts := 0; s_averageScore := of_Z 0; s_bestScore := 0;
         s_recentScore := 0 |}
  end.

(** The statistics computed from the attempts. *)
Definition stats_of (attempts_ : list Attempt) : UserStats :=
  match attempts_ with
  | [] =>
      {| totalAttempts := 0; averageScore := of_Z 0;
         totalTimeMinutes := of_Z 0; bestScore := 0; recentScore := 0;
         subjectStats := []; scoreHistory := [] |}
  | first :: rest =>
      {| totalAttempts := length attempts_;
         averageScore :=
           rounded_quotient (sum_of (fun a => score (data a)) attempts_)
             (Z.of_nat (length attempts_));
         totalTimeMinutes :=
           rounded_quotient (sum_of (fun a => timeTakenSec (data a)) attempts_)
             60;
         bestScore :=
           Math_max (score (data first)) (map (fun a => score (data a)) rest);
         recentScore := score (data first);
         subjectStats := map (fun s => (s, subject_stats attempts_ s)) subjects;
         scoreHistory := rev (Js.slice0 attempts_ 20) |}
  end.

(** The options [{ limitCount: 1000 }]. *)
Definition limit_1000 : Options :=
  {| opt_subject := None; opt_startDate := None; opt_endDate := None;
     opt_limitCount := Some 1000 |}.

(** [getUserStats()]. *)
Definition getUserStats (now : Z) (e : Env) : Outcome UserStats * Env :=
  if negb (isAuthenticated (authManager e))
  then (Thrown "Authentication required", e)
  else
    match getAttemptsForUser limit_1000 now e with
    | (Returned attempts_, e1) => (Returned (stats_of attempts_), e1)
    | (Thrown message, e1) =>
        (Thrown message, log e1 [ConsoleError "Error getting user stats:"])
    end.

(** The names that the module [attempts.js] imports from the store's
    client library. *)
Definition imports : list string :=
  ["collection"; "doc"; "addDoc"; "getDocs"; "query"; "where";
   "serverTimestamp"]%string.

(** Whether an identifier used as a function of the client library is bound
    in the module; evaluating an unbound identifier throws a
    [ReferenceError]. *)
Definition bound (name : string) : bool := existsb (String.eqb name) imports.

(** [getAttemptsForPassage(passageId)]: the arguments of [query] are
    evaluated from left to right. *)
Definition getAttemptsForPassage (passageId_ : string) (now : Z) (e : Env)
    : Outcome (list Attempt) * Env :=
  if negb (isAuthenticated (authManager e))
  then (Thrown "Authentication required", e)
  else
    let uid_ :=
      match currentUser (authManager e) with
      | Some u => uid u
      | None => EmptyString
      end in
    if forallb bound ["query"; "collection"; "where"; "where"; "orderBy"]%string
    then
      match getDocs field_of (reachable e) (attempts e)
              [Where "userId" (VString uid_);
               Where "passageId" (VString passageId_);
               OrderBy "attemptedAt" "desc"] with
      | Returned querySnapshot => (Returned (map (view now) querySnapshot), e)
      | Thrown message =>
          (Thrown message, log e [ConsoleError "Error getting passage attempts:"])
      end
    else
      (Thrown "ReferenceError",
       log e [ConsoleError "Error getting passage attempts:"]).

(** The favorite subject shown by [loadUserStats] of the dashboard. *)
Definition favoriteSubject (stats : UserStats) : string :=
  match
    Js.sort (fun a b => Z.of_nat (s_attempts b.2) - Z.of_nat (s_attempts a.2))
      (List.filter (fun entry => (0 <? s_attempts entry.2)%nat)
         (subjectStats stats))
  with
  | favorite :: _ => favorite.1
  | [] => "-"
  end.

(** Oldest first. *)
Definition oldest_first (a b : Attempt) : Prop :=
  attemptedAt_date a ≤ attemptedAt_date b.

(** A store with many attempts of [alice]: three of a subject per round. *)
Definition many_attempts (rounds : nat) : Env :=
  {| authManager := authManager sample_env;
     attempts :=
       flat_map
         (fun i =>
            [ mkDocument "a" (sample_attempt "alice" "Biology" (Z.of_nat i));
              mkDocument "b" (sample_attempt "bob" "Biology" (Z.of_nat i));
              mkDocument "c" (sample_attempt "alice" "Physics" (Z.of_nat i)) ])
         (seq 0 rounds);
     reachable := true;
     ui := [] |}.

End AttemptsMore.

(* ===================================================================== *)
(** * The quiz page: the other handlers and the events of the page *)
(* ===================================================================== *)

Module QuizMore.
Import JsNumber QuizData Quiz.

(** The text that [updateSubmitButton] gives to the submit button:
    ['Submit Quiz'] or ['Submit (answered/total)']. *)
Inductive SubmitLabel :=
| SubmitQuiz
| SubmitCount (answeredQuestions totalQuestions : nat).

(** [updateSubmitButton()]; without a loaded passage it stops on a
    [TypeError]. *)
Definition updateSubmitButton (w : World) : option SubmitLabel :=
  match currentPassage w with
  | None => None
  | Some p =>
      let totalQuestions := length (questions p) in
      let answeredQuestions := size (userAnswers w) in
      Some (if (answeredQuestions =? totalQuestions)%nat then SubmitQuiz
            else SubmitCount answeredQuestions totalQuestions)
  end.

(** The listener of [beforeunload]: whether it asks to confirm leaving the
    page, [timerInterval && Object.keys(userAnswers).length > 0].  The
    handle of an interval is a number, truthy unless it is zero. *)
Definition beforeunload (w : World) : bool :=
  match timerInterval w with
  | Some handle => negb (handle =? 0)%nat
  | None => false
  end
  && (0 <? size (userAnswers w))%nat.

(** What happens on the page once the quiz is loaded: an option is
    selected, the quiz is submitted by the button or by Ctrl+Enter (with
    the answer given to the dialog, if it opens), an interval fires, the
    quiz is retaken. *)
Inductive Event :=
| SelectAnswer (questionIndex : nat) (answerIndex : Z)
| Submit (confirmSubmit : bool) (now : Z)
| Tick (handle : nat) (now now' : Z)
| Retake (now : Z).

Definition handle_event (w : World) (ev : Event) : World :=
  match ev with
  | SelectAnswer questionIndex answerIndex =>
      selectAnswer questionIndex answerIndex w
  | Submit confirmSubmit now => submitQuiz false confirmSubmit now w
  | Tick handle now now' => fire handle now now' w
  | Retake now => retakeQuiz now w
  end.

Definition run (events : list Event) (w : World) : World :=
  fold_left handle_event events w.

(** The text that the script last wrote to the submit button, [None]
    while it has written none and the button shows the text of the markup
    of the page.  [updateSubmitButton] is called at the end of
    [selectAnswer], which gets there when the block of the question exists
    (the blocks rendered are those of the questions of the passage), and at
    the end of [retakeQuiz]; [loadQuiz], [submitQuiz] and the countdown
    never call it.  [w] is the page before the event. *)
Definition written_by (ev : Event) (w : World) (written : option SubmitLabel)
    : option SubmitLabel :=
  match ev with
  | SelectAnswer questionIndex answerIndex =>
      let w' := selectAnswer questionIndex answerIndex w in
      match currentPassage w' with
      | Some p =>
          if (questionIndex <? length (questions p))%nat
          then match updateSubmitButton w' with
               | Some label => Some label
               | None => written
               end
          else written
      | None => written
      end
  | Retake now =>
      match updateSubmitButton (retakeQuiz now w) with
      | Some label => Some label
      | None => written
      end
  | Submit _ _ | Tick _ _ _ => written
  end.

(** The page and the text last written to its submit button. *)
Definition handle_event_button (st : World * option SubmitLabel) (ev : Event)
    : World * option SubmitLabel :=
  (handle_event st.1 ev, written_by ev st.1 st.2).

Definition run_button (events : list Event) (w : World)
    : World * option SubmitLabel :=
  fold_left handle_event_button events (w, None).

(** The events whose handlers end by [updateSubmitButton]. *)
Definition writes_button (ev : Event) : bool :=
  match ev with
  | SelectAnswer _ _ | Retake _ => true
  | Submit _ _ | Tick _ _ _ => false
  end.

(** The page renders options for the questions of the passage only. *)
Definition offered (p : Passage) (ev : Event) : Prop :=
  match ev with
  | SelectAnswer questionIndex _ => (questionIndex < length (questions p))%nat
  | _ => True
  end.

(** The attempt recorded for [results]. *)
Definition recorded_for (p : Passage) (results : Results) : RecordedAttempt :=
  {| ra_passageId := id p; ra_score := correct results;
     ra_timeElapsed := timeElapsed results;
     ra_totalQuestions := total results |}.

(** Ticks of the interval [handle]. *)
Definition ticks (handle : nat) (times : list (Z * Z)) (w : World) : World :=
  fold_left (fun w t => fire handle t.1 t.2 w) times w.

(** What holds of the page from [loadQuiz] of the passage [p] on, for the
    visitor [user]: the passage stays loaded, [timerInterval] holds the
    handle of an interval, the answers are answers to questions of the
    passage, and the recorded attempts are attempts at this passage, one
    for each time the results were shown to a signed-in visitor. *)
Definition Loaded (p : Passage) (user : option string) (w : World) : Prop :=
  currentPassage w = Some p ∧
  auth_currentUser w = user ∧
  (∃ handle, timerInterval w = Some handle ∧ handle ≠ 0%nat) ∧
  next_handle w ≠ 0%nat ∧
  (∀ i, is_Some (userAnswers w !! i) → (i < length (questions p))%nat) ∧
  Forall (fun r => ra_passageId r = id p ∧
                   ra_totalQuestions r = length (questions p) ∧
                   (ra_score r ≤ ra_totalQuestions r)%nat)
         (recorded w) ∧
  length (recorded w)
  = match user with
    | Some _ => length (results_populated w)
    | None => 0%nat
    end.

(** A finished session in which the second question was left out. *)
Definition sample_finished : World := submitQuiz true false 60000 sample_partial.


End QuizMore.

(* ===================================================================== *)
(** * The passage-authoring page: blocks of pasted lines *)
(* ===================================================================== *)

Module BulkParseMore.
Import Js BulkParse.

(** A block of lines: a question line and the lines that follow it up to
    the next question line. *)
Definition Block : Type := string * list string.

Definition block_lines (b : Block) : list string := b.1 :: b.2.

Definition well_formed (b : Block) : Prop :=
  is_question_line b.1 = true ∧
  Forall (fun line => is_question_line line = false) b.2.

(** The question that a block stands for: the prompt of its question line
    and its option lines, in their order. *)
Definition question_of_block (b : Block) : ParsedQuestion :=
  let optlines := List.filter is_option_line b.2 in
  {| text := trim (substring 9 b.1);
     options := map option_text optlines;
     correctIndex := last_marked optlines 0 (-1) |}.

(** The questions of a loop state, the one under construction last. *)
Definition finish (st : ParseState) : list ParsedQuestion :=
  st.1 ++ match st.2 with Some c => [c] | None => [] end.

(** Lines with a title before the first question, a remark between the
    options, and options labelled in another order. *)
Definition noisy_lines : list string :=
  [ "Chapter 1"; "A) stray";
    "Question: First?"; "D) one"; "(see page 3)"; "C) two *"; "B) three";
    "A) four";
    "QUESTION: Second?"; "A) *x"; "B) y"; "C) z"; "D) w" ]%string.

End BulkParseMore.

(* ===================================================================== *)
(** * The passage-authoring page: the question editor *)
(* ===================================================================== *)

Module Editor.
Import Js BulkParse.

(** A question item of the editor ([div.question-item]): the DOM node, its
    [dataset.questionId], the number of its label ['Question n'], the
    number in the name ['correct-n'] of its radio buttons, the number
    written into the [onclick] attributes of its three buttons when its
    markup was generated, and the data the markup was generated from, if
    any. *)
Record QuestionItem := mkQuestionItem {
  node : nat;
  questionId : nat;
  number : nat;
  radioName : nat;
  handlerId : nat;
  content : option ParsedQuestion
}.

(** The messages of the paste dialog. *)
Inductive Toast :=
| PleasePaste              (* 'Please paste some questions' *)
| NoValidQuestions         (* 'No valid questions found' *)
| Added (n : nat).         (* 'Added n questions' *)

(** The variable [questionCount], the element children of
    [#questions-container] in document order, the next fresh DOM node, the
    paste dialog and the messages shown, oldest first. *)
Record Page := mkPage {
  questionCount : nat;
  items : list QuestionItem;
  next_node : nat;
  paste_modal_shown : bool;
  toasts : list Toast
}.

Definition with_items (page : Page) (count : nat) (items_ : list QuestionItem)
    : Page :=
  {| questionCount := count; items := items_; next_node := next_node page;
     paste_modal_shown := paste_modal_shown page; toasts := toasts page |}.

(** The item appended by [addQuestion] and [addQuestionWithData]. *)
Definition append_item (data : option ParsedQuestion) (page : Page) : Page :=
  let count := S (questionCount page) in
  {| questionCount := count;
     items := items page ++
                [ {| node := next_node page; questionId := count;
                     number := count; radioName := count;
                     handlerId := count; content := data |} ];
     next_node := S (next_node page);
     paste_modal_shown := paste_modal_shown page;
     toasts := toasts page |}.

(** [addQuestion()]. *)
Definition addQuestion (page : Page) : Page := append_item None page.

(** [addQuestionWithData] writes the text of the question between the
    tags of a [textarea] and each option into a double-quoted [value]
    attribute, as they are, and assigns the result to [innerHTML].  A
    string that holds none of the characters [<], [&] and the double quote
    is read back by the browser as the text it is, and the item is then one
    element with the children of the template. *)
Definition plain_string (s : string) : bool :=
  negb (includes "<"%char s) && negb (includes "&"%char s)
  && negb (includes (ascii_of_nat 34) s).

Definition plain (questionData : ParsedQuestion) : bool :=
  plain_string (text questionData)
  && forallb plain_string (options questionData).

(** [addQuestionWithData(questionData)] for plain data.  Of other data the
    browser may make further elements and attributes, which the items of a
    [Page] do not describe: the embedding gives no page for them
    ([None]). *)
Definition addQuestionWithData (questionData : ParsedQuestion) (page : Page)
    : option Page :=
  if plain questionData then Some (append_item (Some questionData) page)
  else None.

(** [questions.forEach(questionData => addQuestionWithData(questionData))]. *)
Fixpoint add_questions (questions : list ParsedQuestion) (page : Page)
    : option Page :=
  match questions with
  | [] => Some page
  | questionData :: rest =>
      match addQuestionWithData questionData page with
      | Some page1 => add_questions rest page1
      | None => None
      end
  end.

(** The position of the element that
    [document.querySelector('[data-question-id="id"]')] returns: the first
    in document order. *)
Fixpoint querySelector (id : nat) (items_ : list QuestionItem) : option nat :=
  match items_ with
  | [] => None
  | el :: rest =>
      if (questionId el =? id)%nat then Some 0%nat
      else S <$> querySelector id rest
  end.

(** The body of the [forEach] of [renumberQuestions]. *)
Definition renumber_item (index : nat) (el : QuestionItem) : QuestionItem :=
  let questionNumber := S index in
  {| node := node el; questionId := questionNumber; number := questionNumber;
     radioName := questionNumber; handlerId := handlerId el;
     content := content el |}.

(** [renumberQuestions()]. *)
Definition renumberQuestions (page : Page) : Page :=
  let questionElements := imap renumber_item (items page) in
  with_items page (length questionElements) questionElements.

(** [removeQuestion(questionId)]. *)
Definition removeQuestion (id : nat) (page : Page) : Page :=
  match querySelector id (items page) with
  | Some i =>
      renumberQuestions
        (with_items page (questionCount page) (delete i (items page)))
  | None => page
  end.

(** The children after [parent.insertBefore(child, reference)] for a child
    that directly follows the reference at position [i]. *)
Definition swap_with_next (i : nat) (items_ : list QuestionItem)
    : list QuestionItem :=
  match items_ !! i, items_ !! S i with
  | Some a, Some b => take i items_ ++ b :: a :: drop (S (S i)) items_
  | _, _ => items_
  end.

(** [moveQuestionUp(questionId)]; [None] when it stops on the [TypeError]
    of reading [previousElementSibling] of [null]. *)
Definition moveQuestionUp (id : nat) (page : Page) : option Page :=
  match querySelector id (items page) with
  | None => None
  | Some 0%nat => Some page
  | Some (S i) =>
      Some (renumberQuestions
              (with_items page (questionCount page)
                 (swap_with_next i (items page))))
  end.

(** [moveQuestionDown(questionId)]. *)
Definition moveQuestionDown (id : nat) (page : Page) : option Page :=
  match querySelector id (items page) with
  | None => None
  | Some i =>
      if (S i <? length (items page))%nat
      then Some (renumberQuestions
                   (with_items page (questionCount page)
                      (swap_with_next i (items page))))
      else Some page
  end.

(** A click on the remove button of an item runs the [onclick] attribute
    written when the item was generated. *)
Definition click_remove (el : QuestionItem) (page : Page) : Page :=
  removeQuestion (handlerId el) page.

(** [processPastedQuestions()] on the value of the text area; [None] when
    a pasted question is not plain, as for [addQuestionWithData]. *)
Definition processPastedQuestions (value : string) (page : Page)
    : option Page :=
  let text_ := trim value in
  if negb (truthy text_) then
    Some {| questionCount := questionCount page; items := items page;
            next_node := next_node page;
            paste_modal_shown := paste_modal_shown page;
            toasts := toasts page ++ [PleasePaste] |}
  else
    let questions := parseQuestionText text_ in
    if (length questions =? 0)%nat then
      Some {| questionCount := questionCount page; items := items page;
              next_node := next_node page;
              paste_modal_shown := paste_modal_shown page;
              toasts := toasts page ++ [NoValidQuestions] |}
    else
      match add_questions questions (with_items page 0 []) with
      | Some page1 =>
          Some {| questionCount := questionCount page1; items := items page1;
                  next_node := next_node page1;
                  paste_modal_shown := false;
                  toasts := toasts page1 ++ [Added (length questions)] |}
      | None => None
      end.

(** The operations of the editor. *)
Inductive Op :=
| AddQuestion
| RemoveQuestion (id : nat)
| MoveQuestionUp (id : nat)
| MoveQuestionDown (id : nat)
| Paste (value : string).

(** An operation that stops on an error leaves the page as it is; there
    is no page ([None]) after a paste of questions that are not plain. *)
Definition apply_op (page : Page) (op : Op) : option Page :=
  match op with
  | AddQuestion => Some (addQuestion page)
  | RemoveQuestion id => Some (removeQuestion id page)
  | MoveQuestionUp id => Some (default page (moveQuestionUp id page))
  | MoveQuestionDown id => Some (default page (moveQuestionDown id page))
  | Paste value => processPastedQuestions value page
  end.

Fixpoint apply_ops (ops : list Op) (page : Page) : option Page :=
  match ops with
  | [] => Some page
  | op :: rest =>
      match apply_op page op with
      | Some page1 => apply_ops rest page1
      | None => None
      end
  end.

(** The questions that an operation pastes are plain. *)
Definition plain_op (op : Op) : Prop :=
  match op with
  | Paste value =>
      Forall (fun questionData => plain questionData = true)
        (parseQuestionText (trim value))
  | _ => True
  end.

(** The items are numbered by their positions, from one on. *)
Definition numbered (page : Page) : Prop :=
  questionCount page = length (items page) ∧
  ∀ i el, items page !! i = Some el →
          questionId el = S i ∧ number el = S i ∧ radioName el = S i.

(** The buttons of every item act on the item itself. *)
Definition wired (page : Page) : Prop :=
  ∀ el, el ∈ items page → handlerId el = questionId el.

(** The DOM nodes of the items. *)
Definition nodes (page : Page) : list nat := map node (items page).

(** The editor when its container has just been emptied. *)
Definition empty_page : Page :=
  {| questionCount := 0; items := []; next_node := 0;
     paste_modal_shown := false; toasts := [] |}.

(** Three questions added to the empty editor. *)
Definition three_items : Page :=
  addQuestion (addQuestion (addQuestion empty_page)).

End Editor.

(* ===================================================================== *)
(** * The passage-authoring page: collecting and validating the form *)
(* ===================================================================== *)

Module PassageForm.
Import Js QuizData.

(** What is typed into a question item: the text area, the four option
    inputs, and the value of the checked radio button, if one is
    checked. *)
Record QuestionFields := mkQuestionFields {
  questionText : string;
  optionValues : list string;
  checkedValue : option nat
}.

(** The values of the form and the question items in document order. *)
Record Form := mkForm {
  f_title : string;
  f_source : string;
  f_subject : string;
  f_category : string;
  f_difficulty : string;
  f_timeLimit : string;
  f_tags : string;
  f_passageText : string;
  f_questionElements : list QuestionFields
}.

(** The object built by [collectFormData]. *)
Record FormData := mkFormData {
  title : string;
  source : string;
  subject : string;
  category : string;
  difficulty : string;
  timeLimit : string;
  tags : string;
  passageText : string;
  questions : list Question
}.

(** The messages of [validateForm]; the number is [index + 1]. *)
Inductive FormError :=
| TitleRequired
| SubjectRequired
| DifficultyRequired
| TimeLimitRequired
| PassageTextRequired
| QuestionRequired
| QuestionTextRequired (n : nat)
| EmptyOptions (n : nat)
| NeedsCorrectAnswer (n : nat).

(** [opt.trim()] as a condition. *)
Definition filled (s : string) : bool := truthy (trim s).

(** The condition under which [collectFormData] keeps a question item. *)
Definition complete (element : QuestionFields) : bool :=
  let answerIndex :=
    match checkedValue element with
    | Some value => Z.of_nat value
    | None => -1
    end in
  truthy (questionText element)
  && forallb filled (optionValues element)
  && (0 <=? answerIndex).

(** The body of the [forEach] of [collectFormData]. *)
Definition collect_question (acc : list Question) (element : QuestionFields)
    : list Question :=
  let questionText_ := questionText element in
  let options_ := optionValues element in
  let answerIndex_ :=
    match checkedValue element with
    | Some value => Z.of_nat value
    | None => -1
    end in
  if truthy questionText_ && forallb filled options_ && (0 <=? answerIndex_)
  then acc ++ [ {| q := questionText_; options := options_;
                   answerIndex := answerIndex_ |} ]
  else acc.

(** [collectFormData()]. *)
Definition collectFormData (form : Form) : FormData :=
  {| title := f_title form; source := f_source form;
     subject := f_subject form; category := f_category form;
     difficulty := f_difficulty form; timeLimit := f_timeLimit form;
     tags := f_tags form; passageText := f_passageText form;
     questions := fold_left collect_question (f_questionElements form) [] |}.

(** The body of the [forEach] of [validateForm]. *)
Definition question_errors (index : nat) (question : Question)
    : list FormError :=
  (if negb (filled (q question)) then [QuestionTextRequired (index + 1)]
   else [])
  ++ (if existsb (fun opt => negb (filled opt)) (options question)
      then [EmptyOptions (index + 1)] else [])
  ++ (if answerIndex question <? 0 then [NeedsCorrectAnswer (index + 1)]
      else []).

Section Validate.
(** The comparison [formData.timeLimit < 1] of a string with a number
    converts the string to a number; the conversion is left open. *)
Variable less_than_one : string → bool.

(** [validateForm()]. *)
Definition validateForm (form : Form) : list FormError :=
  let formData := collectFormData form in
  (if negb (filled (title formData)) then [TitleRequired] else [])
  ++ (if negb (truthy (subject formData)) then [SubjectRequired] else [])
  ++ (if negb (truthy (difficulty formData)) then [DifficultyRequired] else [])
  ++ (if negb (truthy (timeLimit formData))
         || less_than_one (timeLimit formData)
      then [TimeLimitRequired] else [])
  ++ (if negb (filled (passageText formData)) then [PassageTextRequired]
      else [])
  ++ (if (length (questions formData) =? 0)%nat then [QuestionRequired]
      else [])
  ++ concat (imap question_errors (questions formData)).
End Validate.

(** The form without the question items that are not complete. *)
Definition without_incomplete (form : Form) : Form :=
  {| f_title := f_title form; f_source := f_source form;
     f_subject := f_subject form; f_category := f_category form;
     f_difficulty := f_difficulty form; f_timeLimit := f_timeLimit form;
     f_tags := f_tags form; f_passageText := f_passageText form;
     f_questionElements := List.filter complete (f_questionElements form) |}.

(** The question that a complete item stands for. *)
Definition question_of (element : QuestionFields) : Question :=
  {| q := questionText element; options := optionValues element;
     answerIndex := match checkedValue element with
                    | Some value => Z.of_nat value
                    | None => -1
                    end |}.

(** A form with a complete question, one without a correct answer and one
    with an empty option. *)
Definition sample_form : Form :=
  {| f_title := "Cells"; f_source := ""; f_subject := "biology";
     f_category := ""; f_difficulty := "Easy"; f_timeLimit := "10";
     f_tags := ""; f_passageText := "text";
     f_questionElements :=
       [ {| questionText := "First?"; optionValues := ["a"; "b"; "c"; "d"];
            checkedValue := Some 2%nat |};
         {| questionText := "Second?"; optionValues := ["a"; "b"; "c"; "d"];
            checkedValue := None |};
         {| questionText := "Third?"; optionValues := ["a"; " "; "c"; "d"];
            checkedValue := Some 0%nat |} ] |}.

End PassageForm.

(* ===================================================================== *)
(** * Loading the role of the signed-in user (auth.js) *)
(* ===================================================================== *)

Module Auth.
Import Platform.

(** The value of [expires] in an item of the local storage: none, a
    Number that is an integer, or any other value (a string, a boolean,
    [null], a Number with a fraction, an array, an object), given by the
    JSON text that writes it. *)
Inductive Expires :=
| Absent
| Integer (z : Z)
| Converted (json : string).

(** What [JSON.parse] makes of an item of the local storage: an object
    with its [role], a string, or [None] when the object has none or
    [null], and with its [expires]; or nothing to read a role from (the
    parse fails, or gives [null] or a value that is not an object).  An
    object whose [role] is of another type is not described: the auth
    manager of [Platform] holds a string or nothing as its role. *)
Inductive CacheEntry :=
| Entry (role : option string) (expires : Expires)
| Unreadable.

(** Modelled from the spec: the identity platform and the document store
    are external services.  [getIdTokenResult] fails or gives the claims
    of the token, of which [admin] is read; the collection [users] maps a
    uid to a document, of which [role] is read; a read of the store fails
    when it is not reachable, and [create_ok] tells whether
    [createUserDocument] goes through. *)
Record UserDoc := mkUserDoc { role_field : option string }.

(** The auth manager, the local storage, the platform, and what the call
    leaves behind: the number of reads of the store and the console. *)
Record Env := mkEnv {
  authManager : AuthManager;
  localStorage : gmap string CacheEntry;
  token_admin : Outcome bool;
  users : gmap string UserDoc;
  reachable : bool;
  create_ok : bool;
  store_reads : nat;
  console : list string
}.

Definition with_role (e : Env) (r : option string) : Env :=
  {| authManager := {| currentUser := currentUser (authManager e);
                       userRole := r |};
     localStorage := localStorage e; token_admin := token_admin e;
     users := users e; reachable := reachable e; create_ok := create_ok e;
     store_reads := store_reads e; console := console e |}.

Definition console_error (e : Env) (message : string) : Env :=
  {| authManager := authManager e; localStorage := localStorage e;
     token_admin := token_admin e; users := users e;
     reachable := reachable e; create_ok := create_ok e;
     store_reads := store_reads e;
     console := console e ++ [message] |}.

(** Truthiness of [this.userRole]. *)
Definition truthy_role (r : option string) : bool :=
  match r with
  | Some s => Js.truthy s
  | None => false
  end.

Definition cacheKey (u : User) : string := String.append "userRole:" (uid u).

(** The first [try] of [loadUserRole]: the custom claims. *)
Definition check_claims (e : Env) : Env :=
  match token_admin e with
  | Returned true => with_role e (Some "admin"%string)
  | Returned false => e
  | Thrown _ => console_error e "Error checking custom claims:"
  end.

(** The second [try] of [loadUserRole]: the document of the user, created
    when it does not exist. *)
Definition read_user_document (u : User) (e : Env) : Env :=
  let e1 :=
    {| authManager := authManager e; localStorage := localStorage e;
       token_admin := token_admin e; users := users e;
       reachable := reachable e; create_ok := create_ok e;
     store_reads := S (store_reads e);
       console := console e |} in
  if reachable e1 then
    match users e1 !! uid u with
    | Some userDoc =>
        with_role e1
          (if truthy_role (role_field userDoc) then role_field userDoc
           else Some "student"%string)
    | None =>
        if create_ok e1 then
          with_role
            {| authManager := authManager e1;
               localStorage := localStorage e1;
               token_admin := token_admin e1;
               users := <[uid u := {| role_field := Some "student"%string |}]>
                          (users e1);
               reachable := reachable e1; create_ok := create_ok e1;
               store_reads := store_reads e1; console := console e1 |}
            (Some "student"%string)
        else
          with_role (console_error e1 "Error loading user role:")
            (Some "student"%string)
    end
  else
    with_role (console_error e1 "Error loading user role:")
      (Some "student"%string).

Section Cache.
(** [value > now] for a value of [expires] that is not an integral Number,
    given by its JSON text.  The comparison converts the value to a Number
    first: a string to the number it writes, if it writes one, [true] to
    [1], [null] to [0], and so on.  The conversion is left open. *)
Variable greater_than : string → Z → bool.

(** The role that a fresh cache entry gives at the clock [now]: the test
    is [parsed.expires > now], which is [false] for an object without
    [expires]. *)
Definition cached_role (entry : option CacheEntry) (now : Z)
    : option (option string) :=
  match entry with
  | Some (Entry role (Integer expires)) =>
      if now <? expires then Some role else None
  | Some (Entry role (Converted json)) =>
      if greater_than json now then Some role else None
  | _ => None
  end.

(** [loadUserRole()] at the clock [now]; the local storage can be read
    and written. *)
Definition loadUserRole (now : Z) (e : Env) : Env :=
  match currentUser (authManager e) with
  | None => e
  | Some u =>
      match cached_role (localStorage e !! cacheKey u) now with
      | Some role => with_role e role
      | None =>
          let e1 := check_claims e in
          let e2 :=
            if negb (truthy_role (userRole (authManager e1)))
            then read_user_document u e1 else e1 in
          {| authManager := authManager e2;
             localStorage :=
               <[cacheKey u := Entry (userRole (authManager e2))
                                 (Integer (now + 10 * 60 * 1000))]>
                 (localStorage e2);
             token_admin := token_admin e2; users := users e2;
             reachable := reachable e2; create_ok := create_ok e2;
             store_reads := store_reads e2; console := console e2 |}
      end
  end.

(** The listener of [onAuthStateChanged] up to the loading of the role:
    [user] is the user who is now signed in, if any. *)
Definition onAuthStateChanged (user : option User) (now : Z) (e : Env) : Env :=
  let e1 :=
    {| authManager := {| currentUser := user;
                         userRole := userRole (authManager e) |};
       localStorage := localStorage e; token_admin := token_admin e;
       users := users e; reachable := reachable e; create_ok := create_ok e;
       store_reads := store_reads e; console := console e |} in
  match user with
  | Some _ => loadUserRole now e1
  | None => with_role e1 None
  end.
End Cache.

(** A page on which nobody is signed in; the store knows [carol] as an
    admin and [dave] as a student, and neither has a token claim. *)
Definition sample_env : Env :=
  {| authManager := {| currentUser := None; userRole := None |};
     localStorage := ∅;
     token_admin := Returned false;
     users := {[ "carol"%string := {| role_field := Some "admin"%string |};
                 "dave"%string := {| role_field := Some "student"%string |} ]};
     reachable := true;
     create_ok := true;
     store_reads := 0;
     console := [] |}.

(** A conversion that finds no value later than the clock, for the pages
    whose local storage holds integral [expires] only. *)
Definition never_greater (json : string) (now : Z) : bool := false.

(** [dave] signed in on that page, his role not loaded yet. *)
Definition dave_signed_in : Env :=
  {| authManager := {| currentUser := Some (mkUser "dave");
                       userRole := None |};
     localStorage := localStorage sample_env;
     token_admin := token_admin sample_env;
     users := users sample_env;
     reachable := true; create_ok := true;
     store_reads := 0; console := [] |}.

End Auth.

(* ===================================================================== *)
(** * The router *)
(* ===================================================================== *)

Module Router.
Import Platform.

(** The routes registered by [init], in the order of their registration. *)
Definition routes : list (string * string) :=
  [ ("/", "partials/home.html");
    ("/subjects", "partials/subjects.html");
    ("/dashboard", "partials/dashboard.html");
    ("/admin", "partials/admin.html");
    ("/quiz", "partials/quiz.html") ]%string.

(** [this.routes.get(path)]. *)
Fixpoint routes_get (path : string) (entries : list (string * string))
    : option string :=
  match entries with
  | [] => None
  | (key, partialFile) :: rest =>
      if String.eqb key path then Some partialFile else routes_get path rest
  end.

(** The page modules that [initializePage] starts. *)
Inductive PageModule :=
| HomePage | SubjectsPage | DashboardPage | AdminPage | QuizPage.

(** The router and the parts of the browser it writes: the partial file
    loaded into [main], the page modules started (oldest first), whether
    the sign-in dialog was opened, the paths given to [history.pushState]
    (oldest first) and [window.location.pathname]. *)
Record State := mkState {
  isNavigating : bool;
  currentRoute : option string;
  main_partial : option string;
  started : list PageModule;
  auth_modal_shown : bool;
  pushed : list string;
  pathname : string
}.

Definition start (page : PageModule) (r : State) : State :=
  {| isNavigating := isNavigating r; currentRoute := currentRoute r;
     main_partial := main_partial r; started := started r ++ [page];
     auth_modal_shown := auth_modal_shown r; pushed := pushed r;
     pathname := pathname r |}.

Section Navigation.
(** The pathname of the location after [history.pushState(_, '', url)] at
    a given pathname; the resolution of URLs is left open. *)
Variable resolve : string → string → string.
(** [window.authManager]. *)
Variable am : AuthManager.

(** [navigateToPath(path, pushState)], run to its end.  [initAdminPage]
    calls [navigateToPath] again; [fuel] bounds the depth of these
    calls. *)
Fixpoint navigateToPath (fuel : nat) (path : string) (pushState : bool)
    (r : State) : State :=
  match fuel with
  | O => r
  | S fuel' =>
      if isNavigating r then r
      else
        let partialFile :=
          match routes_get path routes with
          | Some file => file
          | None => default EmptyString (routes_get "/" routes)
          end in
        let push := pushState && negb (String.eqb path (pathname r)) in
        let r1 :=
          {| isNavigating := true;
             currentRoute := Some path;
             main_partial := Some partialFile;
             started := started r;
             auth_modal_shown := auth_modal_shown r;
             pushed := if push then pushed r ++ [path] else pushed r;
             pathname := if push then resolve (pathname r) path
                         else pathname r |} in
        (* initializePage(path) *)
        let r2 :=
          if String.eqb path "/" then start HomePage r1
          else if String.eqb path "/subjects" then start SubjectsPage r1
          else if String.eqb path "/dashboard" then
            if isAuthenticated am then start DashboardPage r1
            else
              {| isNavigating := isNavigating r1;
                 currentRoute := currentRoute r1;
                 main_partial := main_partial r1; started := started r1;
                 auth_modal_shown := true; pushed := pushed r1;
                 pathname := pathname r1 |}
          else if String.eqb path "/admin" then
            if isAdmin am then start AdminPage r1
            else navigateToPath fuel' "/dashboard" true r1
          else if String.eqb path "/quiz" then start QuizPage r1
          else r1 in
        (* finally *)
        {| isNavigating := false; currentRoute := currentRoute r2;
           main_partial := main_partial r2; started := started r2;
           auth_modal_shown := auth_modal_shown r2; pushed := pushed r2;
           pathname := pathname r2 |}
  end.

(** [navigate(path)]. *)
Definition navigate (fuel : nat) (path : string) (r : State) : State :=
  navigateToPath fuel path true r.
End Navigation.

(** The router at rest on the dashboard. *)
Definition on_dashboard : State :=
  {| isNavigating := false; currentRoute := Some "/dashboard"%string;
     main_partial := Some "partials/dashboard.html"%string;
     started := [DashboardPage]; auth_modal_shown := false; pushed := [];
     pathname := "/dashboard" |}.

(** The part of a URL before its query, for the examples. *)
Fixpoint before_query (url : string) : string :=
  match url with
  | EmptyString => EmptyString
  | String c rest =>
      if Ascii.eqb c "?"%char then EmptyString
      else String c (before_query rest)
  end.

End Router.

(* ===================================================================== *)
(** * Passages: listings by date *)
(* ===================================================================== *)

Module PassagesListing.
Import Platform Firestore Passages.

(** [getSubjectPassagesOptimized(subject)] of the subjects page. *)
Definition getSubjectPassagesOptimized (subject_ : string) (e : Env)
    : Outcome (list (Document PassageDoc)) * Env :=
  let constraints :=
    [ Where "subject" (VString subject_);
      Where "isPublished" (VBoolean true);
      OrderBy "createdAt" "desc";
      Limit 12 ] in
  let e1 := io e (GetDocs constraints) (passages e) in
  match getDocs field_of (reachable e1) (passages e1) constraints with
  | Returned querySnapshot => (Returned querySnapshot, e1)
  | Thrown message =>
      (Thrown message, log e1 [ConsoleError "Firestore query error:"])
  end.

(** The same options with another [limitCount]. *)
Definition with_limit (options : Options) (limitCount : option Z) : Options :=
  {| opt_subject := opt_subject options;
     opt_difficulty := opt_difficulty options;
     opt_publishedOnly := opt_publishedOnly options;
     opt_limitCount := limitCount;
     opt_orderByField := opt_orderByField options;
     opt_orderDirection := opt_orderDirection options |}.

(** A passage passes the filters that [getPassages] makes of its
    options. *)
Definition selected (options : Options) (am : AuthManager)
    (d : Document PassageDoc) : bool :=
  match truthy_string (opt_subject options) with
  | Some s => String.eqb (subject (doc_data d)) s
  | None => true
  end
  && match truthy_string (opt_difficulty options) with
     | Some s => String.eqb (difficulty (doc_data d)) s
     | None => true
     end
  && (if publishedOnly options am then isPublished (doc_data d) else true).

(** Newest first, by [createdAt]. *)
Definition newer_first (a b : Document PassageDoc) : Prop :=
  createdAt (doc_data b) ≤ createdAt (doc_data a).

(** An admin on the sample store, and the ids of a listing. *)
Definition admin_env_listing : Env :=
  {| authManager := {| currentUser := Some (mkUser "admin1");
                       userRole := Some "admin"%string |};
     passages := passages sample_env; reachable := true;
     calls := []; ui := [] |}.

Definition ids_listing (docs : list (Document PassageDoc)) : list string :=
  map doc_id docs.

(** A store with fifteen published passages of one subject. *)
Definition many_passages : Env :=
  {| authManager := authManager sample_env;
     passages :=
       map (fun i => mkDocument "p" (sample_doc "Cells" true (Z.of_nat i)))
         (seq 0 15);
     reachable := true; calls := []; ui := [] |}.

End PassagesListing.

(* ===================================================================== *)
(** * Properties of the array helpers *)
(* ===================================================================== *)

Module JsFacts.
Import Js.

Section Sort.
Context {A : Type} (compare : A → A → Z).

Lemma insert_sorted_Permutation a l :
  insert_sorted compare a l ≡ₚ a :: l.
Proof.
  induction l as [|b l IH]; simpl; [done|].
  destruct (compare a b <=? 0); [done|].
  rewrite IH. apply Permutation_swap.
Qed.

Lemma sort_Permutation l : sort compare l ≡ₚ l.
Proof.
  induction l as [|a l IH]; simpl; [done|].
  unfold sort in *. simpl.
  rewrite insert_sorted_Permutation. by rewrite IH.
Qed.

Lemma sort_elem_of x l : x ∈ sort compare l ↔ x ∈ l.
Proof. by rewrite sort_Permutation. Qed.

Lemma sort_length l : length (sort compare l) = length l.
Proof. by rewrite sort_Permutation. Qed.

(** A comparator that orders by a key: [compare a b = key b - key a]
    sorts by decreasing key. *)
Variable key : A → Z.
Hypothesis compare_key : ∀ a b, compare a b = key b - key a.

Lemma insert_sorted_sorted a l :
  StronglySorted (newest_first key) l →
  StronglySorted (newest_first key) (insert_sorted compare a l).
Proof.
  induction 1 as [|b l Hs IH Hb]; simpl.
  - repeat constructor.
  - destruct (Z.leb_spec (compare a b) 0) as [Hle|Hgt].
    + rewrite compare_key in Hle.
      constructor; [by constructor|].
      constructor; [unfold newest_first; lia|].
      eapply Forall_impl; [exact Hb|].
      unfold newest_first. intros c Hc. lia.
    + rewrite compare_key in Hgt.
      constructor; [exact IH|].
      rewrite insert_sorted_Permutation.
      constructor; [unfold newest_first; lia | exact Hb].
Qed.

Lemma sort_sorted l : StronglySorted (newest_first key) (sort compare l).
Proof.
  induction l as [|a l IH]; [constructor|].
  unfold sort in *. simpl. by apply insert_sorted_sorted.
Qed.
End Sort.

Lemma elem_of_List_filter {A} (f : A → bool) (l : list A) x :
  x ∈ List.filter f l ↔ x ∈ l ∧ f x = true.
Proof. rewrite !list_elem_of_In. apply filter_In. Qed.

Lemma StronglySorted_take {A} (R : A → A → Prop) n (l : list A) :
  StronglySorted R l → StronglySorted R (take n l).
Proof.
  intros Hs. revert n. induction Hs as [|a l Hs IH Ha]; intros [|n]; simpl;
    try constructor; [apply IH|].
  apply Forall_forall. intros x Hx.
  rewrite Forall_forall in Ha. apply Ha.
  eapply subseteq_take, Hx.
Qed.

Lemma slice0_subseteq {A} (l : list A) n : slice0 l n ⊆ l.
Proof. unfold slice0. destruct (n <? 0); apply subseteq_take. Qed.

Lemma slice0_nonneg {A} (l : list A) n :
  0 ≤ n → slice0 l n = take (Z.to_nat n) l.
Proof.
  intros Hn. unfold slice0.
  destruct (Z.ltb_spec n 0); [lia | done].
Qed.

End JsFacts.

(* ===================================================================== *)
(** * Properties of the attempts repository *)
(* ===================================================================== *)

Module AttemptsFacts.
Import Platform Firestore Attempts JsFacts.

Lemma has_value_userId d u :
  has_value field_of d "userId" (VString u) = true ↔ userId (doc_data d) = u.
Proof.
  unfold has_value, field_of. simpl. apply String.eqb_eq.
Qed.

Lemma in_range_spec s t a :
  in_range s t a = true ↔
  (∀ s', s = Some s' → s' ≤ attemptedAt_date a) ∧
  (∀ t', t = Some t' → attemptedAt_date a ≤ t').
Proof.
  unfold in_range. destruct s as [s'|], t as [t'|].
  - destruct (Z.ltb_spec (attemptedAt_date a) s');
      destruct (Z.ltb_spec t' (attemptedAt_date a)); split; try done.
    + intros [H1 _]. specialize (H1 _ eq_refl). lia.
    + intros [H1 _]. specialize (H1 _ eq_refl). lia.
    + intros [_ H2]. specialize (H2 _ eq_refl). lia.
    + intros _. split; intros ? [= <-]; lia.
  - destruct (Z.ltb_spec (attemptedAt_date a) s'); split; try done.
    + intros [H1 _]. specialize (H1 _ eq_refl). lia.
    + intros _. split; [intros ? [= <-]; lia | done].
  - destruct (Z.ltb_spec t' (attemptedAt_date a)); split; try done.
    + intros [_ H2]. specialize (H2 _ eq_refl). lia.
    + intros _. split; [done | intros ? [= <-]; lia].
  - split; done.
Qed.

(** What a fulfilled call returns: the first [limitCount] (50 by default)
    of the list [all] of the attempts of the signed-in user that pass the
    filters, sorted newest first. *)
Lemma getAttemptsForUser_Returned options now e l :
  (getAttemptsForUser options now e).1 = Returned l →
  ∃ u all,
    currentUser (authManager e) = Some u ∧
    l = Js.slice0 all (default 50 (opt_limitCount options)) ∧
    StronglySorted newest_first_attempt all ∧
    ∀ a, a ∈ all ↔
         ∃ doc, doc ∈ attempts e ∧ a = view now doc ∧
                userId (doc_data doc) = uid u ∧ passes options a.
Proof.
  unfold getAttemptsForUser, isAuthenticated.
  destruct (currentUser (authManager e)) as [u|] eqn:Hu; simpl; [|done].
  unfold getDocs.
  destruct (reachable e); simpl; [|done].
  intros [= <-]. exists u. eexists. split; [done|]. split; [reflexivity|].
  split.
  { apply sort_sorted. done. }
  intros a. rewrite sort_elem_of.
  set (docs := List.filter _ (attempts e)).
  set (attempts0 := map _ docs).
  assert (H0 : ∀ a, a ∈ attempts0 ↔
            ∃ doc, doc ∈ attempts e ∧ a = view now doc ∧
                   userId (doc_data doc) = uid u).
  { intros a'. unfold attempts0, docs. rewrite list_elem_of_fmap.
    split.
    - intros (doc & -> & Hd). exists doc.
      apply elem_of_List_filter in Hd as [Hd Hv].
      apply has_value_userId in Hv. done.
    - intros (doc & Hd & -> & Hv). exists doc. split; [done|].
      apply elem_of_List_filter. split; [done|].
      by apply has_value_userId. }
  set (attempts1 := match opt_subject options with
                    | Some s => if Js.truthy s then _ else attempts0
                    | None => attempts0 end).
  assert (H1 : ∀ a, a ∈ attempts1 ↔
            a ∈ attempts0 ∧
            (∀ s, opt_subject options = Some s → s ≠ EmptyString →
                  subject (data a) = s)).
  { intros a'. unfold attempts1.
    destruct (opt_subject options) as [s|]; [|naive_solver].
    destruct s as [|c s]; simpl; [naive_solver|].
    rewrite elem_of_List_filter, String.eqb_eq. split.
    - intros [? ?]. split; [done|]. by intros ? [= <-] _.
    - intros [? Hs]. split; [done|]. by apply Hs. }
  assert (H2 : ∀ a,
            a ∈ match opt_startDate options, opt_endDate options with
                | None, None => attempts1
                | _, _ => List.filter
                            (in_range (opt_startDate options)
                               (opt_endDate options)) attempts1
                end ↔
            a ∈ attempts1 ∧
            (∀ s, opt_startDate options = Some s → s ≤ attemptedAt_date a) ∧
            (∀ t, opt_endDate options = Some t → attemptedAt_date a ≤ t)).
  { intros a'.
    assert (Hf : a' ∈ List.filter
                   (in_range (opt_startDate options) (opt_endDate options))
                   attempts1 ↔
                 a' ∈ attempts1 ∧
                 (∀ s, opt_startDate options = Some s →
                       s ≤ attemptedAt_date a') ∧
                 (∀ t, opt_endDate options = Some t →
                       attemptedAt_date a' ≤ t)).
    { rewrite elem_of_List_filter, in_range_spec. done. }
    destruct (opt_startDate options), (opt_endDate options);
      try exact Hf. naive_solver. }
  rewrite H2, H1, H0. unfold passes. naive_solver.
Qed.

(** C6.  Whatever the subject, the date range and the limit given to
    [getAttemptsForUser], a call that returns does so for a signed-in user,
    and every attempt of the returned list has the [uid] of that user as
    its [userId]: no attempt of another user is returned. *)
Theorem getAttemptsForUser_current_user_only options now e l :
  (getAttemptsForUser options now e).1 = Returned l →
  ∃ u, currentUser (authManager e) = Some u ∧
       ∀ a, a ∈ l → userId (data a) = uid u.
Proof.
  intros Hl.
  apply getAttemptsForUser_Returned in Hl as (u & all & Hu & -> & _ & Hall).
  exists u. split; [done|].
  intros a Ha. apply slice0_subseteq in Ha.
  apply Hall in Ha as (doc & _ & -> & Hd & _). done.
Qed.

Lemma getAttemptsForUser_current_user_only_witness :
  ∃ l, (getAttemptsForUser sample_options 5000 sample_env).1 = Returned l ∧
       length l = 1%nat ∧
       ∃ u, currentUser (authManager sample_env) = Some u ∧
            ∀ a, a ∈ l → userId (data a) = uid u.
Proof.
  eexists. split; [vm_compute; reflexivity|]. split; [reflexivity|].
  apply (getAttemptsForUser_current_user_only sample_options 5000 sample_env).
  vm_compute. reflexivity.
Defined.

(** C10.  When no limit is given, a call of [getAttemptsForUser] that
    returns yields the attempts sorted by [attemptedAt], newest first, and
    cut to the first 50 of the sorted list of all the attempts of the user
    that pass the filters: at most 50 attempts, without any error or notice
    when more exist. *)
Theorem getAttemptsForUser_default_limit options now e l :
  opt_limitCount options = None →
  (getAttemptsForUser options now e).1 = Returned l →
  StronglySorted newest_first_attempt l ∧
  (length l ≤ 50)%nat ∧
  ∃ u all,
    currentUser (authManager e) = Some u ∧
    l = take 50 all ∧
    StronglySorted newest_first_attempt all ∧
    (∀ a, a ∈ all ↔
          ∃ doc, doc ∈ attempts e ∧ a = view now doc ∧
                 userId (doc_data doc) = uid u ∧ passes options a) ∧
    (getAttemptsForUser options now e).2 = e.
Proof.
  intros Hlim Hl.
  pose proof Hl as Hl'.
  apply getAttemptsForUser_Returned in Hl as (u & all & Hu & -> & Hs & Hall).
  rewrite Hlim. simpl. rewrite slice0_nonneg by lia.
  change (Z.to_nat 50) with 50%nat.
  split; [by apply StronglySorted_take|].
  split; [rewrite length_take; lia|].
  exists u, all. repeat split; try done; try apply Hall.
  revert Hl'. unfold getAttemptsForUser, isAuthenticated. rewrite Hu. simpl.
  destruct (getDocs _ _ _ _); [done|]. by intros [=].
Qed.

Lemma getAttemptsForUser_default_limit_witness :
  ∃ l, (getAttemptsForUser no_options 5000 sample_env).1 = Returned l ∧
       map id l = ["a2"; "a1"]%string ∧
       StronglySorted newest_first_attempt l ∧ (length l ≤ 50)%nat.
Proof.
  eexists. split; [vm_compute; reflexivity|]. split; [reflexivity|].
  edestruct (getAttemptsForUser_default_limit no_options 5000 sample_env)
    as (Hs & Hlen & _); [reflexivity | vm_compute; reflexivity |].
  split; [exact Hs | exact Hlen].
Defined.

End AttemptsFacts.

(* ===================================================================== *)
(** * Properties of the passages repository *)
(* ===================================================================== *)

Module PassagesFacts.
Import Platform Firestore Passages PassagesMore JsFacts.

(** C7.  For a caller without the admin role, [createPassage],
    [updatePassage] and [deletePassage] are rejected with the error
    "Admin privileges required" and leave everything as it was: no call
    reaches the store, the stored passages are unchanged, and nothing is
    shown on the page. *)
Theorem admin_operations_refuse_non_admin e :
  isAdmin (authManager e) = false →
  (∀ passageData autoId serverTime,
     createPassage passageData autoId serverTime e
     = (Thrown "Admin privileges required", e)) ∧
  (∀ passageId updates serverTime,
     updatePassage passageId updates serverTime e
     = (Thrown "Admin privileges required", e)) ∧
  (∀ passageId,
     deletePassage passageId e = (Thrown "Admin privileges required", e)).
Proof.
  intros Hadmin. unfold createPassage, updatePassage, deletePassage.
  rewrite Hadmin. simpl. repeat split.
Qed.

Lemma admin_operations_refuse_non_admin_witness :
  isAdmin (authManager sample_env) = false ∧
  (createPassage sample_data "p3" 3000 sample_env).2 = sample_env ∧
  (updatePassage "p2" sample_updates 3000 sample_env).2 = sample_env ∧
  (deletePassage "p1" sample_env).2 = sample_env.
Proof.
  destruct (admin_operations_refuse_non_admin sample_env eq_refl)
    as (Hc & Hu & Hd).
  split; [reflexivity|].
  rewrite Hc, Hu, Hd. repeat split.
Defined.

Lemma apply_constraint_subseteq (docs : list (Document PassageDoc)) c :
  apply_constraint field_of docs c ⊆ docs.
Proof.
  destruct c as [field v|field direction|n]; simpl.
  - intros d Hd. by apply elem_of_List_filter in Hd as [Hd _].
  - intros d Hd.
    assert (Hs : d ∈ Js.sort (compare_on field_of field)
                   (List.filter (λ d, has_field field_of d field) docs)).
    { destruct (String.eqb direction "desc"); [|done].
      apply list_elem_of_In. apply list_elem_of_In in Hd.
      by apply in_rev in Hd. }
    apply sort_elem_of in Hs. by apply elem_of_List_filter in Hs as [Hs _].
  - apply subseteq_take.
Qed.

Lemma fold_constraints_subseteq cs (docs : list (Document PassageDoc)) :
  fold_left (apply_constraint field_of) cs docs ⊆ docs.
Proof.
  revert docs. induction cs as [|c cs IH]; intros docs; simpl; [done|].
  etrans; [apply IH | apply apply_constraint_subseteq].
Qed.

Lemma where_isPublished (docs : list (Document PassageDoc)) d :
  d ∈ apply_constraint field_of docs (Where "isPublished" (VBoolean true)) →
  isPublished (doc_data d) = true.
Proof.
  simpl. intros Hd. apply elem_of_List_filter in Hd as [_ Hv].
  unfold has_value, field_of in Hv. simpl in Hv.
  by destruct (isPublished (doc_data d)).
Qed.

Lemma fold_after_where_isPublished pre post
    (docs : list (Document PassageDoc)) d :
  d ∈ fold_left (apply_constraint field_of)
        (pre ++ Where "isPublished" (VBoolean true) :: post) docs →
  isPublished (doc_data d) = true.
Proof.
  rewrite fold_left_app. cbn [fold_left]. intros Hd.
  apply fold_constraints_subseteq in Hd.
  by apply where_isPublished in Hd.
Qed.

(** The filters on the subject and the difficulty and the ordering keep a
    stored passage that has the values asked for and the field of the
    ordering. *)
Lemma fold_subject_difficulty_order options field direction
    (docs : list (Document PassageDoc)) d :
  d ∈ docs →
  (∀ s, truthy_string (opt_subject options) = Some s →
        subject (doc_data d) = s) →
  (∀ s, truthy_string (opt_difficulty options) = Some s →
        difficulty (doc_data d) = s) →
  has_field field_of d field = true →
  d ∈ fold_left (apply_constraint field_of)
        (match truthy_string (opt_subject options) with
         | Some s => [Where "subject" (VString s)]
         | None => []
         end
         ++ match truthy_string (opt_difficulty options) with
            | Some s => [Where "difficulty" (VString s)]
            | None => []
            end
         ++ [] ++ [OrderBy field direction] ++ [])
        docs.
Proof.
  intros Hd Hsubject Hdifficulty Hfield.
  assert (Hwhere_subject : ∀ (l : list (Document PassageDoc)) s,
            d ∈ l → subject (doc_data d) = s →
            d ∈ apply_constraint field_of l (Where "subject" (VString s))).
  { intros l s Hl Hs. cbn [apply_constraint]. apply elem_of_List_filter.
    split; [done|]. unfold has_value, field_of. cbn. rewrite Hs.
    apply String.eqb_refl. }
  assert (Hwhere_difficulty : ∀ (l : list (Document PassageDoc)) s,
            d ∈ l → difficulty (doc_data d) = s →
            d ∈ apply_constraint field_of l (Where "difficulty" (VString s))).
  { intros l s Hl Hs. cbn [apply_constraint]. apply elem_of_List_filter.
    split; [done|]. unfold has_value, field_of. cbn. rewrite Hs.
    apply String.eqb_refl. }
  assert (Horder : ∀ l : list (Document PassageDoc),
            d ∈ l → d ∈ apply_constraint field_of l (OrderBy field direction)).
  { intros l Hl. cbn [apply_constraint].
    assert (Hs : d ∈ Js.sort (compare_on field_of field)
                   (List.filter (λ d, has_field field_of d field) l)).
    { apply sort_elem_of, elem_of_List_filter. by split. }
    destruct (String.eqb direction "desc"); [|done].
    apply list_elem_of_In. rewrite <- in_rev. by apply list_elem_of_In. }
  destruct (truthy_string (opt_subject options)) as [s|];
    destruct (truthy_string (opt_difficulty options)) as [s'|];
    cbn [app fold_left]; apply Horder; auto.
Qed.

(** C8.  A caller of [getPassages] who leaves [publishedOnly] out gets what
    the call with [publishedOnly] given as [true] gets when the caller is
    not an admin, and what the call with [false] gets when the caller is an
    admin.  Whenever [publishedOnly] is [true], given by the caller or by
    this default, every passage of a returned result is a stored passage
    with [isPublished = true].  When it is [false], given or by default,
    the passages are not filtered on [isPublished]: without a limit, every
    stored passage that has the subject and the difficulty asked for, and
    the field of the ordering, is in the result, published or not. *)
Theorem getPassages_publishedOnly options e :
  (opt_publishedOnly options = None →
   getPassages options e
   = getPassages
       (with_publishedOnly options (negb (isAdmin (authManager e)))) e) ∧
  (∀ l, opt_publishedOnly options = Some true
        ∨ (opt_publishedOnly options = None
           ∧ isAdmin (authManager e) = false) →
        (getPassages options e).1 = Returned l →
        ∀ d, d ∈ l → d ∈ passages e ∧ isPublished (doc_data d) = true) ∧
  (∀ l, opt_publishedOnly options = Some false
        ∨ (opt_publishedOnly options = None
           ∧ isAdmin (authManager e) = true) →
        opt_limitCount options = None →
        (getPassages options e).1 = Returned l →
        ∀ d, d ∈ passages e →
             (∀ s, truthy_string (opt_subject options) = Some s →
                   subject (doc_data d) = s) →
             (∀ s, truthy_string (opt_difficulty options) = Some s →
                   difficulty (doc_data d) = s) →
             has_field field_of d
               (default "createdAt"%string (opt_orderByField options)) = true →
             d ∈ l).
Proof.
  split; [|split].
  - intros Hnone. unfold getPassages, constraints_of, publishedOnly.
    cbn [with_publishedOnly opt_subject opt_difficulty opt_publishedOnly
         opt_limitCount opt_orderByField opt_orderDirection].
    by rewrite Hnone.
  - intros l Hgiven.
    assert (Hpub : publishedOnly options (authManager e) = true).
    { unfold publishedOnly.
      destruct Hgiven as [-> | [-> ->]]; reflexivity. }
    unfold getPassages, getDocs.
    destruct (forallb acceptable _) eqn:Hacc; [|done].
    cbn [io reachable passages]. rewrite ?Hacc, ?andb_true_r.
    destruct (reachable e); cbn [fst]; [|done].
    intros [= <-] d Hd. split.
    + by apply fold_constraints_subseteq in Hd.
    + revert Hd. unfold constraints_of. rewrite Hpub, app_assoc.
      apply fold_after_where_isPublished.
  - intros l Hgiven Hlimit.
    assert (Hpub : publishedOnly options (authManager e) = false).
    { unfold publishedOnly.
      destruct Hgiven as [-> | [-> ->]]; reflexivity. }
    unfold getPassages, getDocs.
    destruct (forallb acceptable _) eqn:Hacc; [|done].
    cbn [io reachable passages]. rewrite ?Hacc, ?andb_true_r.
    destruct (reachable e); cbn [fst]; [|done].
    intros [= <-] d Hd Hsubject Hdifficulty Hfield.
    unfold constraints_of. rewrite Hpub, Hlimit.
    by apply fold_subject_difficulty_order.
Qed.

Lemma getPassages_publishedOnly_witness :
  (∃ l, (getPassages no_options sample_env).1 = Returned l ∧
        map doc_id l = ["p1"%string] ∧
        ∀ d, d ∈ l → isPublished (doc_data d) = true) ∧
  (∃ l, (getPassages no_options admin_env).1 = Returned l ∧
        map doc_id l = ["p2"; "p1"]%string ∧
        mkDocument "p2"%string (sample_doc "Genes" false 2000) ∈ l).
Proof.
  destruct (getPassages_publishedOnly no_options sample_env)
    as (_ & Hstudent & _).
  destruct (getPassages_publishedOnly no_options admin_env)
    as (_ & _ & Hadmin).
  split.
  - eexists. split; [vm_compute; reflexivity|]. split; [reflexivity|].
    intros d Hd.
    apply (Hstudent [mkDocument "p1"%string (sample_doc "Cells" true 1000)]);
      [right; split; reflexivity | reflexivity | exact Hd].
  - eexists. split; [vm_compute; reflexivity|]. split; [reflexivity|].
    apply (Hadmin [mkDocument "p2"%string (sample_doc "Genes" false 2000);
                   mkDocument "p1"%string (sample_doc "Cells" true 1000)]);
      [right; split; reflexivity | reflexivity | reflexivity | | | | ].
    + apply list_elem_of_further, list_elem_of_here.
    + intros s Hs. discriminate Hs.
    + intros s Hs. discriminate Hs.
    + reflexivity.
Defined.

End PassagesFacts.

(* ===================================================================== *)
(** * Properties of the quiz page: countdown and submission *)
(* ===================================================================== *)

Module QuizFacts.
Import JsNumber QuizData Quiz QuizMore.

Lemma elapsed_seconds_mono now1 now2 startTime :
  now1 ≤ now2 → elapsed_seconds now1 startTime ≤ elapsed_seconds now2 startTime.
Proof. intros H. unfold elapsed_seconds. apply Z.div_le_mono; lia. Qed.



Lemma remainingSeconds_zero w now :
  remainingSeconds w now = 0 ↔ timeLimit w ≤ elapsed_seconds now (startTime w).
Proof. unfold remainingSeconds. lia. Qed.

(** The display after a tick shows [remainingSeconds]. *)
Lemma timer_callback_display now now' w :
  time_remaining (timer_callback now now' w) = remainingSeconds w now.
Proof.
  unfold timer_callback, remainingSeconds.
  destruct (_ =? 0); [|done].
  unfold submitQuiz, clearInterval.
  destruct (timerInterval _); simpl; destruct (currentPassage w); done.
Qed.


(** The tick at zero submits the quiz. *)
Lemma timer_callback_expired now now' w :
  remainingSeconds w now = 0 →
  timer_callback now now' w = submitQuiz true false now' (updateTimerDisplay 0 w).
Proof.
  unfold timer_callback, remainingSeconds. intros ->. done.
Qed.

(** A submission that goes through: automatic, confirmed, or with every
    question answered. *)
Lemma submitQuiz_through autoSubmit confirmSubmit now w p :
  currentPassage w = Some p →
  autoSubmit = true ∨ confirmSubmit = true
  ∨ (length (questions p) ≤ size (userAnswers w))%nat →
  submitQuiz autoSubmit confirmSubmit now w =
  showResults p (calculateScore p (userAnswers w) (startTime w) now)
    autoSubmit (clearInterval (timerInterval w) w).
Proof.
  intros Hp Hthrough. unfold submitQuiz.
  assert (Hp1 : currentPassage (clearInterval (timerInterval w) w) = Some p).
  { unfold clearInterval. by destruct (timerInterval w). }
  rewrite Hp1.
  assert (Hua : userAnswers (clearInterval (timerInterval w) w) = userAnswers w).
  { unfold clearInterval. by destruct (timerInterval w). }
  assert (Hst : startTime (clearInterval (timerInterval w) w) = startTime w).
  { unfold clearInterval. by destruct (timerInterval w). }
  rewrite Hua, Hst.
  destruct Hthrough as [-> | [-> | Hall]]; simpl; try done.
  - by rewrite andb_false_r.
  - destruct (Nat.ltb_spec (size (userAnswers w)) (length (questions p)));
      [lia|]. by rewrite andb_false_r.
Qed.

Lemma clearInterval_frame handle w :
  currentPassage (clearInterval handle w) = currentPassage w ∧
  userAnswers (clearInterval handle w) = userAnswers w ∧
  startTime (clearInterval handle w) = startTime w ∧
  timeLimit (clearInterval handle w) = timeLimit w ∧
  results_populated (clearInterval handle w) = results_populated w ∧
  results_modal_shown (clearInterval handle w) = results_modal_shown w ∧
  recorded (clearInterval handle w) = recorded w ∧
  auth_currentUser (clearInterval handle w) = auth_currentUser w.
Proof. destruct handle; repeat split. Qed.


Lemma startTimer_frame w :
  currentPassage (startTimer w) = currentPassage w ∧
  userAnswers (startTimer w) = userAnswers w ∧
  startTime (startTimer w) = startTime w ∧
  timeLimit (startTimer w) = timeLimit w ∧
  results_populated (startTimer w) = results_populated w ∧
  results_modal_shown (startTimer w) = results_modal_shown w ∧
  recorded (startTimer w) = recorded w ∧
  timerInterval (startTimer w) = Some (next_handle w) ∧
  intervals (startTimer w) = {[ next_handle w ]} ∪ intervals w.
Proof. repeat split. Qed.


(** Sessions are active from [loadQuiz] on a fresh page, stay active while
    answers are selected, and are active again after [retakeQuiz] on a
    finished session. *)
Lemma loadQuiz_Active stored passageId now user p :
  List.find (λ p, String.eqb (id p) passageId) stored = Some p →
  Active (loadQuiz stored passageId now (initial user)).
Proof.
  intros Hfind. unfold loadQuiz. rewrite Hfind.
  split; [by eexists|]. eexists. split; [reflexivity|].
  cbn. set_solver.
Qed.

Lemma selectAnswer_Active questionIndex answerIndex w :
  Active w → Active (selectAnswer questionIndex answerIndex w).
Proof. intros [Hp Hlive]. split; [exact Hp | exact Hlive]. Qed.

Lemma retakeQuiz_Active now w : Finished w → Active (retakeQuiz now w).
Proof.
  intros (Hp & _ & Hlive). split; [exact Hp|].
  eexists. split; [reflexivity|]. cbn. rewrite Hlive. set_solver.
Qed.





(** C9.  A manual submission with fewer answers than questions that the
    user declines leaves the session as it was: the passage, the answers,
    [startTime] and the time limit keep their values, nothing is recorded
    and the results are not touched; a new interval is live and held in
    [timerInterval], and the countdown it drives is measured from the
    original [startTime], so that the time spent in the dialog counts. *)
Theorem submitQuiz_declined w p now :
  currentPassage w = Some p →
  (size (userAnswers w) < length (questions p))%nat →
  let w' := submitQuiz false false now w in
  currentPassage w' = currentPassage w ∧
  userAnswers w' = userAnswers w ∧
  startTime w' = startTime w ∧
  timeLimit w' = timeLimit w ∧
  recorded w' = recorded w ∧
  results_populated w' = results_populated w ∧
  results_modal_shown w' = results_modal_shown w ∧
  (∃ handle, timerInterval w' = Some handle ∧ handle ∈ intervals w') ∧
  (Active w → Active w') ∧
  ∀ handle later later',
    timerInterval w' = Some handle →
    remainingSeconds w' later = remainingSeconds w later ∧
    time_remaining (fire handle later later' w') = remainingSeconds w later.
Proof.
  intros Hp Hlt w'.
  assert (Hw' : w' = startTimer (clearInterval (timerInterval w) w)).
  { unfold w', submitQuiz.
    destruct (clearInterval_frame (timerInterval w) w)
      as (Hp1 & Hua & _).
    rewrite Hp1, Hp, Hua. simpl.
    destruct (Nat.ltb_spec (size (userAnswers w)) (length (questions p)));
      [done | lia]. }
  destruct (clearInterval_frame (timerInterval w) w)
    as (Hp1 & Hua & Hst & Htl & Hrp & Hms & Hrec & _).
  destruct (startTimer_frame (clearInterval (timerInterval w) w))
    as (Hp2 & Hua2 & Hst2 & Htl2 & Hrp2 & Hms2 & Hrec2 & Hti2 & Hlive2).
  rewrite Hw'.
  split; [congruence|]. split; [congruence|]. split; [congruence|].
  split; [congruence|]. split; [congruence|]. split; [congruence|].
  split; [congruence|].
  split; [|split].
  - eexists. split; [exact Hti2|]. rewrite Hlive2. set_solver.
  - intros (_ & h & Hti & Hlive). split; [by rewrite Hp2, Hp1, Hp |].
    eexists. split; [exact Hti2|].
    rewrite Hlive2, Hti. cbn. rewrite Hlive. set_solver.
  - intros handle later later' Hhandle.
    assert (Hrem : ∀ t, remainingSeconds
                          (startTimer (clearInterval (timerInterval w) w)) t
                        = remainingSeconds w t).
    { intros t. unfold remainingSeconds. by rewrite Hst2, Htl2, Hst, Htl. }
    split; [apply Hrem|].
    unfold fire. rewrite Hlive2.
    rewrite Hti2 in Hhandle. injection Hhandle as <-.
    destruct (decide _) as [_|Hn]; [|set_solver].
    rewrite timer_callback_display. apply Hrem.
Qed.

Lemma submitQuiz_declined_witness :
  currentPassage sample_partial = Some sample_passage ∧
  startTime (submitQuiz false false 30000 sample_partial) = 0 ∧
  recorded (submitQuiz false false 30000 sample_partial) = [] ∧
  userAnswers (submitQuiz false false 30000 sample_partial)
  = userAnswers sample_partial.
Proof.
  assert (Hlt : (size (userAnswers sample_partial)
                 < length (questions sample_passage))%nat).
  { vm_compute. lia. }
  destruct (submitQuiz_declined sample_partial sample_passage 30000
              eq_refl Hlt) as (_ & Hua & Hst & _ & Hrec & _).
  split; [reflexivity|].
  split; [exact Hst|]. split; [exact Hrec | exact Hua].
Defined.

(** C5 (as the code has it).  On an automatic submission by a signed-in
    user, one attempt is recorded, and its [timeElapsed] is
    [floor ((now' - startTime) / 1000)] for the clock [now'] read when the
    score is computed; it is not capped: as the clock does not go back
    between the tick and the scoring, it is at least the time limit in
    seconds. *)
Theorem auto_submission_time w p u handle now now' :
  currentPassage w = Some p → auth_currentUser w = Some u →
  handle ∈ intervals w → remainingSeconds w now = 0 → now ≤ now' →
  ∃ attempt,
    recorded (fire handle now now' w) = attempt :: recorded w ∧
    ra_passageId attempt = id p ∧
    ra_timeElapsed attempt = (now' - startTime w) / 1000 ∧
    timeLimit w ≤ ra_timeElapsed attempt.
Proof.
  intros Hp Hu Hin Hzero Hle.
  unfold fire. destruct (decide (handle ∈ intervals w)); [|done].
  rewrite timer_callback_expired by done.
  rewrite (submitQuiz_through _ _ _ _ p) by (done || by left).
  destruct (clearInterval_frame (timerInterval (updateTimerDisplay 0 w))
              (updateTimerDisplay 0 w))
    as (_ & _ & _ & _ & _ & _ & Hrec & Hau).
  unfold showResults. cbn [recorded with_page].
  rewrite Hau, Hrec. cbn [auth_currentUser updateTimerDisplay with_page recorded].
  rewrite Hu. eexists. split; [reflexivity|].
  cbn. unfold calculateScore.
  destruct (score_loop _ _ _ _) as [c b]. cbn.
  repeat split.
  apply remainingSeconds_zero in Hzero.
  pose proof (elapsed_seconds_mono now now' (startTime w) Hle).
  unfold elapsed_seconds in *. lia.
Qed.

Lemma auto_submission_time_witness :
  remainingSeconds sample_loaded 61500 = 0 ∧
  ∃ attempt,
    recorded (fire 1 61500 61500 sample_loaded) = [attempt] ∧
    timeLimit sample_loaded ≤ ra_timeElapsed attempt.
Proof.
  assert (Hin : 1%nat ∈ intervals sample_loaded).
  { apply elem_of_union_l, elem_of_singleton. reflexivity. }
  assert (Hle : 61500 ≤ 61500) by lia.
  destruct (auto_submission_time sample_loaded sample_passage "alice" 1
              61500 61500 eq_refl eq_refl Hin eq_refl Hle)
    as (attempt & Hrec & _ & _ & Hcap).
  split; [reflexivity|].
  exists attempt. split; [exact Hrec | exact Hcap].
Defined.

(** C5 as stated fails: with a time limit of 60 seconds and the tick that
    ends the quiz running 61.5 seconds after the start, the recorded time is
    61 seconds, above the limit. *)
Lemma auto_submission_time_exceeds_limit :
  timeLimit sample_loaded = 60 ∧
  remainingSeconds sample_loaded 61500 = 0 ∧
  map ra_timeElapsed (recorded (fire 1 61500 61500 sample_loaded)) = [61] ∧
  ¬ (∀ a, a ∈ recorded (fire 1 61500 61500 sample_loaded) →
          ra_timeElapsed a ≤ timeLimit sample_loaded).
Proof.
  split; [reflexivity|]. split; [reflexivity|].
  assert (Hrec : map ra_timeElapsed
                   (recorded (fire 1 61500 61500 sample_loaded)) = [61]).
  { vm_compute. reflexivity. }
  split; [exact Hrec|].
  intros Hcap.
  destruct (recorded (fire 1 61500 61500 sample_loaded)) as [|a l] eqn:Hr;
    [discriminate|].
  injection Hrec as Ha _.
  specialize (Hcap a ltac:(left)). rewrite Ha in Hcap.
  change (timeLimit sample_loaded) with 60 in Hcap. lia.
Qed.

(** C2 (as the code has it).  [submitQuiz] has no guard on the state of the
    session.  Called again on a finished session by a signed-in user, and
    going through (automatic, confirmed, or with every question answered),
    it computes the results again from the current answers, shows them
    again and records one more attempt; the session is finished again.  The
    count of correct answers and the percentage do not depend on the clock:
    they are those of the first submission as long as the answers are the
    same. *)
Theorem submitQuiz_again w p u autoSubmit confirmSubmit now :
  Finished w → currentPassage w = Some p → auth_currentUser w = Some u →
  autoSubmit = true ∨ confirmSubmit = true
  ∨ (length (questions p) ≤ size (userAnswers w))%nat →
  let w' := submitQuiz autoSubmit confirmSubmit now w in
  let results := calculateScore p (userAnswers w) (startTime w) now in
  recorded w' =
    {| ra_passageId := id p; ra_score := correct results;
       ra_timeElapsed := timeElapsed results;
       ra_totalQuestions := total results |} :: recorded w ∧
  results_populated w' = (results, autoSubmit) :: results_populated w ∧
  Finished w' ∧
  ∀ startTime' now',
    correct (calculateScore p (userAnswers w) startTime' now') = correct results ∧
    percentage (calculateScore p (userAnswers w) startTime' now')
    = percentage results.
Proof.
  intros (_ & Hshown & Hlive) Hp Hu Hthrough w' results.
  unfold w'. rewrite (submitQuiz_through _ _ _ _ p) by done.
  destruct (clearInterval_frame (timerInterval w) w)
    as (Hp1 & _ & _ & _ & Hrp & _ & Hrec & Hau).
  fold results.
  unfold showResults. cbn [recorded results_populated with_page].
  rewrite Hau, Hu, Hrec, Hrp.
  repeat split; try done.
  - cbn. by rewrite Hp1, Hp.
  - cbn. unfold clearInterval.
    destruct (timerInterval w); cbn; rewrite Hlive; set_solver.
  - unfold results, calculateScore. by destruct (score_loop _ _ _ _).
  - unfold results, calculateScore. by destruct (score_loop _ _ _ _).
Qed.

Lemma submitQuiz_again_witness :
  Finished (submitQuiz false false 5000 sample_answered) ∧
  length (recorded (submitQuiz false false 5000 sample_answered)) = 1%nat ∧
  length (recorded (submitQuiz false false 9000
                      (submitQuiz false false 5000 sample_answered))) = 2%nat.
Proof.
  assert (Hfin : Finished (submitQuiz false false 5000 sample_answered)).
  { split; [by eexists|]. split; [reflexivity|].
    apply leibniz_equiv. set_solver. }
  assert (Hall : false = true ∨ false = true
                 ∨ (length (questions sample_passage)
                    ≤ size (userAnswers
                              (submitQuiz false false 5000 sample_answered)))%nat).
  { right. right. vm_compute. lia. }
  destruct (submitQuiz_again (submitQuiz false false 5000 sample_answered)
              sample_passage "alice" false false 9000 Hfin eq_refl eq_refl Hall)
    as (Hrec & _).
  split; [exact Hfin|]. split; [reflexivity|].
  rewrite Hrec. reflexivity.
Defined.

(** C2 as stated fails: a second submission on a finished session records a
    second attempt. *)
Lemma submitQuiz_twice_records_twice :
  Finished (submitQuiz false false 5000 sample_answered) ∧
  recorded (submitQuiz false false 9000
              (submitQuiz false false 5000 sample_answered))
  ≠ recorded (submitQuiz false false 5000 sample_answered) ∧
  map ra_timeElapsed
    (recorded (submitQuiz false false 9000
                 (submitQuiz false false 5000 sample_answered))) = [9; 5].
Proof.
  split.
  { split; [by eexists|]. split; [reflexivity|].
    apply leibniz_equiv. set_solver. }
  split; [|vm_compute; reflexivity].
  intros Heq. apply (f_equal length) in Heq. vm_compute in Heq. discriminate.
Qed.

(** For the same reason a manual submission that is declined on a finished
    session starts the countdown again: here the quiz was submitted
    automatically at the end of the minute with one answer out of three; the
    declined submission makes the session active again, and the next tick
    submits it automatically a second time. *)
Lemma declined_submit_restarts_finished_session :
  Finished (fire 1 60000 60000 sample_partial) ∧
  Active (submitQuiz false false 70000 (fire 1 60000 60000 sample_partial)) ∧
  auto_submissions
    (fire 2 71000 71000
       (submitQuiz false false 70000 (fire 1 60000 60000 sample_partial)))
  = 2%nat ∧
  map ra_timeElapsed
    (recorded
       (fire 2 71000 71000
          (submitQuiz false false 70000 (fire 1 60000 60000 sample_partial))))
  = [71; 60].
Proof.
  split; [|split; [|split]].
  - split; [by eexists|]. split; [reflexivity|].
    apply leibniz_equiv. set_solver.
  - split; [by eexists|]. exists 2%nat. split; [reflexivity|].
    apply leibniz_equiv. set_solver.
  - vm_compute. reflexivity.
  - vm_compute. reflexivity.
Qed.

End QuizFacts.

(* ===================================================================== *)
(** * Properties of the parser of pasted questions *)
(* ===================================================================== *)

Module BulkParseFacts.
Import Js BulkParse JsFacts.

(** An option line starts with a letter from [A] to [D]: it is never a
    question line. *)
Lemma option_line_not_question line :
  is_option_line line = true → is_question_line line = false.
Proof.
  destruct line as [|c [|d line]]; try discriminate.
  unfold is_option_line, is_question_line, startsWith.
  cbn [toLowerCase String.prefix].
  intros H. apply andb_true_iff in H as [Hc _].
  destruct c as [[] [] [] [] [] [] [] []]; try discriminate Hc; reflexivity.
Qed.

(** The loop over the option lines that follow a question line. *)
Lemma fold_option_lines optlines qs c :
  Forall (λ l, is_option_line l = true) optlines →
  fold_left parse_line optlines (qs, Some c) =
  (qs, Some {| text := text c;
               options := options c ++ map option_text optlines;
               correctIndex :=
                 last_marked optlines (length (options c)) (correctIndex c) |}).
Proof.
  intros Hopt. revert c.
  induction Hopt as [|line rest Hline _ IH]; intros c.
  - destruct c. cbn. by rewrite app_nil_r.
  - cbn [fold_left]. unfold parse_line at 2.
    rewrite (option_line_not_question _ Hline), Hline.
    rewrite IH. cbn [text options correctIndex map last_marked].
    rewrite <- app_assoc. cbn [app].
    rewrite length_app. cbn [length].
    replace (length (options c) + 1)%nat with (S (length (options c))) by lia.
    replace (Z.of_nat (S (length (options c))) - 1)
      with (Z.of_nat (length (options c))) by lia.
    done.
Qed.

(** A block made of a question line and option lines yields one question. *)
Lemma collect_one_question qline optlines :
  is_question_line qline = true →
  Forall (λ l, is_option_line l = true) optlines →
  collect (qline :: optlines) =
  [ {| text := trim (substring 9 qline);
       options := map option_text optlines;
       correctIndex := last_marked optlines 0 (-1) |} ].
Proof.
  intros Hq Hopt. unfold collect. cbn [fold_left].
  unfold parse_line at 2. rewrite Hq.
  by rewrite fold_option_lines.
Qed.

(** [last_marked] is the index of the last marked line, if there is one. *)
Lemma last_marked_spec lines index found :
  (last_marked lines index found = found ∧ marked_lines lines = []) ∨
  (∃ k line,
     last_marked lines index found = Z.of_nat (index + k) ∧
     lines !! k = Some line ∧ includes "*"%char line = true ∧
     marked_lines (drop (S k) lines) = []).
Proof.
  revert index found. induction lines as [|line rest IH]; intros index found.
  - left. done.
  - cbn [last_marked marked_lines List.filter].
    destruct (IH (S index)
                (if includes "*"%char line then Z.of_nat index else found))
      as [[Heq Hnone]|(k & l & Heq & Hk & Hl & Hlater)].
    + destruct (includes "*"%char line) eqn:Hline.
      * right. exists 0%nat, line. cbn. rewrite Nat.add_0_r.
        split; [done|]. split; [done|]. split; [done|].
        by rewrite drop_0.
      * left. split; [done|]. exact Hnone.
    + right. exists (S k), l.
      split; [rewrite Heq; f_equal; lia|]. done.
Qed.

Lemma last_marked_nonneg lines :
  0 ≤ last_marked lines 0 (-1) ↔ marked_lines lines ≠ [].
Proof.
  destruct (last_marked_spec lines 0 (-1))
    as [[Heq Hnone]|(k & l & Heq & Hk & Hl & _)].
  - rewrite Heq, Hnone. split; [lia | done].
  - rewrite Heq. split; [|lia]. intros _ Hnone.
    assert (Hin : l ∈ marked_lines lines).
    { apply elem_of_List_filter. split; [|done].
      by eapply list_elem_of_lookup_2. }
    rewrite Hnone in Hin. by apply elem_of_nil in Hin.
Qed.

Lemma parse_line_in_range st line :
  state_in_range st → state_in_range (parse_line st line).
Proof.
  destruct st as [qs cur]. intros [Hqs Hcur]. unfold parse_line.
  destruct (is_question_line line).
  - split; cbn.
    + destruct cur as [c|]; [|done].
      apply Forall_app. split; [done|]. constructor; [by apply Hcur | done].
    + intros c [= <-]. unfold index_in_range. cbn. lia.
  - destruct cur as [c|]; [|by split].
    destruct (is_option_line line); [|by split].
    split; [done|]. cbn. intros c' [= <-].
    specialize (Hcur c eq_refl). unfold index_in_range in *. cbn.
    rewrite length_app. cbn.
    destruct (includes "*"%char line); lia.
Qed.

Lemma collect_in_range lines : Forall index_in_range (collect lines).
Proof.
  unfold collect.
  assert (H : state_in_range (fold_left parse_line lines ([], None))).
  { assert (H0 : state_in_range ([], None)) by (split; [constructor | done]).
    revert H0. generalize (([], None) : ParseState).
    induction lines as [|line lines IH]; intros st Hst; [done|].
    cbn. apply IH. by apply parse_line_in_range. }
  destruct (fold_left parse_line lines ([], None)) as [qs [c|]];
    destruct H as [Hqs Hcur]; [|done].
  apply Forall_app. split; [done|]. constructor; [by apply Hcur | done].
Qed.

Lemma valid_spec Q :
  valid Q = true ↔
  text Q ≠ EmptyString ∧ length (options Q) = 4%nat ∧ 0 ≤ correctIndex Q.
Proof.
  unfold valid. rewrite !andb_true_iff, Nat.eqb_eq, Z.leb_le.
  destruct (text Q); cbn; split; intros [[? ?] ?] || intros [? [? ?]]; done.
Qed.

(** C4 (as the code has it).  [parseQuestionText] returns, in order and
    unchanged, the collected questions that pass its validation, and drops
    the others whole.  An accepted question has a non-empty prompt, exactly
    four options and a [correctIndex] from 0 to 3.  For a block made of a
    question line followed by option lines, the question is accepted exactly
    when the prompt is non-empty, there are four option lines and at least
    one of them carries the marker, and its [correctIndex] is then the
    position of the last marked line.  The well-formed block of two
    questions yields its two questions with the indices of the marked
    options, and the question with three options is dropped, the result
    being the empty list. *)
Theorem parseQuestionText_accepts :
  (∀ input Q,
     Q ∈ parseQuestionText input ↔
     Q ∈ collect (lines_of input) ∧ valid Q = true) ∧
  (∀ input Q,
     Q ∈ parseQuestionText input →
     text Q ≠ EmptyString ∧ length (options Q) = 4%nat ∧
     0 ≤ correctIndex Q ≤ 3) ∧
  (∀ qline optlines,
     is_question_line qline = true →
     Forall (λ l, is_option_line l = true) optlines →
     ∃ Q, collect (qline :: optlines) = [Q] ∧
          text Q = trim (substring 9 qline) ∧
          options Q = map option_text optlines ∧
          (valid Q = true ↔
           text Q ≠ EmptyString ∧ length optlines = 4%nat ∧
           marked_lines optlines ≠ []) ∧
          (marked_lines optlines ≠ [] →
           ∃ k line, correctIndex Q = Z.of_nat k ∧
                     optlines !! k = Some line ∧
                     includes "*"%char line = true ∧
                     marked_lines (drop (S k) optlines) = [])) ∧
  parseQuestionText two_questions =
    [ {| text := "What is 2+2?"; options := ["3"; "4"; "5"; "6"]%string;
         correctIndex := 1 |};
      {| text := "Capital of France?";
         options := ["Paris"; "Rome"; "Bonn"; "Oslo"]%string;
         correctIndex := 0 |} ] ∧
  parseQuestionText three_options = [].
Proof.
  split; [|split; [|split; [|split]]].
  - intros input Q. unfold parseQuestionText. apply elem_of_List_filter.
  - intros input Q HQ. unfold parseQuestionText in HQ.
    apply elem_of_List_filter in HQ as [Hin Hvalid].
    apply valid_spec in Hvalid as (Ht & Hlen & Hidx).
    pose proof (collect_in_range (lines_of input)) as Hrange.
    rewrite Forall_forall in Hrange. specialize (Hrange Q Hin).
    unfold index_in_range in Hrange. rewrite Hlen in Hrange.
    repeat split; try done; lia.
  - intros qline optlines Hq Hopt. eexists.
    split; [by apply collect_one_question|]. cbn [text options correctIndex].
    split; [done|]. split; [done|]. split.
    + rewrite valid_spec. cbn [text options correctIndex].
      rewrite length_map, last_marked_nonneg. done.
    + intros Hmarked.
      destruct (last_marked_spec optlines 0 (-1))
        as [[_ Hnone]|(k & l & Heq & Hk & Hl & Hlater)]; [done|].
      exists k, l. done.
  - vm_compute. reflexivity.
  - vm_compute. reflexivity.
Qed.

Lemma parseQuestionText_accepts_witness :
  ∃ Q, Q ∈ parseQuestionText two_questions ∧
       text Q ≠ EmptyString ∧ length (options Q) = 4%nat ∧
       0 ≤ correctIndex Q ≤ 3.
Proof.
  destruct parseQuestionText_accepts as (_ & Hacc & _ & Htwo & _).
  eexists. split; [rewrite Htwo; left|].
  apply (Hacc two_questions). rewrite Htwo. left.
Defined.

(** C4 as stated fails: a question with two marked options is accepted, the
    last marked option being taken as the correct one. *)
Lemma two_marked_options_accepted :
  marked_lines (List.filter is_option_line (lines_of two_marked))
  = ["A) *a"; "B) *b"]%string ∧
  parseQuestionText two_marked =
    [ {| text := "Q"; options := ["a"; "b"; "c"; "d"]%string;
         correctIndex := 1 |} ].
Proof. split; vm_compute; reflexivity. Qed.

(** The validation does not look at the text of the options: an empty
    option is accepted. *)
Lemma empty_option_accepted :
  parseQuestionText empty_option =
    [ {| text := "Q"; options := [""; "b"; "c"; "d"]%string;
         correctIndex := 3 |} ].
Proof. vm_compute. reflexivity. Qed.

End BulkParseFacts.

(* ===================================================================== *)
(** * Properties of Numbers: an upper bound kept by rounding *)
(* ===================================================================== *)

Module JsNumberFacts.
Import JsNumber.

(** The exponent of the format for a magnitude [e]: 53 bits of precision,
    no exponent below [emin = -1074]. *)
Lemma fexp_eq e : fexp prec emax e = Z.max (e - 53) (-1074).
Proof. reflexivity. Qed.

(** The number of binary digits of a positive integer. *)
Lemma digits2_pos_bounds p :
  2 ^ (Zpos (digits2_pos p) - 1) <= Zpos p < 2 ^ Zpos (digits2_pos p).
Proof.
  induction p as [p IH|p IH|]; cbn [digits2_pos].
  - rewrite Pos2Z.inj_succ.
    replace (Z.succ (Zpos (digits2_pos p)) - 1) with (Z.succ (Zpos (digits2_pos p) - 1)) by lia.
    rewrite !Z.pow_succ_r by lia. lia.
  - rewrite Pos2Z.inj_succ.
    replace (Z.succ (Zpos (digits2_pos p)) - 1) with (Z.succ (Zpos (digits2_pos p) - 1)) by lia.
    rewrite !Z.pow_succ_r by lia. lia.
  - cbn. lia.
Qed.

Lemma Zdigits2_bounds m :
  0 < m -> 2 ^ (Zdigits2 m - 1) <= m < 2 ^ Zdigits2 m.
Proof.
  destruct m as [|p|p]; try lia. intros _. apply digits2_pos_bounds.
Qed.

Lemma Zdigits2_nonneg m : 0 <= Zdigits2 m.
Proof. destruct m; cbn; lia. Qed.

(** The digits are determined by the binade. *)
Lemma Zdigits2_unique m d :
  2 ^ (d - 1) <= m < 2 ^ d -> 0 < d -> Zdigits2 m = d.
Proof.
  intros [Hlo Hhi] Hd.
  assert (Hm : 0 < m). { pose proof (Z.pow_pos_nonneg 2 (d - 1)). lia. }
  destruct (Zdigits2_bounds m Hm) as [Hlo' Hhi'].
  pose proof (Zdigits2_nonneg m).
  destruct (Z.lt_trichotomy (Zdigits2 m) d) as [Hlt|[Heq|Hgt]]; [|exact Heq|].
  - exfalso. assert (2 ^ Zdigits2 m <= 2 ^ (d - 1)) by (apply Z.pow_le_mono_r; lia). lia.
  - exfalso. assert (2 ^ d <= 2 ^ (Zdigits2 m - 1)) by (apply Z.pow_le_mono_r; lia). lia.
Qed.

(** The iterator of the shifts, as an iteration over [nat]. *)
Lemma iter_pos_nat {A} (f : A -> A) p x :
  SpecFloat.iter_pos f p x = Nat.iter (Pos.to_nat p) f x.
Proof.
  revert x. induction p as [p IH|p IH|]; intros x; cbn [SpecFloat.iter_pos].
  - rewrite !IH. rewrite Pos2Nat.inj_xI.
    replace (S (2 * Pos.to_nat p))%nat with (Pos.to_nat p + (Pos.to_nat p + 1))%nat by lia.
    rewrite !Nat.iter_add. cbn. reflexivity.
  - rewrite !IH. rewrite Pos2Nat.inj_xO.
    replace (2 * Pos.to_nat p)%nat with (Pos.to_nat p + Pos.to_nat p)%nat by lia.
    rewrite Nat.iter_add. reflexivity.
  - reflexivity.
Qed.

(** One shift to the right halves the mantissa, and loses nothing when the
    mantissa is even and nothing was lost before. *)
Lemma shr_1_spec mrs :
  0 <= shr_m mrs ->
  shr_m (shr_1 mrs) = shr_m mrs / 2 /\
  (exact_record mrs -> shr_m mrs mod 2 = 0 -> exact_record (shr_1 mrs)).
Proof.
  destruct mrs as [m r s]. cbn [shr_m]. intros Hm.
  destruct m as [|[p|p|]|p]; try lia; cbn [shr_1 shr_m].
  - split; [reflexivity|]. intros [Hr Hs] _. cbn in *. subst. split; reflexivity.
  - split.
    + rewrite Pos2Z.inj_xI. apply Z.div_unique with (r := 1); lia.
    + intros _ Hodd. exfalso. rewrite Pos2Z.inj_xI in Hodd.
      rewrite Z.add_comm, Z.mul_comm, Z.mod_add in Hodd by lia.
      vm_compute in Hodd. discriminate Hodd.
  - split.
    + rewrite Pos2Z.inj_xO. apply Z.div_unique with (r := 0); lia.
    + intros [Hr Hs] _. cbn in *. subst. split; reflexivity.
  - split; [reflexivity|]. intros _ H. vm_compute in H. discriminate H.
Qed.

Lemma iter_shr_1_spec n mrs :
  0 <= shr_m mrs ->
  shr_m (Nat.iter n shr_1 mrs) = shr_m mrs / 2 ^ Z.of_nat n /\
  (exact_record mrs -> shr_m mrs mod 2 ^ Z.of_nat n = 0 -> exact_record (Nat.iter n shr_1 mrs)).
Proof.
  intros Hm. induction n as [|n [IHm IHe]].
  - cbn. rewrite Z.div_1_r. auto.
  - change (Nat.iter (S n) shr_1 mrs) with (shr_1 (Nat.iter n shr_1 mrs)).
    assert (Hn : 0 <= shr_m (Nat.iter n shr_1 mrs)).
    { rewrite IHm. apply Z.div_pos; [lia|]. apply Z.pow_pos_nonneg; lia. }
    destruct (shr_1_spec _ Hn) as [Hm1 He1].
    rewrite Nat2Z.inj_succ, Z.pow_succ_r by lia.
    split.
    + rewrite Hm1, IHm. rewrite Z.div_div by (try apply Z.pow_pos_nonneg; lia).
      f_equal. lia.
    + intros Hex Hmod.
      assert (Hp : 0 < 2 ^ Z.of_nat n) by (apply Z.pow_pos_nonneg; lia).
      apply He1.
      * apply IHe; [exact Hex|].
        apply Z.mod_divide in Hmod; [|lia].
        apply Z.mod_divide; [lia|].
        destruct Hmod as [k Hk]. exists (k * 2). lia.
      * rewrite IHm.
        apply Z.mod_divide in Hmod; [|lia]. destruct Hmod as [k Hk].
        rewrite Hk. replace (k * (2 * 2 ^ Z.of_nat n)) with ((k * 2) * 2 ^ Z.of_nat n) by lia.
        rewrite Z.div_mul by lia. apply Z.mod_mul. lia.
Qed.

Lemma loc_of_shr_record_of_loc m l :
  loc_of_shr_record (shr_record_of_loc m l) = l.
Proof. destruct l as [|[]]; reflexivity. Qed.

Lemma shr_m_of_loc m l : shr_m (shr_record_of_loc m l) = m.
Proof. destruct l as [|[]]; reflexivity. Qed.

Lemma exact_loc mrs : exact_record mrs <-> loc_of_shr_record mrs = loc_Exact.
Proof.
  destruct mrs as [m [] []]; unfold exact_record; cbn; split; intros H;
    try discriminate; try (destruct H; discriminate); auto.
Qed.

(** The shift to the exponent of the format: the mantissa is divided by the
    power of two between the two exponents. *)
Lemma shr_fexp_spec m e l :
  0 <= m ->
  exists mrs,
    shr_fexp prec emax m e l = (mrs, Z.max e (fexp prec emax (Zdigits2 m + e))) /\
    shr_m mrs = m / 2 ^ (Z.max e (fexp prec emax (Zdigits2 m + e)) - e) /\
    (l = loc_Exact ->
     m mod 2 ^ (Z.max e (fexp prec emax (Zdigits2 m + e)) - e) = 0 ->
     loc_of_shr_record mrs = loc_Exact).
Proof.
  intros Hm. unfold shr_fexp, shr.
  set (f := fexp prec emax (Zdigits2 m + e)).
  destruct (f - e) as [|p|p] eqn:Hn.
  - exists (shr_record_of_loc m l).
    replace (Z.max e f) with e by lia. rewrite Z.sub_diag, Z.pow_0_r, Z.div_1_r.
    rewrite shr_m_of_loc, loc_of_shr_record_of_loc. auto.
  - exists (SpecFloat.iter_pos shr_1 p (shr_record_of_loc m l)).
    replace (Z.max e f) with (e + Zpos p) by lia.
    replace (e + Zpos p - e) with (Zpos p) by lia.
    rewrite iter_pos_nat, <- (positive_nat_Z p).
    assert (H0 : 0 <= shr_m (shr_record_of_loc m l)) by (rewrite shr_m_of_loc; lia).
    destruct (iter_shr_1_spec (Pos.to_nat p) _ H0) as [H1 H2].
    rewrite shr_m_of_loc in H1, H2.
    split; [reflexivity|]. split; [exact H1|].
    intros -> Hmod. apply exact_loc. apply H2; [|exact Hmod].
    split; reflexivity.
  - exists (shr_record_of_loc m l).
    replace (Z.max e f) with e by lia. rewrite Z.sub_diag, Z.pow_0_r, Z.div_1_r.
    rewrite shr_m_of_loc, loc_of_shr_record_of_loc. auto.
Qed.

(** Rounding moves the mantissa up by one at most, and only when the value
    is not exact. *)
Lemma round_nearest_even_bounds m l :
  m <= round_nearest_even m l <= m + excess l.
Proof.
  destruct l as [|[]]; cbn; try lia. destruct (Z.even m); lia.
Qed.

(** Shifting to a coarser exponent keeps a bound that lies on the coarser grid. *)
Lemma shift_le m l n T mrs :
  0 <= m -> 0 <= n ->
  m + excess l <= T * 2 ^ n ->
  shr_m mrs = m / 2 ^ n ->
  (l = loc_Exact -> m mod 2 ^ n = 0 -> loc_of_shr_record mrs = loc_Exact) ->
  shr_m mrs + excess (loc_of_shr_record mrs) <= T.
Proof.
  intros Hm Hn Hle Hshr Hex.
  assert (Hp : 0 < 2 ^ n) by (apply Z.pow_pos_nonneg; lia).
  rewrite Hshr.
  assert (Hdiv : m / 2 ^ n <= T).
  { apply Z.div_le_upper_bound; [lia|]. destruct l; cbn [excess] in Hle; lia. }
  destruct (loc_of_shr_record mrs) eqn:Hloc; cbn [excess]; [lia|].
  assert (Hlt : m < T * 2 ^ n).
  { destruct l as [|c0]; cbn [excess] in Hle; [|lia].
    destruct (Z.eq_dec (m mod 2 ^ n) 0) as [Hmod|Hmod].
    - specialize (Hex eq_refl Hmod). discriminate.
    - assert (m <> T * 2 ^ n); [|lia].
      intros ->. apply Hmod. apply Z.mod_mul. lia. }
  assert (m / 2 ^ n < T); [|lia].
  apply Z.div_lt_upper_bound; lia.
Qed.

(** The exponent of the format grows with the magnitude, and a value
    below a canonical bound has an exponent below that of the bound. *)
Lemma fexp_mono a b : a <= b -> fexp prec emax a <= fexp prec emax b.
Proof. rewrite !fexp_eq. lia. Qed.

Lemma fexp_le_bound m e mb eb :
  0 <= m -> e <= eb -> m <= Zpos mb * 2 ^ (eb - e) ->
  fexp prec emax (Zpos (digits2_pos mb) + eb) = eb ->
  fexp prec emax (Zdigits2 m + e) <= eb.
Proof.
  intros Hm He Hle Hcan.
  destruct (Z.eq_dec m 0) as [->|Hm0].
  - cbn [Zdigits2]. rewrite fexp_eq in *. lia.
  - rewrite <- Hcan. apply fexp_mono.
    destruct (Zdigits2_bounds m ltac:(lia)) as [Hlo _].
    destruct (digits2_pos_bounds mb) as [_ Hhi].
    pose proof (Zdigits2_nonneg m).
    assert (Hp : 0 < 2 ^ (eb - e)) by (apply Z.pow_pos_nonneg; lia).
    assert (Hlt : 2 ^ (Zdigits2 m - 1) < 2 ^ (Zpos (digits2_pos mb) + (eb - e))).
    { rewrite Z.pow_add_r by lia. nia. }
    apply Z.pow_lt_mono_r_iff in Hlt; lia.
Qed.

(** Rounding to nearest keeps an upper bound that is a Number of the format:
    a value [mx * 2^ex] (or strictly above it, by less than [2^ex]) that is at
    most [mb * 2^eb] rounds to zero or to a finite Number that is at most
    [mb * 2^eb]; it never overflows. *)
Theorem binary_round_aux_le sx mx ex lx mb eb :
  0 <= mx -> ex <= eb ->
  mx + excess lx <= Zpos mb * 2 ^ (eb - ex) ->
  bounded prec emax mb eb = true ->
  binary_round_aux prec emax sx mx ex lx = S754_zero sx \/
  exists m e,
    binary_round_aux prec emax sx mx ex lx = S754_finite sx m e /\
    e <= eb /\ Zpos m <= Zpos mb * 2 ^ (eb - e).
Proof.
  intros Hmx Hex Hle Hb.
  apply andb_true_iff in Hb as [Hcan Hemax].
  unfold canonical_mantissa in Hcan. apply Z.eqb_eq in Hcan. apply Z.leb_le in Hemax.
  unfold binary_round_aux.
  destruct (shr_fexp_spec mx ex lx Hmx) as (mrs1 & -> & Hm1 & Hloc1).
  set (e1 := Z.max ex (fexp prec emax (Zdigits2 mx + ex))) in *.
  assert (He1 : e1 <= eb).
  { assert (fexp prec emax (Zdigits2 mx + ex) <= eb); [|lia].
    apply (fexp_le_bound mx ex mb eb); [lia | lia | | exact Hcan].
    destruct lx; cbn [excess] in Hle; lia. }
  assert (Hb1 : shr_m mrs1 + excess (loc_of_shr_record mrs1) <= Zpos mb * 2 ^ (eb - e1)).
  { apply (shift_le mx lx (e1 - ex)); try lia; try assumption.
    rewrite <- Z.mul_assoc, <- Z.pow_add_r by lia.
    replace (eb - e1 + (e1 - ex)) with (eb - ex) by lia. exact Hle. }
  assert (Hm1pos : 0 <= shr_m mrs1).
  { rewrite Hm1. apply Z.div_pos; [lia|]. apply Z.pow_pos_nonneg; lia. }
  pose proof (round_nearest_even_bounds (shr_m mrs1) (loc_of_shr_record mrs1)) as Hr.
  set (m2 := round_nearest_even (shr_m mrs1) (loc_of_shr_record mrs1)) in *.
  assert (Hm2 : 0 <= m2) by lia.
  destruct (shr_fexp_spec m2 e1 loc_Exact Hm2) as (mrs3 & -> & Hm3 & Hloc3).
  set (e3 := Z.max e1 (fexp prec emax (Zdigits2 m2 + e1))) in *.
  assert (He3 : e3 <= eb).
  { assert (fexp prec emax (Zdigits2 m2 + e1) <= eb); [|lia].
    apply (fexp_le_bound m2 e1 mb eb); [lia | lia | lia | exact Hcan]. }
  assert (Hb3 : shr_m mrs3 + excess (loc_of_shr_record mrs3) <= Zpos mb * 2 ^ (eb - e3)).
  { apply (shift_le m2 loc_Exact (e3 - e1)); try lia; try assumption.
    rewrite <- Z.mul_assoc, <- Z.pow_add_r by lia.
    replace (eb - e3 + (e3 - e1)) with (eb - e1) by lia. cbn [excess]. lia. }
  assert (Hm3pos : 0 <= shr_m mrs3).
  { rewrite Hm3. apply Z.div_pos; [lia|]. apply Z.pow_pos_nonneg; lia. }
  assert (Hexc : 0 <= excess (loc_of_shr_record mrs3)) by (destruct (loc_of_shr_record mrs3); cbn; lia).
  destruct (shr_m mrs3) as [|m3|m3] eqn:Hm3'; [left; reflexivity| |lia].
  right. exists m3, e3.
  destruct (Z.leb_spec e3 (emax - prec)); [|lia].
  repeat split; lia.
Qed.

(** Aligning a mantissa to a smaller exponent multiplies it by a power of
    two. *)
Lemma iter_xO m k : Zpos (Pos.iter xO m k) = Zpos m * 2 ^ Zpos k.
Proof.
  induction k as [|k IH] using Pos.peano_ind.
  - cbn. lia.
  - rewrite Pos.iter_succ, Pos2Z.inj_xO, IH, Pos2Z.inj_succ, Z.pow_succ_r by lia. lia.
Qed.

Lemma shl_align_spec mx ex ex' :
  ex' <= ex ->
  exists mz, shl_align mx ex ex' = (mz, ex') /\ Zpos mz = Zpos mx * 2 ^ (ex - ex').
Proof.
  intros Hle. unfold shl_align.
  destruct (ex' - ex) as [|k|k] eqn:Hk; try lia.
  - exists mx. replace ex' with ex by lia. rewrite Z.sub_diag. split; [reflexivity|lia].
  - exists (Pos.iter xO mx k). split; [reflexivity|].
    rewrite iter_xO. f_equal. f_equal. lia.
Qed.

(** A canonical mantissa is left as it is by the rounding. *)
Lemma binary_round_aux_canonical s m e :
  fexp prec emax (Zpos (digits2_pos m) + e) = e -> e <= emax - prec ->
  binary_round_aux prec emax s (Zpos m) e loc_Exact = S754_finite s m e.
Proof.
  intros Hcan Hmax. unfold binary_round_aux, shr_fexp.
  cbn [Zdigits2 shr_record_of_loc]. rewrite Hcan, Z.sub_diag.
  cbn [shr shr_m loc_of_shr_record round_nearest_even Zdigits2 shr_record_of_loc].
  rewrite Hcan, Z.sub_diag. cbn [shr shr_m].
  destruct (Z.leb_spec e (emax - prec)); [reflexivity|lia].
Qed.

(** A positive integer below [2^53] is a Number, with a mantissa of 53
    digits. *)
Lemma of_Z_pos z :
  0 < z < 2 ^ 53 ->
  exists m,
    of_Z z = S754_finite false m (Zdigits2 z - 53) /\
    Zpos m = z * 2 ^ (53 - Zdigits2 z) /\
    Zpos (digits2_pos m) = 53.
Proof.
  intros [Hpos Hlt]. destruct z as [|p|p]; try lia.
  unfold of_Z, binary_normalize, binary_round.
  destruct (digits2_pos_bounds p) as [Hlo Hhi].
  assert (Hd : Zpos (digits2_pos p) <= 53).
  { destruct (Z.le_gt_cases (Zpos (digits2_pos p)) 53) as [H|H]; [exact H|].
    exfalso. assert (2 ^ 53 <= 2 ^ (Zpos (digits2_pos p) - 1)) by (apply Z.pow_le_mono_r; lia). lia. }
  rewrite fexp_eq.
  replace (Z.max (Zpos (digits2_pos p) + 0 - 53) (-1074)) with (Zpos (digits2_pos p) - 53) by lia.
  destruct (shl_align_spec p 0 (Zpos (digits2_pos p) - 53) ltac:(lia)) as (mz & -> & Hmz).
  replace (0 - (Zpos (digits2_pos p) - 53)) with (53 - Zpos (digits2_pos p)) in Hmz by lia.
  assert (Hdz : Zpos (digits2_pos mz) = 53).
  { apply (Zdigits2_unique (Zpos mz) 53); [|lia]. rewrite Hmz.
    assert (Hp : 0 < 2 ^ (53 - Zpos (digits2_pos p))) by (apply Z.pow_pos_nonneg; lia).
    assert (E1 : 2 ^ (53 - 1) = 2 ^ (Zpos (digits2_pos p) - 1) * 2 ^ (53 - Zpos (digits2_pos p))).
    { rewrite <- Z.pow_add_r by lia. f_equal. lia. }
    assert (E2 : 2 ^ 53 = 2 ^ Zpos (digits2_pos p) * 2 ^ (53 - Zpos (digits2_pos p))).
    { rewrite <- Z.pow_add_r by lia. f_equal. lia. }
    rewrite E1, E2. nia. }
  exists mz. cbn [Zdigits2]. split; [|split; assumption].
  apply binary_round_aux_canonical.
  - rewrite Hdz, fexp_eq. lia.
  - unfold emax, prec. lia.
Qed.

Lemma Zdigits2_mono a b : 0 < a <= b -> Zdigits2 a <= Zdigits2 b.
Proof.
  intros [Ha Hab].
  destruct (Zdigits2_bounds a Ha) as [Hlo _].
  destruct (Zdigits2_bounds b ltac:(lia)) as [_ Hhi].
  pose proof (Zdigits2_nonneg a). pose proof (Zdigits2_nonneg b).
  assert (Hlt : 2 ^ (Zdigits2 a - 1) < 2 ^ Zdigits2 b) by lia.
  apply Z.pow_lt_mono_r_iff in Hlt; lia.
Qed.

Lemma new_location_zero n : new_location n 0 = loc_Exact.
Proof. unfold new_location, new_location_even, new_location_odd. destruct (Z.even n); reflexivity. Qed.

Lemma of_Z_100 : of_Z 100 = S754_finite false hundred_m (-46).
Proof. reflexivity. Qed.

(** [c / N] is at most [1] when [c <= N]. *)
Lemma div_at_most_one c N :
  0 < c <= N -> N < 2 ^ 53 ->
  at_most (div (of_Z c) (of_Z N)) one_m (-52).
Proof.
  intros [Hc HcN] HN.
  destruct (of_Z_pos c ltac:(lia)) as (mc & -> & Hmc & Hdc).
  destruct (of_Z_pos N ltac:(lia)) as (mN & -> & HmN & HdN).
  pose proof (Zdigits2_mono c N ltac:(lia)) as Hmono.
  destruct (Zdigits2_bounds c Hc) as [Hclo Hchi].
  pose proof (Zdigits2_nonneg c) as Hdc0.
  assert (Hdc1 : 1 <= Zdigits2 c).
  { destruct (Z.le_gt_cases 1 (Zdigits2 c)); [assumption|].
    replace (Zdigits2 c) with 0 in Hchi by lia. cbn in Hchi. lia. }
  assert (HdN53 : Zdigits2 N <= 53).
  { destruct (Zdigits2_bounds N ltac:(lia)) as [HNlo _].
    destruct (Z.le_gt_cases (Zdigits2 N) 53) as [H|H]; [exact H|].
    exfalso. assert (2 ^ 53 <= 2 ^ (Zdigits2 N - 1)) by (apply Z.pow_le_mono_r; lia). lia. }
  unfold div, SFdiv, SFdiv_core_binary. cbn [Zdigits2]. rewrite Hdc, HdN.
  set (dc := Zdigits2 c) in *. set (dN := Zdigits2 N) in *.
  rewrite fexp_eq.
  replace (Z.min (Z.max (53 + (dc - 53) - (53 + (dN - 53)) - 53) (-1074)) (dc - 53 - (dN - 53)))
    with (dc - dN - 53) by lia.
  replace (dc - 53 - (dN - 53) - (dc - dN - 53)) with 53 by lia.
  rewrite Z.shiftl_mul_pow2 by lia.
  pose proof (Z_div_mod (Zpos mc * 2 ^ 53) (Zpos mN) ltac:(lia)) as Hdm.
  destruct (Z.div_eucl (Zpos mc * 2 ^ 53) (Zpos mN)) as [q r].
  destruct Hdm as [Heq Hr].
  cbn [xorb].
  assert (Hq : 0 <= q) by nia.
  assert (HX : Zpos mc * 2 ^ 53 <= Zpos mN * 2 ^ (53 + dN - dc)).
  { rewrite Hmc, HmN.
    replace (2 ^ (53 + dN - dc)) with (2 ^ (dN - dc) * 2 ^ 53)
      by (rewrite <- Z.pow_add_r by lia; f_equal; lia).
    assert (E : 2 ^ (53 - dc) = 2 ^ (53 - dN) * 2 ^ (dN - dc))
      by (rewrite <- Z.pow_add_r by lia; f_equal; lia).
    rewrite E.
    assert (0 < 2 ^ (53 - dN)) by (apply Z.pow_pos_nonneg; lia).
    assert (0 < 2 ^ (dN - dc)) by (apply Z.pow_pos_nonneg; lia).
    assert (0 < 2 ^ 53) by (apply Z.pow_pos_nonneg; lia).
    nia. }
  apply binary_round_aux_le; try lia.
  - replace (Zpos one_m * 2 ^ (-52 - (dc - dN - 53))) with (2 ^ (53 + dN - dc)).
    2:{ change (Zpos one_m) with (2 ^ 52). rewrite <- Z.pow_add_r by lia. f_equal. lia. }
    assert (0 < 2 ^ (53 + dN - dc)) by (apply Z.pow_pos_nonneg; lia).
    destruct (Z.eq_dec r 0) as [->|Hr0].
    + rewrite new_location_zero. cbn [excess]. nia.
    + assert (excess (new_location (Zpos mN) r) <= 1)
        by (destruct (new_location (Zpos mN) r); cbn; lia).
      nia.
  - reflexivity.
Qed.

(** [x * 100] is at most [100] when [x] is at most [1]. *)
Lemma mul_100_at_most x :
  at_most x one_m (-52) -> at_most (mul x (of_Z 100)) hundred_m (-46).
Proof.
  intros [->|(m & e & -> & He & Hm)]; [left; reflexivity|].
  rewrite of_Z_100. unfold mul, SFmul. cbn [xorb].
  apply binary_round_aux_le; try lia.
  - cbn [excess]. rewrite Z.add_0_r, Pos2Z.inj_mul.
    replace (-46 - (e + -46)) with (- e) by lia.
    replace (Zpos one_m * 2 ^ (-52 - e)) with (2 ^ (- e)) in Hm.
    2:{ change (Zpos one_m) with (2 ^ 52). rewrite <- Z.pow_add_r by lia. f_equal. lia. }
    nia.
  - reflexivity.
Qed.

(** [Math.round] of a Number from [0] to [100] is an integer from [0] to
    [100]. *)
Lemma Math_round_at_most_100 x :
  at_most x hundred_m (-46) ->
  exists k, 0 <= k <= 100 /\ Math_round x = of_Z k.
Proof.
  intros [->|(m & e & -> & He & Hm)]; [exists 0; split; [lia|reflexivity]|].
  unfold Math_round. destruct (Z.leb_spec 0 e); [lia|].
  cbn [cond_Zopp]. eexists. split; [|reflexivity].
  assert (Hp : 0 < 2 ^ (- e - 1)) by (apply Z.pow_pos_nonneg; lia).
  assert (E : 2 ^ (- e) = 2 * 2 ^ (- e - 1)).
  { rewrite <- Z.pow_succ_r by lia. f_equal. lia. }
  assert (Hm' : Zpos m <= 100 * 2 ^ (- e)).
  { replace (Zpos hundred_m * 2 ^ (-46 - e)) with (100 * 2 ^ (- e)) in Hm; [exact Hm|].
    change (Zpos hundred_m) with (100 * 2 ^ 46). rewrite <- Z.mul_assoc, <- Z.pow_add_r by lia.
    f_equal. f_equal. lia. }
  split.
  - apply Z.div_pos; lia.
  - assert ((Zpos m + 2 ^ (- e - 1)) / 2 ^ (- e) < 101); [|lia].
    apply Z.div_lt_upper_bound; lia.
Qed.

(** The percentage of [c] out of [N] is an integer from [0] to [100]. *)
Theorem percentage_range c N :
  0 <= c <= N -> 1 <= N < 2 ^ 53 ->
  exists k, 0 <= k <= 100 /\
    Math_round (mul (div (of_Z c) (of_Z N)) (of_Z 100)) = of_Z k.
Proof.
  intros [Hc HcN] [HN1 HN].
  apply Math_round_at_most_100, mul_100_at_most.
  destruct (Z.eq_dec c 0) as [->|Hc0].
  - left. destruct (of_Z_pos N ltac:(lia)) as (mN & -> & _). reflexivity.
  - apply div_at_most_one; lia.
Qed.

(** A Number divided by itself is [1]. *)
Lemma div_self N :
  0 < N < 2 ^ 53 -> div (of_Z N) (of_Z N) = of_Z 1.
Proof.
  intros HN.
  destruct (of_Z_pos N HN) as (mN & -> & HmN & HdN).
  unfold div, SFdiv, SFdiv_core_binary. cbn [Zdigits2]. rewrite HdN.
  set (dN := Zdigits2 N).
  rewrite fexp_eq.
  replace (Z.min (Z.max (53 + (dN - 53) - (53 + (dN - 53)) - 53) (-1074))
             (dN - 53 - (dN - 53))) with (-53) by lia.
  replace (dN - 53 - (dN - 53) - -53) with 53 by lia.
  rewrite Z.shiftl_mul_pow2 by lia.
  pose proof (Z_div_mod (Zpos mN * 2 ^ 53) (Zpos mN) ltac:(lia)) as Hdm.
  destruct (Z.div_eucl (Zpos mN * 2 ^ 53) (Zpos mN)) as [q r].
  destruct Hdm as [Heq Hr].
  assert (Hq : q = 2 ^ 53) by nia.
  assert (Hr0 : r = 0) by nia.
  subst q r. rewrite new_location_zero. reflexivity.
Qed.

Lemma percentage_none N :
  0 < N < 2 ^ 53 ->
  Math_round (mul (div (of_Z 0) (of_Z N)) (of_Z 100)) = of_Z 0.
Proof.
  intros HN. destruct (of_Z_pos N HN) as (mN & -> & _). reflexivity.
Qed.

Lemma percentage_all N :
  0 < N < 2 ^ 53 ->
  Math_round (mul (div (of_Z N) (of_Z N)) (of_Z 100)) = of_Z 100.
Proof. intros HN. rewrite (div_self N HN). reflexivity. Qed.

End JsNumberFacts.

(* ===================================================================== *)
(** * Properties of the quiz page: the score *)
(* ===================================================================== *)

Module ScoreFacts.
Import JsNumber QuizData Quiz JsNumberFacts JsFacts.

Lemma score_loop_snoc userAnswers qs question index acc :
  score_loop userAnswers (qs ++ [question]) index acc =
  score_step userAnswers (score_loop userAnswers qs index acc)
    (index + length qs) question.
Proof.
  revert index acc. induction qs as [|q0 qs IH]; intros index acc.
  - cbn. by rewrite Nat.add_0_r.
  - cbn [app score_loop length]. rewrite IH.
    by replace (S index + length qs)%nat with (index + S (length qs))%nat by lia.
Qed.

Lemma is_correct_app_l userAnswers qs question i :
  (i < length qs)%nat →
  is_correct userAnswers (qs ++ [question]) i = is_correct userAnswers qs i.
Proof. intros Hi. unfold is_correct. by rewrite lookup_app_l. Qed.

Lemma correct_indices_snoc userAnswers qs question :
  correct_indices userAnswers (qs ++ [question]) =
  correct_indices userAnswers qs ++
    (if strict_eq (userAnswers !! length qs) (answerIndex question)
     then [length qs] else []).
Proof.
  unfold correct_indices. rewrite length_app. cbn [length].
  rewrite Nat.add_1_r, seq_S, List.filter_app. cbn [List.filter Nat.add].
  f_equal.
  - apply List.filter_ext_in. intros i Hi. apply in_seq in Hi.
    apply is_correct_app_l. lia.
  - unfold is_correct. rewrite list_lookup_middle by done. done.
Qed.

(** The loop computes the number of questions answered correctly and the
    breakdown, question by question. *)
Lemma score_loop_spec userAnswers qs :
  score_loop userAnswers qs 0 (0%nat, []) =
  (length (correct_indices userAnswers qs),
   imap (breakdown_item userAnswers) qs).
Proof.
  induction qs as [|question qs IH] using rev_ind; [done|].
  rewrite score_loop_snoc, IH. unfold score_step. cbn [fst snd Nat.add].
  rewrite correct_indices_snoc, imap_app, length_app. cbn [imap].
  rewrite Nat.add_0_r. f_equal.
  destruct (strict_eq _ _); cbn [length]; lia.
Qed.

Lemma correct_indices_length userAnswers qs :
  (length (correct_indices userAnswers qs) ≤ length qs)%nat.
Proof.
  unfold correct_indices.
  etrans; [apply List.filter_length_le|]. by rewrite length_seq.
Qed.

(** Up to 39 questions the score is the exact rounding of the fraction. *)
Lemma percentage_exact_upto_39 :
  Forall (λ N : nat,
    Forall (λ c : nat,
      Math_round (mul (div (of_Z (Z.of_nat c)) (of_Z (Z.of_nat N)))
                      (of_Z 100))
      = of_Z (round_percent (Z.of_nat c) (Z.of_nat N)))
      (seq 0 (S N)))
    (seq 1 39).
Proof. apply (bool_decide_unpack _). vm_compute. exact I. Qed.

(** C1 (as the code has it).  For a passage with [N >= 1] questions (an
    array has fewer than [2^53] elements) and any answers, [correct] is the
    number of the questions [i] whose answer [A[i]] is present and equal to
    the correct index, so that an absent answer is never counted correct and
    is marked incorrect in the breakdown; the score is [Math.round] of the
    Number [(correct / total) * 100], the quotient and then the product
    being rounded to binary64; it is an integer from 0 to 100; and it is
    [round (100 * correct / N)] whenever [N <= 39], when no answer is
    correct and when all are. *)
Theorem calculateScore_score p userAnswers startTime now :
  let qs := questions p in
  let results := calculateScore p userAnswers startTime now in
  let c := length (correct_indices userAnswers qs) in
  (1 ≤ length qs)%nat → Z.of_nat (length qs) < 2 ^ 53 →
  correct results = c ∧ total results = length qs ∧ (c ≤ length qs)%nat ∧
  breakdown results = imap (breakdown_item userAnswers) qs ∧
  (∀ i, userAnswers !! i = None →
        (i ∉ correct_indices userAnswers qs) ∧
        (∀ item, breakdown results !! i = Some item → isCorrect item = false)) ∧
  percentage results =
    Math_round (mul (div (of_Z (Z.of_nat c)) (of_Z (Z.of_nat (length qs))))
                    (of_Z 100)) ∧
  (∃ k, 0 ≤ k ≤ 100 ∧ percentage results = of_Z k) ∧
  ((length qs ≤ 39)%nat ∨ c = 0%nat ∨ c = length qs →
   percentage results
   = of_Z (round_percent (Z.of_nat c) (Z.of_nat (length qs)))).
Proof.
  intros qs results c HN1 HN.
  pose proof (correct_indices_length userAnswers qs) as Hc. fold c in Hc.
  assert (Hres : results =
            {| correct := c; total := length qs;
               percentage :=
                 Math_round (mul (div (of_Z (Z.of_nat c))
                                      (of_Z (Z.of_nat (length qs))))
                                 (of_Z 100));
               timeElapsed := elapsed_seconds now startTime;
               breakdown := imap (breakdown_item userAnswers) qs |}).
  { unfold results, calculateScore. fold qs.
    by rewrite score_loop_spec. }
  rewrite Hres. cbn [correct total percentage breakdown].
  split; [done|]. split; [done|]. split; [done|]. split; [done|].
  split; [|split; [done|split]].
  - intros i Hi. split.
    + intros Hin. apply elem_of_List_filter in Hin as [_ Hin].
      unfold is_correct in Hin. rewrite Hi in Hin.
      by destruct (qs !! i).
    + intros item. rewrite list_lookup_imap.
      destruct (qs !! i) as [question|]; [|done].
      cbn. intros [= <-]. cbn. by rewrite Hi.
  - apply percentage_range; lia.
  - intros [Hsmall|[Hzero|Hall]].
    + pose proof percentage_exact_upto_39 as Hex.
      rewrite Forall_forall in Hex.
      specialize (Hex (length qs)).
      rewrite Forall_forall in Hex.
      apply Hex; apply list_elem_of_In, in_seq; lia.
    + rewrite Hzero. change (Z.of_nat 0) with 0.
      rewrite percentage_none by lia.
      unfold round_percent. f_equal. symmetry. apply Z.div_small. lia.
    + rewrite Hall. rewrite percentage_all by lia.
      unfold round_percent. f_equal.
      apply Z.div_unique with (r := Z.of_nat (length qs)); lia.
Qed.

Lemma calculateScore_score_witness :
  percentage (calculateScore sample_passage (userAnswers sample_answered) 0 5000)
  = of_Z 67 ∧
  correct (calculateScore sample_passage (userAnswers sample_answered) 0 5000)
  = 2%nat.
Proof.
  assert (HN1 : (1 ≤ length (questions sample_passage))%nat)
    by (vm_compute; lia).
  assert (HN : Z.of_nat (length (questions sample_passage)) < 2 ^ 53)
    by (vm_compute; reflexivity).
  destruct (calculateScore_score sample_passage (userAnswers sample_answered)
              0 5000 HN1 HN) as (Hc & _ & _ & _ & _ & _ & _ & Hexact).
  split.
  - rewrite Hexact; [reflexivity|]. left. vm_compute. lia.
  - rewrite Hc. reflexivity.
Defined.

(** C1 as stated fails: with 23 correct answers out of 40 the fraction is
    57.5, which rounds to 58, but the Number [(23 / 40) * 100] is
    57.49999999999999 and the score is 57. *)
Lemma score_23_of_40 :
  correct (calculateScore forty_questions (first_answers 23) 0 60000) = 23%nat ∧
  total (calculateScore forty_questions (first_answers 23) 0 60000) = 40%nat ∧
  length (correct_indices (first_answers 23) (questions forty_questions))
  = 23%nat ∧
  round_percent 23 40 = 58 ∧
  percentage (calculateScore forty_questions (first_answers 23) 0 60000)
  = of_Z 57 ∧
  percentage (calculateScore forty_questions (first_answers 23) 0 60000)
  ≠ of_Z (round_percent 23 40).
Proof.
  assert (Hp : percentage
                 (calculateScore forty_questions (first_answers 23) 0 60000)
               = of_Z 57) by (vm_compute; reflexivity).
  split; [vm_compute; reflexivity|]. split; [reflexivity|].
  split; [vm_compute; reflexivity|]. split; [reflexivity|].
  split; [exact Hp|]. rewrite Hp. vm_compute. discriminate.
Qed.

End ScoreFacts.

(* ===================================================================== *)
(** * More properties of the passages repository *)
(* ===================================================================== *)

Module PassagesMoreFacts.
Import Platform Firestore Passages PassagesMore JsFacts PassagesFacts.

Lemma find_app_first {A} (f : A → bool) (l1 l2 : list A) :
  List.find f (l1 ++ l2) =
  match List.find f l1 with
  | Some x => Some x
  | None => List.find f l2
  end.
Proof.
  induction l1 as [|a l1 IH]; [done|]. cbn. by destruct (f a).
Qed.

Lemma find_id_None passageId (docs : list (Document PassageDoc)) :
  passageId ∉ ids docs →
  List.find (λ d, String.eqb (doc_id d) passageId) docs = None.
Proof.
  induction docs as [|d docs IH]; [done|]. cbn. intros Hnot.
  destruct (String.eqb_spec (doc_id d) passageId) as [Heq|Hne].
  - exfalso. apply Hnot. rewrite <- Heq. left.
  - apply IH. intros Hin. apply Hnot. by right.
Qed.

Lemma find_id_Some passageId (docs : list (Document PassageDoc)) d :
  List.find (λ d, String.eqb (doc_id d) passageId) docs = Some d →
  d ∈ docs ∧ doc_id d = passageId.
Proof.
  intros Hfind. apply find_some in Hfind as [Hin Heq].
  split; [by apply list_elem_of_In | by apply String.eqb_eq].
Qed.

Lemma find_id_is_Some passageId (docs : list (Document PassageDoc)) d :
  d ∈ docs → doc_id d = passageId →
  is_Some (List.find (λ d, String.eqb (doc_id d) passageId) docs).
Proof.
  intros Hin Hid.
  destruct (List.find _ docs) eqn:Hfind; [by eexists|].
  exfalso. apply list_elem_of_In in Hin.
  pose proof (find_none _ _ Hfind _ Hin) as Hf. cbn in Hf.
  rewrite Hid, String.eqb_refl in Hf. done.
Qed.

Lemma exists_doc_find passageId (docs : list (Document PassageDoc)) :
  exists_doc passageId docs = true ↔
  is_Some (List.find (λ d, String.eqb (doc_id d) passageId) docs).
Proof.
  unfold exists_doc. induction docs as [|d docs IH]; cbn.
  - split; [done | by intros [? ?]].
  - destruct (String.eqb (doc_id d) passageId); cbn; [|exact IH].
    split; [by eexists | done].
Qed.

(** ** Create, read, update, delete *)

(** X1.  A passage created by an admin on a reachable store, under an id
    that is not in use, is read back by [getPassage] under that id with the
    data given, [isPublished] being [false] when left out, [createdBy] the
    admin's uid and both timestamps the server time; every other id reads
    as before. *)
Theorem createPassage_then_getPassage passageData autoId serverTime e u :
  isAdmin (authManager e) = true →
  currentUser (authManager e) = Some u →
  reachable e = true →
  autoId ∉ ids (passages e) →
  let r := createPassage passageData autoId serverTime e in
  r.1 = Returned autoId ∧
  (getPassage autoId r.2).1 =
    Returned
      (Some (mkDocument autoId
               {| title := pd_title passageData;
                  subject := pd_subject passageData;
                  difficulty := pd_difficulty passageData;
                  content := pd_content passageData;
                  isPublished := default false (pd_isPublished passageData);
                  createdBy := uid u;
                  createdAt := serverTime;
                  updatedAt := serverTime |})) ∧
  ∀ passageId, passageId ≠ autoId →
    (getPassage passageId r.2).1 = (getPassage passageId e).1.
Proof.
  intros Hadmin Hu Hreach Hfresh. unfold createPassage.
  rewrite Hadmin. cbn [negb log authManager reachable passages].
  rewrite Hu, Hreach. cbn [fst snd].
  split; [done|]. unfold getPassage. cbn [log io reachable passages].
  rewrite Hreach. cbn [fst].
  split.
  - rewrite find_app_first, (find_id_None _ _ Hfresh). cbn.
    by rewrite String.eqb_refl.
  - intros passageId Hne. rewrite find_app_first.
    destruct (List.find _ (passages e)); [done|]. cbn.
    destruct (String.eqb_spec autoId passageId); [congruence | done].
Qed.

Lemma createPassage_then_getPassage_witness :
  ∃ d, (getPassage "p3" (createPassage sample_data "p3" 3000 admin_env).2).1
       = Returned (Some d) ∧
       title (doc_data d) = "Rocks"%string ∧
       createdBy (doc_data d) = "admin1"%string.
Proof.
  assert (Hfresh : "p3"%string ∉ ids (passages admin_env)).
  { intros Hin. vm_compute in Hin.
    repeat (apply elem_of_cons in Hin as [Hin|Hin]; [discriminate Hin|]).
    by apply elem_of_nil in Hin. }
  destruct (createPassage_then_getPassage sample_data "p3" 3000 admin_env
              (mkUser "admin1") eq_refl eq_refl eq_refl Hfresh)
    as (_ & Hget & _).
  eexists. split; [exact Hget|]. split; reflexivity.
Defined.


Lemma find_map_update passageId (f : PassageDoc → PassageDoc) docs k :
  List.find (λ d, String.eqb (doc_id d) k)
    (map (λ d : Document PassageDoc,
            if String.eqb (doc_id d) passageId
            then mkDocument (doc_id d) (f (doc_data d)) else d) docs)
  = if String.eqb k passageId
    then option_map (λ d, mkDocument (doc_id d) (f (doc_data d)))
           (List.find (λ d, String.eqb (doc_id d) k) docs)
    else List.find (λ d, String.eqb (doc_id d) k) docs.
Proof.
  induction docs as [|d docs IH]; cbn.
  - by destruct (String.eqb k passageId).
  - destruct (String.eqb_spec (doc_id d) passageId) as [Hd|Hd]; cbn.
    + destruct (String.eqb_spec (doc_id d) k) as [Hk|Hk].
      * subst k passageId. by rewrite String.eqb_refl.
      * rewrite IH. done.
    + destruct (String.eqb_spec (doc_id d) k) as [Hk|Hk].
      * destruct (String.eqb_spec k passageId); [congruence | done].
      * rewrite IH. done.
Qed.

Lemma updatePassage_ids passageId (f : PassageDoc → PassageDoc) docs :
  ids (map (λ d : Document PassageDoc,
              if String.eqb (doc_id d) passageId
              then mkDocument (doc_id d) (f (doc_data d)) else d) docs)
  = ids docs.
Proof.
  unfold ids. rewrite map_map. apply map_ext. intros d.
  by destruct (String.eqb (doc_id d) passageId).
Qed.

(** X2.  [updatePassage] by an admin on a reachable store.  When a passage
    with the id is stored, the call returns, reading the id back gives the
    stored passage with the given fields overwritten, [updatedAt] set to
    the server time and [createdBy], [createdAt] and the fields left out
    of [updates] as they were; every other id reads as before and no
    passage is added or removed.  When no passage has the id, the call
    throws and the stored passages are unchanged. *)
Theorem updatePassage_then_getPassage passageId updates serverTime e :
  isAdmin (authManager e) = true →
  reachable e = true →
  let r := updatePassage passageId updates serverTime e in
  match (getPassage passageId e).1 with
  | Returned (Some d) =>
      r.1 = Returned tt ∧
      (getPassage passageId r.2).1 =
        Returned (Some (mkDocument passageId
                          (apply_updates updates serverTime (doc_data d)))) ∧
      (∀ k, k ≠ passageId → (getPassage k r.2).1 = (getPassage k e).1) ∧
      ids (passages r.2) = ids (passages e)
  | _ =>
      r.1 = Thrown "FirebaseError" ∧ passages r.2 = passages e
  end.
Proof.
  intros Hadmin Hreach. unfold updatePassage, getPassage.
  rewrite Hadmin. cbn [negb log io authManager reachable passages].
  rewrite Hreach. cbn [fst snd andb].
  destruct (List.find _ (passages e)) as [d|] eqn:Hfind.
  - assert (Hex : exists_doc passageId (passages e) = true).
    { apply exists_doc_find. by eexists. }
    rewrite Hex. cbn [fst snd log io reachable passages]. rewrite Hreach.
    cbn [fst]. split; [done|].
    apply find_id_Some in Hfind as Hd. destruct Hd as [_ Hid].
    split; [|split].
    + rewrite find_map_update, String.eqb_refl, Hfind. cbn. by rewrite Hid.
    + intros k Hk. rewrite find_map_update.
      destruct (String.eqb_spec k passageId); [congruence | done].
    + apply updatePassage_ids.
  - assert (Hex : exists_doc passageId (passages e) = false).
    { destruct (exists_doc passageId (passages e)) eqn:Hex; [|done].
      apply exists_doc_find in Hex as [? Hex]. congruence. }
    rewrite Hex. done.
Qed.

Lemma updatePassage_then_getPassage_witness :
  ∃ d, (getPassage "p2"
          (updatePassage "p2" sample_updates 3000 admin_env).2).1
       = Returned (Some d) ∧
       isPublished (doc_data d) = true ∧
       title (doc_data d) = "Genes"%string ∧
       updatedAt (doc_data d) = 3000.
Proof.
  pose proof (updatePassage_then_getPassage "p2" sample_updates 3000
                admin_env eq_refl eq_refl) as H.
  cbv zeta in H.
  change ((getPassage "p2" admin_env).1)
    with (Returned (Some (mkDocument "p2"%string (sample_doc "Genes" false 2000))))
    in H.
  destruct H as (_ & Hget & _).
  eexists. split; [exact Hget|]. repeat split.
Defined.

Lemma find_filter_delete passageId (docs : list (Document PassageDoc)) k :
  List.find (λ d, String.eqb (doc_id d) k)
    (List.filter (λ d, negb (String.eqb (doc_id d) passageId)) docs)
  = if String.eqb k passageId then None
    else List.find (λ d, String.eqb (doc_id d) k) docs.
Proof.
  induction docs as [|d docs IH]; cbn.
  - by destruct (String.eqb k passageId).
  - destruct (String.eqb_spec (doc_id d) passageId) as [Hd|Hd]; cbn.
    + rewrite IH. destruct (String.eqb_spec k passageId) as [Hk|Hk]; [done|].
      destruct (String.eqb_spec (doc_id d) k); [congruence | done].
    + destruct (String.eqb_spec (doc_id d) k) as [Hk|Hk]; [|exact IH].
      destruct (String.eqb_spec k passageId); [congruence | done].
Qed.

Lemma filter_delete_idem passageId (docs : list (Document PassageDoc)) :
  List.filter (λ d, negb (String.eqb (doc_id d) passageId))
    (List.filter (λ d, negb (String.eqb (doc_id d) passageId)) docs)
  = List.filter (λ d, negb (String.eqb (doc_id d) passageId)) docs.
Proof.
  induction docs as [|d docs IH]; cbn; [done|].
  destruct (negb (String.eqb (doc_id d) passageId)) eqn:Hd; cbn; [|exact IH].
  by rewrite Hd, IH.
Qed.

(** X3.  [deletePassage] by an admin on a reachable store returns; reading
    the id back then gives [null], every other id reads as before, and
    deleting the same id again returns too and leaves the stored passages
    as the first deletion left them. *)
Theorem deletePassage_then_getPassage passageId e :
  isAdmin (authManager e) = true →
  reachable e = true →
  let r := deletePassage passageId e in
  r.1 = Returned tt ∧
  (getPassage passageId r.2).1 = Returned None ∧
  (∀ k, k ≠ passageId → (getPassage k r.2).1 = (getPassage k e).1) ∧
  (deletePassage passageId r.2).1 = Returned tt ∧
  passages (deletePassage passageId r.2).2 = passages r.2.
Proof.
  intros Hadmin Hreach. unfold deletePassage, getPassage.
  cbn [negb log io authManager reachable passages fst snd].
  rewrite Hadmin. cbn [negb log io authManager reachable passages fst snd].
  rewrite Hreach. cbn [negb log io authManager reachable passages fst snd].
  rewrite Hadmin, Hreach.
  cbn [negb log io authManager reachable passages fst snd].
  split; [done|]. split; [|split; [|split; [done|]]].
  - by rewrite find_filter_delete, String.eqb_refl.
  - intros k Hk. rewrite find_filter_delete.
    destruct (String.eqb_spec k passageId); [congruence | done].
  - apply filter_delete_idem.
Qed.

Lemma deletePassage_then_getPassage_witness :
  (getPassage "p1" (deletePassage "p1" admin_env).2).1 = Returned None ∧
  ids (passages (deletePassage "p1" admin_env).2) = ["p2"%string].
Proof.
  destruct (deletePassage_then_getPassage "p1" admin_env eq_refl eq_refl)
    as (_ & Hget & _).
  split; [exact Hget | reflexivity].
Defined.

(** ** Listings *)

Section SortTotal.
Context {A : Type} (compare : A → A → Z).
Hypothesis compare_total : ∀ a b, 0 < compare a b → compare b a ≤ 0.
Hypothesis compare_trans :
  ∀ a b c, compare a b ≤ 0 → compare b c ≤ 0 → compare a c ≤ 0.

Lemma insert_sorted_sorted_by a l :
  StronglySorted (λ a b, compare a b ≤ 0) l →
  StronglySorted (λ a b, compare a b ≤ 0) (Js.insert_sorted compare a l).
Proof.
  induction 1 as [|b l Hs IH Hb]; simpl.
  - repeat constructor.
  - destruct (Z.leb_spec (compare a b) 0) as [Hle|Hgt].
    + constructor; [by constructor|].
      constructor; [done|].
      eapply Forall_impl; [exact Hb|].
      intros c Hc. by eapply compare_trans.
    + constructor; [exact IH|].
      rewrite insert_sorted_Permutation.
      constructor; [by apply compare_total | exact Hb].
Qed.

Lemma sort_sorted_by l :
  StronglySorted (λ a b, compare a b ≤ 0) (Js.sort compare l).
Proof.
  induction l as [|a l IH]; [constructor|].
  unfold Js.sort in *. simpl. by apply insert_sorted_sorted_by.
Qed.
End SortTotal.

Lemma StronglySorted_impl {A} (R R' : A → A → Prop) (l : list A) :
  (∀ a b, R a b → R' a b) → StronglySorted R l → StronglySorted R' l.
Proof.
  intros HR. induction 1 as [|a l Hs IH Ha]; constructor; [exact IH|].
  eapply Forall_impl; [exact Ha|]. intros b. apply HR.
Qed.

Lemma string_compare_trans a b c :
  String.compare a b ≠ Gt → String.compare b c ≠ Gt →
  String.compare a c ≠ Gt.
Proof.
  pose proof (String_as_OT.compare_spec a b) as Hab.
  pose proof (String_as_OT.compare_spec b c) as Hbc.
  pose proof (String_as_OT.compare_spec a c) as Hac.
  pose proof (String_as_OT.lt_strorder) as [Hi Ht].
  change String_as_OT.compare with String.compare in *.
  unfold String_as_OT.eq in *.
  intros H1 H2 H3.
  destruct Hab; try congruence; destruct Hbc; try congruence; subst;
    rewrite H3 in Hac; inversion Hac; eapply Hi; eauto.
Qed.

Lemma comparison_Z_le c : comparison_Z c ≤ 0 ↔ c ≠ Gt.
Proof. destruct c; cbn; split; (done || lia). Qed.

Lemma compare_on_title a b :
  compare_on field_of "title" a b ≤ 0 ↔ title_le a b.
Proof. unfold title_le. rewrite <- comparison_Z_le. done. Qed.

Lemma sort_by_title_sorted (docs : list (Document PassageDoc)) :
  StronglySorted title_le (Js.sort (compare_on field_of "title") docs).
Proof.
  eapply StronglySorted_impl; [|apply sort_sorted_by].
  - intros a b. apply compare_on_title.
  - intros a b Hgt. apply compare_on_title. unfold title_le.
    rewrite String.compare_antisym.
    change (compare_on field_of "title" a b)
      with (comparison_Z (String.compare (title (doc_data a))
                                         (title (doc_data b)))) in Hgt.
    destruct (String.compare (title (doc_data a)) (title (doc_data b)));
      cbn in *; (done || lia).
  - intros a b c. rewrite !compare_on_title. apply string_compare_trans.
Qed.

Lemma filter_filter_andb {A} (f g : A → bool) (l : list A) :
  List.filter f (List.filter g l) = List.filter (λ x, g x && f x) l.
Proof.
  induction l as [|a l IH]; cbn; [done|].
  destruct (g a); cbn; [|exact IH]. destruct (f a); by rewrite IH.
Qed.

Lemma filter_all {A} (f : A → bool) (l : list A) :
  (∀ x, f x = true) → List.filter f l = l.
Proof.
  intros Hf. induction l as [|a l IH]; cbn; [done|]. by rewrite Hf, IH.
Qed.

Lemma has_field_title (d : Document PassageDoc) :
  has_field field_of d "title" = true.
Proof. done. Qed.

Lemma has_field_createdAt (d : Document PassageDoc) :
  has_field field_of d "createdAt" = true.
Proof. done. Qed.

Lemma has_value_subject (d : Document PassageDoc) s :
  has_value field_of d "subject" (VString s)
  = String.eqb (subject (doc_data d)) s.
Proof. done. Qed.

Lemma has_value_isPublished (d : Document PassageDoc) :
  has_value field_of d "isPublished" (VBoolean true)
  = isPublished (doc_data d).
Proof. unfold has_value. cbn. by destruct (isPublished (doc_data d)). Qed.

(** X4.  On a reachable store [getPublishedPassagesBySubject(subject)]
    returns, whatever the caller's role, exactly the stored passages that are
    published and have the subject, each as often as it is stored, in
    ascending order of their titles; with the empty string as subject it
    returns the published passages of every subject. *)
Theorem getPublishedPassagesBySubject_sorted subject_ e :
  reachable e = true →
  ∃ l, (getPublishedPassagesBySubject subject_ e).1 = Returned l ∧
       l ≡ₚ List.filter
              (λ d, isPublished (doc_data d)
                    && (negb (Js.truthy subject_)
                        || String.eqb (subject (doc_data d)) subject_))
              (passages e) ∧
       StronglySorted title_le l.
Proof.
  intros Hreach.
  unfold getPublishedPassagesBySubject, getPassages, getDocs, constraints_of,
    publishedOnly.
  cbn [opt_subject opt_difficulty opt_publishedOnly opt_limitCount
       opt_orderByField opt_orderDirection truthy_string from_option id].
  destruct (Js.truthy subject_) eqn:Htruthy;
    cbn [app forallb acceptable andb io reachable passages fold_left fst
         apply_constraint negb orb];
    rewrite Hreach; cbn [andb fst]; change (String.eqb "asc" "desc") with false;
    cbv iota; eexists; (split; [reflexivity|]);
    (split; [|apply sort_by_title_sorted]);
    rewrite sort_Permutation, (filter_all (λ d, has_field field_of d "title"))
      by apply has_field_title.
  - rewrite filter_filter_andb.
    erewrite filter_ext; [reflexivity|].
    intros d. cbn beta. rewrite has_value_subject, has_value_isPublished.
    apply andb_comm.
  - erewrite filter_ext; [reflexivity|].
    intros d. cbn beta. rewrite has_value_isPublished. by rewrite andb_true_r.
Qed.

Lemma getPublishedPassagesBySubject_sorted_witness :
  ∃ l, (getPublishedPassagesBySubject "Biology" sample_env).1 = Returned l ∧
       ids l = ["p1"%string] ∧ StronglySorted title_le l.
Proof.
  destruct (getPublishedPassagesBySubject_sorted "Biology" sample_env eq_refl)
    as (l & Hl & _ & Hsorted).
  exists l. split; [exact Hl|]. split; [|exact Hsorted].
  vm_compute in Hl. injection Hl as <-. reflexivity.
Defined.

(** ** Search *)

Lemma append_cons c a b :
  String.append (String c a) b = String c (String.append a b).
Proof. done. Qed.

Lemma prefix_spec sub s :
  String.prefix sub s = true ↔ ∃ after, s = String.append sub after.
Proof.
  revert s. induction sub as [|c sub IH]; intros [|c' s]; cbn.
  - split; [by exists EmptyString | done].
  - split; [by eexists | done].
  - split; [done | by intros [? ?]].
  - destruct (Ascii.ascii_dec c c') as [->|Hc].
    + rewrite IH. split; intros [after H]; exists after;
        rewrite append_cons in *; congruence.
    + split; [done | intros [after H]; rewrite append_cons in H; congruence].
Qed.

Lemma includes_string_spec s sub :
  includes_string s sub = true ↔
  ∃ before after, s = String.append before (String.append sub after).
Proof.
  induction s as [|c s IH]; cbn [includes_string];
    rewrite orb_true_iff, prefix_spec.
  - split.
    + intros [[after H]|H]; [|done]. by exists EmptyString, after.
    + intros ([|? before] & after & H); [|done]. left. by exists after.
  - rewrite IH. split.
    + intros [[after H]|(before & after & H)].
      * by exists EmptyString, after.
      * exists (String c before), after. by rewrite append_cons, H.
    + intros ([|c' before] & after & H).
      * left. by exists after.
      * right. exists before, after. rewrite append_cons in H. congruence.
Qed.

Lemma toLowerCase_app a b :
  Js.toLowerCase (String.append a b)
  = String.append (Js.toLowerCase a) (Js.toLowerCase b).
Proof.
  induction a as [|c a IH]; [done|].
  rewrite append_cons. cbn [Js.toLowerCase]. by rewrite append_cons, IH.
Qed.

Lemma toLowerCase_app_inv s x y :
  Js.toLowerCase s = String.append x y →
  ∃ a b, s = String.append a b ∧ Js.toLowerCase a = x ∧ Js.toLowerCase b = y.
Proof.
  revert s. induction x as [|c x IH]; intros s.
  - intros H. by exists EmptyString, s.
  - rewrite append_cons.
    destruct s as [|c' s]; cbn [Js.toLowerCase]; [done|]. intros [= Hc Hs].
    destruct (IH _ Hs) as (a & b & -> & Ha & Hb).
    exists (String c' a), b. cbn [Js.toLowerCase]. by rewrite Hc, Ha, Hb.
Qed.

Lemma includes_toLowerCase s term :
  includes_string (Js.toLowerCase s) (Js.toLowerCase term) = true ↔
  occurs_ignoring_case term s.
Proof.
  rewrite includes_string_spec. unfold occurs_ignoring_case. split.
  - intros (x & z & H).
    apply toLowerCase_app_inv in H as (before & rest & -> & Hx & H).
    apply toLowerCase_app_inv in H as (found & after & -> & Hy & Hz).
    by exists before, found, after.
  - intros (before & found & after & -> & Hfound).
    exists (Js.toLowerCase before), (Js.toLowerCase after).
    by rewrite !toLowerCase_app, Hfound.
Qed.

Lemma filter_throwing_spec searchLower (all : list (Document PassageDoc)) :
  match filter_throwing (matches_search searchLower) all with
  | Some l =>
      Forall (λ d, is_Some (matches_search searchLower d)) all ∧
      l = List.filter (λ d, bool_decide (matches_search searchLower d
                                         = Some true)) all
  | None => Exists (λ d, matches_search searchLower d = None) all
  end.
Proof.
  induction all as [|d all IH]; cbn [filter_throwing List.filter].
  - by split.
  - destruct (matches_search searchLower d) as [keep|] eqn:Hd;
      [|by apply Exists_cons_hd].
    destruct (filter_throwing (matches_search searchLower) all) as [kept|];
      [|by apply Exists_cons_tl].
    destruct IH as [Hall ->]. split.
    + constructor; [by eexists | done].
    + by destruct keep.
Qed.

Lemma matches_search_spec term (d : Document PassageDoc) :
  (matches_search (Js.toLowerCase term) d = Some true ↔
   title_matches term d ∨ content_matches term d) ∧
  (matches_search (Js.toLowerCase term) d = None ↔
   ¬ title_matches term d ∧ content (doc_data d) = None).
Proof.
  unfold matches_search, title_matches, content_matches.
  destruct (includes_string (Js.toLowerCase (title (doc_data d)))
              (Js.toLowerCase term)) eqn:Htitle.
  - apply includes_toLowerCase in Htitle. split.
    + split; [by left | done].
    + split; [done | by intros [Hno _]].
  - assert (Hno : ¬ occurs_ignoring_case term (title (doc_data d))).
    { intros Hocc. apply includes_toLowerCase in Hocc. congruence. }
    destruct (content (doc_data d)) as [c|].
    + split.
      * split.
        -- intros [= Hc]. right. exists c. split; [done|].
           by apply includes_toLowerCase.
        -- intros [Ht | (c' & [= <-] & Hc)]; [done|].
           apply includes_toLowerCase in Hc. by rewrite Hc.
      * split; [done | by intros [_ ?]].
    + split.
      * split; [done | by intros [Ht | (c & ? & _)]].
      * split; [done | done].
Qed.

(** X5.  When [getPassages(options)] returns, [searchPassages(searchTerm,
    options)] with an empty search term returns the same passages.  With
    another search term it looks at the content of a passage only when the
    title does not hold the term, the case of the letters being ignored,
    and fails on a passage that has no [content].  So, when every listed
    passage whose title does not hold the term has a content, it returns
    exactly the listed passages in whose title or content the term occurs;
    and when some listed passage has neither the term in its title nor a
    content, it throws a [TypeError] and 'Search failed' is shown. *)
Theorem searchPassages_matches searchTerm options e all :
  (getPassages options e).1 = Returned all →
  (searchTerm = EmptyString →
   (searchPassages searchTerm options e).1 = Returned all) ∧
  (searchTerm ≠ EmptyString →
   (Forall (λ d, title_matches searchTerm d
                 ∨ is_Some (content (doc_data d))) all →
    ∃ l, (searchPassages searchTerm options e).1 = Returned l ∧
         ∀ d, d ∈ l ↔
              d ∈ all ∧
              (title_matches searchTerm d ∨ content_matches searchTerm d)) ∧
   (Exists (λ d, ¬ title_matches searchTerm d
                 ∧ content (doc_data d) = None) all →
    (searchPassages searchTerm options e).1 = Thrown "TypeError" ∧
    ShowToast "Search failed" "error"
    ∈ ui (searchPassages searchTerm options e).2)).
Proof.
  unfold searchPassages. destruct (getPassages options e) as [[all'|m] e1];
    cbn [fst]; [|done].
  intros [= ->]. split.
  - by intros ->.
  - intros Hterm.
    destruct searchTerm as [|c term]; [done|]. cbn [Js.truthy negb].
    pose proof (filter_throwing_spec (Js.toLowerCase (String c term)) all)
      as Hspec.
    destruct (filter_throwing _ all) as [l|]; cbn [fst snd].
    + destruct Hspec as [Hall ->]. split.
      * intros _. eexists. split; [reflexivity|]. intros d.
        rewrite elem_of_List_filter, bool_decide_eq_true.
        by rewrite (proj1 (matches_search_spec (String c term) d)).
      * intros Hex. exfalso.
        apply Exists_exists in Hex as (d & Hd & Hno).
        rewrite Forall_forall in Hall. destruct (Hall d Hd) as [b Hb].
        apply (proj2 (matches_search_spec (String c term) d)) in Hno.
        congruence.
    + split.
      * intros Hall. exfalso.
        apply Exists_exists in Hspec as (d & Hd & Hnone).
        apply (proj2 (matches_search_spec (String c term) d)) in Hnone
          as [Hno Hcontent].
        rewrite Forall_forall in Hall.
        destruct (Hall d Hd) as [Ht | [c' Hc']]; [done | congruence].
      * intros _. split; [done|]. cbn [log ui].
        apply elem_of_app. right.
        apply list_elem_of_further, list_elem_of_here.
Qed.

Lemma searchPassages_matches_witness :
  (∃ l, (searchPassages "CELL" no_options sample_env).1 = Returned l ∧
        ids l = ["p1"%string]) ∧
  (searchPassages "ROCK" no_options authored_env).1
  = Returned [mkDocument "p3"%string
                {| title := "Rocks"; subject := "Geology";
                   difficulty := "Hard"; content := None;
                   isPublished := true; createdBy := "admin1";
                   createdAt := 3000; updatedAt := 3000 |}] ∧
  (searchPassages "CELL" no_options authored_env).1 = Thrown "TypeError".
Proof.
  split; [|split].
  - destruct (searchPassages_matches "CELL" no_options sample_env
                [mkDocument "p1"%string (sample_doc "Cells" true 1000)]
                eq_refl) as (_ & Hsearch).
    destruct (Hsearch ltac:(discriminate)) as [Hfound _].
    destruct Hfound as (l & Hl & _).
    { constructor; [right; by eexists | constructor]. }
    exists l. split; [exact Hl|].
    vm_compute in Hl. injection Hl as <-. reflexivity.
  - by vm_compute.
  - destruct (searchPassages_matches "CELL" no_options authored_env
                [mkDocument "p3"%string
                   {| title := "Rocks"; subject := "Geology";
                      difficulty := "Hard"; content := None;
                      isPublished := true; createdBy := "admin1";
                      createdAt := 3000; updatedAt := 3000 |};
                 mkDocument "p1"%string (sample_doc "Cells" true 1000)]
                eq_refl) as (_ & Hsearch).
    destruct (Hsearch ltac:(discriminate)) as [_ Hthrows].
    apply Hthrows. apply Exists_cons_hd. split; [|reflexivity].
    intros Hocc. apply includes_toLowerCase in Hocc.
    vm_compute in Hocc. discriminate Hocc.
Defined.

(** ** Publishing *)

Lemma getPassages_default_student options am e l :
  isAdmin am = false →
  opt_publishedOnly options = None →
  (getPassages options (as_user am e)).1 = Returned l →
  ∀ d, d ∈ l → d ∈ passages e ∧ isPublished (doc_data d) = true.
Proof.
  intros Ham Hnone. unfold getPassages, getDocs.
  destruct (forallb acceptable _) eqn:Hacc; [|done].
  cbn [io as_user reachable passages authManager] in *.
  rewrite ?Hacc, ?andb_true_r.
  destruct (reachable e); cbn [fst]; [|done].
  intros [= <-] d Hd. split.
  - by apply fold_constraints_subseteq in Hd.
  - revert Hd. unfold constraints_of, publishedOnly.
    rewrite Hnone, Ham. cbn [from_option id negb]. rewrite app_assoc.
    apply fold_after_where_isPublished.
Qed.

Lemma getPassages_no_options_student am e :
  isAdmin am = false →
  reachable e = true →
  ∃ l, (getPassages no_options (as_user am e)).1 = Returned l ∧
       ∀ d, d ∈ passages e → isPublished (doc_data d) = true → d ∈ l.
Proof.
  intros Ham Hreach. unfold getPassages, getDocs, constraints_of, publishedOnly.
  cbn [no_options opt_subject opt_difficulty opt_publishedOnly opt_limitCount
       opt_orderByField opt_orderDirection truthy_string from_option id
       as_user authManager].
  rewrite Ham.
  cbn [app forallb acceptable andb io reachable passages fold_left fst
       apply_constraint negb as_user].
  rewrite Hreach. cbn [andb fst]. change (String.eqb "desc" "desc") with true.
  cbv iota. eexists. split; [reflexivity|]. intros d Hd Hpub.
  apply list_elem_of_In, in_rev. rewrite rev_involutive.
  apply list_elem_of_In, sort_elem_of.
  rewrite (filter_all (λ d, has_field field_of d "createdAt"))
    by apply has_field_createdAt.
  apply elem_of_List_filter. by rewrite has_value_isPublished.
Qed.

(** X6.  After [togglePassagePublished(passageId, isPublished)] has
    returned, a caller who is not an admin and leaves [publishedOnly] out
    sees the passage in the listing [getPassages()] when [isPublished] was
    [true], and in no listing [getPassages(options)], whatever the other
    options, when it was [false]. *)
Theorem togglePassagePublished_visibility passageId isPublished_ serverTime
    e am :
  (togglePassagePublished passageId isPublished_ serverTime e).1
    = Returned tt →
  isAdmin am = false →
  let e' :=
    as_user am (togglePassagePublished passageId isPublished_ serverTime e).2 in
  (isPublished_ = true →
   ∃ l, (getPassages no_options e').1 = Returned l ∧ passageId ∈ ids l) ∧
  (isPublished_ = false →
   ∀ options l,
     opt_publishedOnly options = None →
     (getPassages options e').1 = Returned l →
     passageId ∉ ids l).
Proof.
  unfold togglePassagePublished, updatePassage.
  destruct (isAdmin (authManager e)); cbn [negb]; [|done].
  cbn [log io authManager reachable passages].
  destruct (reachable e) eqn:Hreach; cbn [andb]; [|done].
  destruct (exists_doc passageId (passages e)) eqn:Hex; [|done].
  cbn [fst snd]. intros _ Ham.
  set (docs := map _ (passages e)).
  assert (Hdocs : ∀ d, d ∈ docs → doc_id d = passageId →
                       isPublished (doc_data d) = isPublished_).
  { intros d Hd Hid. unfold docs in Hd.
    apply list_elem_of_In, in_map_iff in Hd as (d0 & Hd0 & _).
    destruct (String.eqb_spec (doc_id d0) passageId) as [H0|H0].
    - by rewrite <- Hd0.
    - subst d0. done. }
  split.
  - intros ->.
    edestruct (getPassages_no_options_student am) as (l & Hl & Hin);
      [exact Ham| |].
    2: { exists l. split; [exact Hl|].
         apply exists_doc_find in Hex as [d Hfind].
         apply find_id_Some in Hfind as [Hd Hid].
         assert (Hd' : mkDocument (doc_id d)
                         (apply_updates
                            {| u_title := None; u_subject := None;
                               u_difficulty := None; u_content := None;
                               u_isPublished := Some true |}
                            serverTime (doc_data d)) ∈ docs).
         { unfold docs. apply list_elem_of_In, in_map_iff. exists d.
           rewrite Hid, String.eqb_refl. split; [done|].
           by apply list_elem_of_In. }
         apply Hin in Hd'; [|done].
         unfold ids. apply list_elem_of_In, in_map_iff.
         eexists. split; [|apply list_elem_of_In, Hd']. exact Hid. }
    exact Hreach.
  - intros -> options l Hnone Hl Hin.
    unfold ids in Hin. apply list_elem_of_In, in_map_iff in Hin as (d & Hid & Hd).
    apply list_elem_of_In in Hd.
    destruct (getPassages_default_student _ _ _ _ Ham Hnone Hl d Hd)
      as [Hstored Hpub].
    cbn [log io passages] in Hstored.
    rewrite (Hdocs d Hstored Hid) in Hpub. done.
Qed.

Lemma togglePassagePublished_visibility_witness :
  ∃ l, (getPassages no_options
          (as_user student
             (togglePassagePublished "p1" false 3000 admin_env).2)).1
       = Returned l ∧
       "p1"%string ∉ ids l.
Proof.
  exists []. split; [reflexivity|].
  apply (proj2 (togglePassagePublished_visibility "p1" false 3000 admin_env
                  student eq_refl eq_refl) eq_refl no_options [] eq_refl
           eq_refl).
Defined.

(** ** Statistics *)

Lemma filter_length_partition {A} (f : A → bool) (l : list A) :
  (length (List.filter f l) + length (List.filter (λ x, negb (f x)) l)
   = length l)%nat.
Proof.
  induction l as [|a l IH]; cbn; [done|].
  destruct (f a); cbn; lia.
Qed.

Lemma filter_Permutation {A} (f : A → bool) (l l' : list A) :
  l ≡ₚ l' → List.filter f l ≡ₚ List.filter f l'.
Proof.
  induction 1 as [|a l l' _ IH|a b l|l1 l2 l3 _ IH1 _ IH2]; cbn.
  - done.
  - destruct (f a); by rewrite IH.
  - destruct (f a), (f b); (done || apply Permutation_swap).
  - by rewrite IH1.
Qed.

Lemma bySubject_sum (keys : list string) (l : list (Document PassageDoc)) :
  NoDup keys →
  (sum_list
     (map (λ s, length (List.filter
                          (λ p, String.eqb (subject (doc_data p)) s) l))
        keys)
   ≤ length l)%nat.
Proof.
  intros Hkeys. induction l as [|d l IH]; cbn [List.filter length].
  - induction keys as [|k keys IHk]; cbn; [done|].
    apply NoDup_cons in Hkeys as [_ Hkeys]. by apply IHk.
  - assert (Hone :
      (sum_list
         (map (λ s, length (if String.eqb (subject (doc_data d)) s
                            then d :: List.filter
                                   (λ p, String.eqb (subject (doc_data p)) s) l
                            else List.filter
                                   (λ p, String.eqb (subject (doc_data p)) s) l))
            keys)
       ≤ 1 + sum_list
           (map (λ s, length (List.filter
                                (λ p, String.eqb (subject (doc_data p)) s) l))
              keys))%nat).
    { clear IH. induction Hkeys as [|k keys Hk Hkeys IHk]; cbn; [lia|].
      destruct (String.eqb_spec (subject (doc_data d)) k) as [Heq|Hne];
        cbn [length]; [|lia].
      assert (Hrest :
        map (λ s, length (if String.eqb (subject (doc_data d)) s
                          then d :: List.filter
                                 (λ p, String.eqb (subject (doc_data p)) s) l
                          else List.filter
                                 (λ p, String.eqb (subject (doc_data p)) s) l))
          keys
        = map (λ s, length (List.filter
                              (λ p, String.eqb (subject (doc_data p)) s) l))
            keys).
      { apply map_ext_in. intros s Hs.
        destruct (String.eqb_spec (subject (doc_data d)) s) as [Hs'|]; [|done].
        exfalso. apply Hk. apply list_elem_of_In. congruence. }
      rewrite Hrest. lia. }
    lia.
Qed.

(** X7.  For an admin on a reachable store [getPassageStats] returns
    statistics of the whole collection: [total] is the number of stored
    passages, [published] and [drafts] are the numbers of the published and
    of the unpublished ones and add up to [total], each entry of
    [bySubject] is the number of stored passages of its subject, and these
    entries together do not exceed [total]. *)
Theorem getPassageStats_counts e :
  isAdmin (authManager e) = true →
  reachable e = true →
  ∃ stats,
    (getPassageStats e).1 = Returned stats ∧
    total stats = length (passages e) ∧
    published stats
      = length (List.filter (λ p, isPublished (doc_data p)) (passages e)) ∧
    drafts stats
      = length (List.filter (λ p, negb (isPublished (doc_data p)))
                  (passages e)) ∧
    (published stats + drafts stats = total stats)%nat ∧
    bySubject stats
      = map (λ s, (s, length (List.filter
                                (λ p, String.eqb (subject (doc_data p)) s)
                                (passages e))))
          subjects ∧
    (sum_list (map snd (bySubject stats)) ≤ total stats)%nat.
Proof.
  intros Hadmin Hreach.
  unfold getPassageStats, getPassages, getDocs, constraints_of, publishedOnly.
  rewrite Hadmin.
  cbn [negb opt_subject opt_difficulty opt_publishedOnly opt_limitCount
       opt_orderByField opt_orderDirection truthy_string from_option id
       app forallb acceptable andb io reachable passages fold_left fst
       apply_constraint].
  rewrite Hreach. cbn [andb fst]. change (String.eqb "desc" "desc") with true.
  cbv iota.
  rewrite (filter_all (λ d, has_field field_of d "createdAt"))
    by apply has_field_createdAt.
  set (all := rev (Js.sort _ (passages e))).
  assert (Hall : all ≡ₚ passages e).
  { unfold all. by rewrite <- Permutation_rev, sort_Permutation. }
  eexists. split; [reflexivity|].
  cbn [total published drafts bySubject].
  assert (Hby :
    map (λ s, (s, length (List.filter
                            (λ p, String.eqb (subject (doc_data p)) s) all)))
      subjects
    = map (λ s, (s, length (List.filter
                              (λ p, String.eqb (subject (doc_data p)) s)
                              (passages e))))
        subjects).
  { apply map_ext. intros s. f_equal.
    apply Permutation_length, filter_Permutation, Hall. }
  repeat split.
  - by rewrite Hall.
  - apply Permutation_length, filter_Permutation, Hall.
  - apply Permutation_length, filter_Permutation, Hall.
  - apply filter_length_partition.
  - exact Hby.
  - rewrite Hby, map_map. cbn [snd]. rewrite Hall.
    apply bySubject_sum. unfold subjects.
    repeat (apply NoDup_cons; split;
            [intros Hin; repeat (apply elem_of_cons in Hin as [Hin|Hin];
                                 [discriminate Hin|]);
             by apply elem_of_nil in Hin|]).
    apply NoDup_nil_2.
Qed.

Lemma getPassageStats_counts_witness :
  ∃ stats,
    (getPassageStats admin_env).1 = Returned stats ∧
    total stats = 2%nat ∧ published stats = 1%nat ∧ drafts stats = 1%nat.
Proof.
  destruct (getPassageStats_counts admin_env eq_refl eq_refl)
    as (stats & Hstats & Htotal & Hpublished & Hdrafts & _).
  exists stats. split; [exact Hstats|].
  rewrite Htotal, Hpublished, Hdrafts. repeat split.
Defined.

(** ** Retaking from the dashboard *)

Lemma elem_of_rev {A} (l : list A) x : x ∈ rev l ↔ x ∈ l.
Proof. rewrite !list_elem_of_In. symmetry. apply in_rev. Qed.

(** X8.  On a reachable store the dashboard's [retakeQuiz(passageId)]
    navigates to the quiz page of the passage exactly when a published
    passage with that id is stored, whatever the role of the caller;
    otherwise it reports that the passage is not available and does not
    navigate. *)
Theorem dashboard_retakeQuiz_navigates passageId e :
  reachable e = true →
  ((∃ d, d ∈ passages e ∧ doc_id d = passageId ∧
         isPublished (doc_data d) = true) →
   (dashboard_retakeQuiz passageId e).1
   = Navigate (String.append "/quiz?passage=" passageId)) ∧
  ((¬ ∃ d, d ∈ passages e ∧ doc_id d = passageId ∧
           isPublished (doc_data d) = true) →
   (dashboard_retakeQuiz passageId e).1 = NotAvailable).
Proof.
  intros Hreach.
  unfold dashboard_retakeQuiz, getPassages, getDocs, constraints_of,
    publishedOnly.
  cbn [negb opt_subject opt_difficulty opt_publishedOnly opt_limitCount
       opt_orderByField opt_orderDirection truthy_string from_option id
       app forallb acceptable andb io reachable passages fold_left fst
       apply_constraint].
  rewrite Hreach. cbn [andb fst]. change (String.eqb "desc" "desc") with true.
  cbv iota.
  rewrite (filter_all (λ d, has_field field_of d "createdAt"))
    by apply has_field_createdAt.
  set (listed := rev (Js.sort _ _)).
  assert (Hlisted : ∀ d, d ∈ listed ↔
                         d ∈ passages e ∧ isPublished (doc_data d) = true).
  { intros d. unfold listed.
    rewrite <- (elem_of_List_filter (λ d, isPublished (doc_data d))).
    rewrite elem_of_rev, sort_elem_of.
    erewrite filter_ext; [reflexivity|].
    intros d'. apply has_value_isPublished. }
  split.
  - intros (d & Hd & Hid & Hpub).
    destruct (find_id_is_Some passageId listed d) as [d' ->];
      [by apply Hlisted | done | done].
  - intros Hnone.
    destruct (List.find _ listed) as [d|] eqn:Hfind; [|done].
    exfalso. apply Hnone. apply find_id_Some in Hfind as [Hd Hid].
    apply Hlisted in Hd as [Hd Hpub]. by exists d.
Qed.

Lemma dashboard_retakeQuiz_navigates_witness :
  (dashboard_retakeQuiz "p1" sample_env).1 = Navigate "/quiz?passage=p1" ∧
  (dashboard_retakeQuiz "p2" admin_env).1 = NotAvailable.
Proof.
  split.
  - apply (proj1 (dashboard_retakeQuiz_navigates "p1" sample_env eq_refl)).
    exists (mkDocument "p1"%string (sample_doc "Cells" true 1000)).
    split; [left | split; reflexivity].
  - apply (proj2 (dashboard_retakeQuiz_navigates "p2" admin_env eq_refl)).
    intros (d & Hd & Hid & Hpub). vm_compute in Hd.
    apply elem_of_cons in Hd as [->|Hd]; [discriminate Hid|].
    apply elem_of_cons in Hd as [->|Hd]; [discriminate Hpub|].
    by apply elem_of_nil in Hd.
Defined.

End PassagesMoreFacts.

(* ===================================================================== *)
(** * More properties of the attempts repository *)
(* ===================================================================== *)

Module AttemptsMoreFacts.
Import JsNumber Platform Firestore Attempts AttemptsMore JsFacts AttemptsFacts.

(** The limit only cuts the list: the sorted list [all] of the attempts
    that pass the filters does not depend on it. *)
Lemma getAttemptsForUser_limit s d1 d2 lim now e l :
  (getAttemptsForUser
     {| opt_subject := s; opt_startDate := d1; opt_endDate := d2;
        opt_limitCount := Some lim |} now e).1 = Returned l →
  ∃ all,
    l = Js.slice0 all lim ∧
    StronglySorted newest_first_attempt all ∧
    ∀ lim',
      (getAttemptsForUser
         {| opt_subject := s; opt_startDate := d1; opt_endDate := d2;
            opt_limitCount := Some lim' |} now e).1
      = Returned (Js.slice0 all lim').
Proof.
  unfold getAttemptsForUser.
  destruct (isAuthenticated (authManager e)); cbn [negb fst]; [|done].
  cbn [opt_subject opt_startDate opt_endDate opt_limitCount from_option
       Datatypes.id].
  destruct (getDocs _ _ _ _) as [querySnapshot|m]; cbn [fst]; [|done].
  intros [= <-]. eexists. split; [reflexivity|]. split; [|done].
  apply sort_sorted. done.
Qed.

(** X9.  [getRecentAttempts(n)] returns the first [n] attempts of what
    [getRecentAttempts(m)] returns for any [m] from [n] on: a longer
    listing extends a shorter one, newest first, and never reorders it;
    without an argument the count is ten. *)
Theorem getRecentAttempts_prefix n m now e lm :
  0 ≤ n ≤ m →
  (getRecentAttempts (Some m) now e).1 = Returned lm →
  (getRecentAttempts (Some n) now e).1 = Returned (take (Z.to_nat n) lm) ∧
  (length (take (Z.to_nat n) lm) ≤ Z.to_nat n)%nat ∧
  StronglySorted newest_first_attempt lm ∧
  getRecentAttempts None now e = getRecentAttempts (Some 10) now e.
Proof.
  intros Hnm Hm. unfold getRecentAttempts in *.
  cbn [from_option Datatypes.id] in *.
  apply getAttemptsForUser_limit in Hm as (all & -> & Hsorted & Hall).
  rewrite Hall, !slice0_nonneg by lia.
  split; [|split; [|split; [|done]]].
  - f_equal. rewrite take_take. f_equal. symmetry. apply Nat.min_l. lia.
  - rewrite length_take. lia.
  - by apply StronglySorted_take.
Qed.

Lemma getRecentAttempts_prefix_witness :
  ∃ l, (getRecentAttempts (Some 1) 5000 sample_env).1 = Returned l ∧
       map id l = ["a2"%string].
Proof.
  destruct (getRecentAttempts_prefix 1 2 5000 sample_env
              [view 5000 (mkDocument "a2" (sample_attempt "alice" "Physics" 3000));
               view 5000 (mkDocument "a1" (sample_attempt "alice" "Biology" 1000))]
              ltac:(lia) eq_refl) as (Hl & _).
  eexists. split; [exact Hl | reflexivity].
Defined.

(** ** Statistics *)

Lemma Math_max_ge first rest : first ≤ Math_max first rest.
Proof.
  unfold Math_max. revert first.
  induction rest as [|x rest IH]; intros first; cbn; [lia|].
  etrans; [|apply IH]. lia.
Qed.

Lemma Math_max_spec first rest :
  (∀ x, x ∈ first :: rest → x ≤ Math_max first rest) ∧
  Math_max first rest ∈ first :: rest.
Proof.
  revert first. induction rest as [|y rest IH]; intros first.
  - split; [|left]. intros x Hx. apply list_elem_of_singleton in Hx as ->.
    done.
  - destruct (IH (Z.max first y)) as [Hle Hin].
    change (Math_max first (y :: rest)) with (Math_max (Z.max first y) rest).
    split.
    + intros x Hx. apply elem_of_cons in Hx as [->|Hx].
      * etrans; [|apply Math_max_ge]. lia.
      * apply elem_of_cons in Hx as [->|Hx].
        -- etrans; [|apply Math_max_ge]. lia.
        -- apply Hle. by right.
    + apply elem_of_cons in Hin as [Hin|Hin].
      * rewrite Hin. destruct (Z.max_spec first y) as [[_ ->]|[_ ->]].
        -- right. left.
        -- left.
      * right. by right.
Qed.

Lemma Math_max_scores (first : Attempt) rest :
  (∀ a, a ∈ first :: rest →
        score (data a)
        ≤ Math_max (score (data first)) (map (λ a, score (data a)) rest)) ∧
  ∃ a, a ∈ first :: rest ∧
       score (data a)
       = Math_max (score (data first)) (map (λ a, score (data a)) rest).
Proof.
  destruct (Math_max_spec (score (data first))
              (map (λ a, score (data a)) rest)) as [Hle Hin].
  split.
  - intros a Ha. apply Hle.
    change (score (data first) :: map (λ a, score (data a)) rest)
      with (map (λ a, score (data a)) (first :: rest)).
    apply list_elem_of_In.
    apply (in_map (λ a : Attempt, score (data a))), list_elem_of_In, Ha.
  - change (score (data first) :: map (λ a, score (data a)) rest)
      with (map (λ a, score (data a)) (first :: rest)) in Hin.
    apply list_elem_of_In, in_map_iff in Hin as (a & Ha & Hin).
    exists a. split; [by apply list_elem_of_In | done].
Qed.

Lemma getUserStats_Returned now e attempts_ :
  (getAttemptsForUser limit_1000 now e).1 = Returned attempts_ →
  (getUserStats now e).1 = Returned (stats_of attempts_) ∧
  StronglySorted newest_first_attempt attempts_ ∧
  (length attempts_ ≤ 1000)%nat.
Proof.
  intros Hl. unfold getUserStats.
  assert (Hauth : isAuthenticated (authManager e) = true).
  { revert Hl. unfold getAttemptsForUser.
    by destruct (isAuthenticated (authManager e)). }
  rewrite Hauth. cbn [negb].
  destruct (getAttemptsForUser limit_1000 now e) as [[l|m] e1] eqn:Hget;
    cbn [fst] in *; [|done].
  injection Hl as ->. split; [done|].
  assert (Hget' : (getAttemptsForUser limit_1000 now e).1 = Returned attempts_)
    by (by rewrite Hget).
  apply getAttemptsForUser_limit in Hget' as (all & -> & Hsorted & _).
  rewrite slice0_nonneg by lia. split; [by apply StronglySorted_take|].
  rewrite length_take. change (Z.to_nat 1000) with 1000%nat. lia.
Qed.

(** X10.  The statistics that [getUserStats] returns are those of the
    attempts that [getAttemptsForUser({limitCount: 1000})] returns, at most
    a thousand: [totalAttempts] is their number; no attempt has a score
    above [bestScore], and one has exactly that score; [recentScore] is the
    score of an attempt that none is newer than; without any attempt, all
    the numbers are zero. *)
Theorem getUserStats_overall now e attempts_ :
  (getAttemptsForUser limit_1000 now e).1 = Returned attempts_ →
  ∃ stats,
    (getUserStats now e).1 = Returned stats ∧
    totalAttempts stats = length attempts_ ∧
    (totalAttempts stats ≤ 1000)%nat ∧
    (∀ a, a ∈ attempts_ → score (data a) ≤ bestScore stats) ∧
    (attempts_ ≠ [] →
     (∃ a, a ∈ attempts_ ∧ score (data a) = bestScore stats) ∧
     (∃ a, a ∈ attempts_ ∧ score (data a) = recentScore stats ∧
           ∀ b, b ∈ attempts_ → attemptedAt_date b ≤ attemptedAt_date a)) ∧
    (attempts_ = [] →
     bestScore stats = 0 ∧ recentScore stats = 0 ∧
     averageScore stats = of_Z 0 ∧ totalTimeMinutes stats = of_Z 0 ∧
     subjectStats stats = [] ∧ scoreHistory stats = []).
Proof.
  intros Hl. apply getUserStats_Returned in Hl as (Hstats & Hsorted & Hlen).
  exists (stats_of attempts_). split; [exact Hstats|].
  destruct attempts_ as [|first rest].
  - cbn. repeat split; try done. intros a Ha. by apply elem_of_nil in Ha.
  - cbn [stats_of totalAttempts bestScore recentScore].
    destruct (Math_max_scores first rest) as [Hle Hin].
    split; [done|]. split; [done|]. split; [exact Hle|]. split; [|done].
    intros _. split; [exact Hin|].
    exists first. split; [left|]. split; [done|].
    intros b Hb. apply elem_of_cons in Hb as [->|Hb]; [done|].
    apply StronglySorted_inv in Hsorted as [_ Hfirst].
    rewrite Forall_forall in Hfirst. by apply Hfirst.
Qed.

Lemma getUserStats_overall_witness :
  ∃ stats,
    (getUserStats 5000 sample_env).1 = Returned stats ∧
    totalAttempts stats = 2%nat ∧ bestScore stats = 80 ∧
    recentScore stats = 80.
Proof.
  destruct (getUserStats_overall 5000 sample_env
              [view 5000 (mkDocument "a2" (sample_attempt "alice" "Physics" 3000));
               view 5000 (mkDocument "a1" (sample_attempt "alice" "Biology" 1000))]
              eq_refl) as (stats & Hstats & _).
  exists stats. split; [exact Hstats|].
  vm_compute in Hstats. injection Hstats as <-. repeat split.
Defined.

Lemma StronglySorted_snoc {A} (R : A → A → Prop) l x :
  StronglySorted R l → Forall (λ y, R y x) l → StronglySorted R (l ++ [x]).
Proof.
  induction 1 as [|a l Hs IH Ha]; intros Hx; cbn.
  - repeat constructor.
  - apply Forall_cons in Hx as [Hax Hx].
    constructor; [by apply IH|].
    apply Forall_app. split; [done|]. by constructor.
Qed.

Lemma StronglySorted_rev {A} (R : A → A → Prop) l :
  StronglySorted R l → StronglySorted (λ a b, R b a) (rev l).
Proof.
  induction 1 as [|a l Hs IH Ha]; cbn; [constructor|].
  apply StronglySorted_snoc; [done|].
  apply Forall_forall. intros y Hy. rewrite Forall_forall in Ha. apply Ha.
  apply list_elem_of_In. apply list_elem_of_In in Hy. by apply in_rev.
Qed.

Lemma StronglySorted_app_inv {A} (R : A → A → Prop) l1 l2 a b :
  StronglySorted R (l1 ++ l2) → a ∈ l1 → b ∈ l2 → R a b.
Proof.
  induction l1 as [|x l1 IH]; cbn; intros Hs Ha Hb.
  - by apply elem_of_nil in Ha.
  - apply StronglySorted_inv in Hs as [Hs Hx].
    apply elem_of_cons in Ha as [->|Ha]; [|by apply IH].
    rewrite Forall_forall in Hx. apply Hx. apply elem_of_app. by right.
Qed.

(** X11.  The [scoreHistory] of [getUserStats], which the dashboard draws
    as a chart, holds the twenty newest of the attempts (all of them when
    there are fewer), ordered from the oldest to the newest: the attempts
    are the history read backwards followed by attempts that are no newer
    than any attempt of the history. *)
Theorem getUserStats_scoreHistory now e attempts_ :
  (getAttemptsForUser limit_1000 now e).1 = Returned attempts_ →
  ∃ stats,
    (getUserStats now e).1 = Returned stats ∧
    StronglySorted oldest_first (scoreHistory stats) ∧
    length (scoreHistory stats) = (20 `min` length attempts_)%nat ∧
    ∃ older,
      attempts_ = rev (scoreHistory stats) ++ older ∧
      ∀ a b, a ∈ scoreHistory stats → b ∈ older →
             attemptedAt_date b ≤ attemptedAt_date a.
Proof.
  intros Hl. apply getUserStats_Returned in Hl as (Hstats & Hsorted & _).
  exists (stats_of attempts_). split; [exact Hstats|].
  assert (Hhistory : scoreHistory (stats_of attempts_) = rev (take 20 attempts_)).
  { destruct attempts_; [done|]. cbn [stats_of scoreHistory].
    by rewrite slice0_nonneg by lia. }
  rewrite Hhistory. split; [|split].
  - apply (StronglySorted_rev newest_first_attempt).
    by apply StronglySorted_take.
  - by rewrite length_rev, length_take.
  - exists (drop 20 attempts_). rewrite rev_involutive, take_drop.
    split; [done|]. intros a b Ha Hb.
    rewrite PassagesMoreFacts.elem_of_rev in Ha.
    rewrite <- (take_drop 20 attempts_) in Hsorted.
    exact (StronglySorted_app_inv _ _ _ _ _ Hsorted Ha Hb).
Qed.

Lemma getUserStats_scoreHistory_witness :
  ∃ stats,
    (getUserStats 5000 sample_env).1 = Returned stats ∧
    map id (scoreHistory stats) = ["a1"; "a2"]%string ∧
    StronglySorted oldest_first (scoreHistory stats).
Proof.
  destruct (getUserStats_scoreHistory 5000 sample_env
              [view 5000 (mkDocument "a2" (sample_attempt "alice" "Physics" 3000));
               view 5000 (mkDocument "a1" (sample_attempt "alice" "Biology" 1000))]
              eq_refl) as (stats & Hstats & Hsorted & _).
  exists stats. split; [exact Hstats|]. split; [|exact Hsorted].
  vm_compute in Hstats. injection Hstats as <-. reflexivity.
Defined.

Lemma StronglySorted_filter {A} (R : A → A → Prop) (f : A → bool) l :
  StronglySorted R l → StronglySorted R (List.filter f l).
Proof.
  induction 1 as [|a l Hs IH Ha]; cbn; [constructor|].
  destruct (f a); [|exact IH]. constructor; [exact IH|].
  apply Forall_forall. intros x Hx. rewrite Forall_forall in Ha. apply Ha.
  by apply elem_of_List_filter in Hx as [Hx _].
Qed.

Lemma filter_length_le {A} (f : A → bool) (l : list A) :
  (length (List.filter f l) ≤ length l)%nat.
Proof. induction l as [|a l IH]; cbn; [done|]. destruct (f a); cbn; lia. Qed.

Lemma by_subject_sum (keys : list string) (l : list Attempt) :
  NoDup keys →
  (sum_list
     (map (λ s, length (List.filter
                          (λ a, String.eqb (subject (data a)) s) l))
        keys)
   ≤ length l)%nat.
Proof.
  intros Hkeys. induction l as [|d l IH]; cbn [List.filter length].
  - induction keys as [|k keys IHk]; cbn; [done|].
    apply NoDup_cons in Hkeys as [_ Hkeys]. by apply IHk.
  - assert (Hone :
      (sum_list
         (map (λ s, length (if String.eqb (subject (data d)) s
                            then d :: List.filter
                                   (λ a, String.eqb (subject (data a)) s) l
                            else List.filter
                                   (λ a, String.eqb (subject (data a)) s) l))
            keys)
       ≤ 1 + sum_list
           (map (λ s, length (List.filter
                                (λ a, String.eqb (subject (data a)) s) l))
              keys))%nat).
    { clear IH. induction Hkeys as [|k keys Hk Hkeys IHk]; cbn; [lia|].
      destruct (String.eqb_spec (subject (data d)) k) as [Heq|Hne];
        cbn [length]; [|lia].
      assert (Hrest :
        map (λ s, length (if String.eqb (subject (data d)) s
                          then d :: List.filter
                                 (λ a, String.eqb (subject (data a)) s) l
                          else List.filter
                                 (λ a, String.eqb (subject (data a)) s) l))
          keys
        = map (λ s, length (List.filter
                              (λ a, String.eqb (subject (data a)) s) l))
            keys).
      { apply map_ext_in. intros s Hs.
        destruct (String.eqb_spec (subject (data d)) s) as [Hs'|]; [|done].
        exfalso. apply Hk. apply list_elem_of_In. congruence. }
      rewrite Hrest. lia. }
    lia.
Qed.

Lemma subject_stats_attempts attempts_ s :
  s_attempts (subject_stats attempts_ s)
  = length (List.filter (λ a, String.eqb (subject (data a)) s) attempts_).
Proof. unfold subject_stats. by destruct (List.filter _ attempts_). Qed.

(** X12.  The [subjectStats] of [getUserStats], when there is an attempt at
    all, have one entry for each of the five subjects, in their order.  The
    entry of a subject counts the attempts of that subject; when there is
    one, [bestScore] is the highest score among them, reached by one of
    them and not above the overall [bestScore], and [recentScore] is the
    score of one of them that none of them is newer than; when there is
    none, the numbers of the entry are zero.  The counts of the entries
    together do not exceed [totalAttempts]. *)
Theorem getUserStats_subjectStats now e attempts_ :
  (getAttemptsForUser limit_1000 now e).1 = Returned attempts_ →
  attempts_ ≠ [] →
  ∃ stats,
    (getUserStats now e).1 = Returned stats ∧
    map fst (subjectStats stats) = subjects ∧
    (∀ s st, (s, st) ∈ subjectStats stats →
       let mine :=
         List.filter (λ a, String.eqb (subject (data a)) s) attempts_ in
       s_attempts st = length mine ∧
       (mine ≠ [] →
        (∀ a, a ∈ mine → score (data a) ≤ s_bestScore st) ∧
        (∃ a, a ∈ mine ∧ score (data a) = s_bestScore st) ∧
        s_bestScore st ≤ bestScore stats ∧
        (∃ a, a ∈ mine ∧ score (data a) = s_recentScore st ∧
              ∀ b, b ∈ mine → attemptedAt_date b ≤ attemptedAt_date a)) ∧
       (mine = [] →
        s_bestScore st = 0 ∧ s_recentScore st = 0 ∧
        s_averageScore st = of_Z 0)) ∧
    (sum_list (map (λ entry, s_attempts entry.2) (subjectStats stats))
     ≤ totalAttempts stats)%nat.
Proof.
  intros Hl Hnonempty.
  apply getUserStats_Returned in Hl as (Hstats & Hsorted & _).
  assert (Hbest : ∀ a, a ∈ attempts_ →
            score (data a) ≤ bestScore (stats_of attempts_)).
  { destruct attempts_ as [|first rest]; [done|].
    by destruct (Math_max_scores first rest) as [Hle _]. }
  exists (stats_of attempts_). split; [exact Hstats|].
  destruct attempts_ as [|first rest] eqn:Hattempts; [done|].
  rewrite <- Hattempts in *. clear Hnonempty.
  assert (Hsubjects : subjectStats (stats_of attempts_)
                      = map (λ s, (s, subject_stats attempts_ s)) subjects).
  { by rewrite Hattempts. }
  assert (Htotal : totalAttempts (stats_of attempts_) = length attempts_).
  { by rewrite Hattempts. }
  rewrite Hsubjects, Htotal. split; [|split].
  - rewrite map_map. cbn [fst]. apply map_id.
  - intros s st Hin mine.
    apply list_elem_of_In, in_map_iff in Hin as (s' & [= -> <-] & _).
    split; [apply subject_stats_attempts|].
    unfold subject_stats. fold mine.
    assert (Hmine_sorted : StronglySorted newest_first_attempt mine)
      by (by apply StronglySorted_filter).
    assert (Hmine_sub : ∀ a, a ∈ mine → a ∈ attempts_).
    { intros a Ha. by apply elem_of_List_filter in Ha as [Ha _]. }
    destruct mine as [|first' rest']; [done|].
    split; [|done]. intros _.
    cbn [s_bestScore s_recentScore].
    destruct (Math_max_scores first' rest') as [Hle (a & Ha & Hmax)].
    split; [exact Hle|]. split; [by exists a|]. split.
    + rewrite <- Hmax. apply Hbest, Hmine_sub, Ha.
    + exists first'. split; [left|]. split; [done|].
      intros b Hb. apply elem_of_cons in Hb as [->|Hb]; [done|].
      apply StronglySorted_inv in Hmine_sorted as [_ Hfirst].
      rewrite Forall_forall in Hfirst. by apply Hfirst.
  - rewrite map_map. cbn [snd].
    erewrite map_ext; [|intros s; apply subject_stats_attempts].
    apply by_subject_sum. unfold subjects.
    repeat (apply NoDup_cons; split;
            [intros Hin; repeat (apply elem_of_cons in Hin as [Hin|Hin];
                                 [discriminate Hin|]);
             by apply elem_of_nil in Hin|]).
    apply NoDup_nil_2.
Qed.

Lemma getUserStats_subjectStats_witness :
  ∃ stats,
    (getUserStats 5000 sample_env).1 = Returned stats ∧
    map (λ entry, (entry.1, s_attempts entry.2)) (subjectStats stats)
    = [("Biology", 1); ("Chemistry", 0); ("Physics", 1); ("Geology", 0);
       ("English", 0)]%string%nat.
Proof.
  destruct (getUserStats_subjectStats 5000 sample_env
              [view 5000 (mkDocument "a2" (sample_attempt "alice" "Physics" 3000));
               view 5000 (mkDocument "a1" (sample_attempt "alice" "Biology" 1000))]
              eq_refl ltac:(discriminate)) as (stats & Hstats & _).
  exists stats. split; [exact Hstats|].
  vm_compute in Hstats. injection Hstats as <-. reflexivity.
Defined.

(** X13.  The favorite subject that the dashboard shows is ["-"] when no
    subject of the statistics has an attempt; otherwise it is a subject of
    the statistics that has an attempt and that no other subject has more
    attempts than. *)
Theorem favoriteSubject_most_attempts stats :
  (Forall (λ entry, s_attempts entry.2 = 0%nat) (subjectStats stats) →
   favoriteSubject stats = "-"%string) ∧
  (¬ Forall (λ entry, s_attempts entry.2 = 0%nat) (subjectStats stats) →
   ∃ st, (favoriteSubject stats, st) ∈ subjectStats stats ∧
         (0 < s_attempts st)%nat ∧
         ∀ entry, entry ∈ subjectStats stats →
                  (s_attempts entry.2 ≤ s_attempts st)%nat).
Proof.
  unfold favoriteSubject.
  set (attempted := List.filter _ (subjectStats stats)).
  set (compare := λ a b : string * SubjectStats,
         Z.of_nat (s_attempts b.2) - Z.of_nat (s_attempts a.2)).
  assert (Hattempted : ∀ entry, entry ∈ attempted ↔
            entry ∈ subjectStats stats ∧ (0 < s_attempts entry.2)%nat).
  { intros entry. unfold attempted. rewrite elem_of_List_filter.
    by rewrite Nat.ltb_lt. }
  pose proof (sort_sorted compare (λ entry, Z.of_nat (s_attempts entry.2))
                ltac:(done) attempted) as Hsorted.
  pose proof (sort_elem_of compare) as Hsort.
  split.
  - intros Hnone.
    assert (Hempty : Js.sort compare attempted = []).
    { destruct (Js.sort compare attempted) as [|entry l] eqn:Hl; [done|].
      assert (Hin : entry ∈ attempted) by (apply Hsort; rewrite Hl; left).
      apply Hattempted in Hin as [Hin Hpos].
      rewrite Forall_forall in Hnone. specialize (Hnone _ Hin). lia. }
    by rewrite Hempty.
  - intros Hsome.
    destruct (Js.sort compare attempted) as [|[s st] l] eqn:Hl.
    + exfalso. apply Hsome, Forall_forall. intros entry Hin.
      destruct (s_attempts entry.2) as [|n] eqn:Hn; [done|].
      assert (Hentry : entry ∈ attempted) by (apply Hattempted; split; [done|lia]).
      apply Hsort in Hentry. rewrite Hl in Hentry. by apply elem_of_nil in Hentry.
    + assert (Hin : (s, st) ∈ attempted) by (apply Hsort; rewrite Hl; left).
      apply Hattempted in Hin as [Hin Hpos].
      exists st. cbn [fst]. split; [done|]. split; [done|].
      intros entry Hentry.
      destruct (s_attempts entry.2) as [|n] eqn:Hn; [lia|].
      assert (Hentry' : entry ∈ (s, st) :: l).
      { rewrite <- Hl. apply Hsort, Hattempted. split; [done|lia]. }
      apply elem_of_cons in Hentry' as [->|Hentry'].
      * cbn in Hn. lia.
      * apply StronglySorted_inv in Hsorted as [_ Hfirst].
        rewrite Forall_forall in Hfirst. specialize (Hfirst _ Hentry').
        unfold Js.newest_first in Hfirst. cbn [snd] in Hfirst. lia.
Qed.

Lemma favoriteSubject_most_attempts_witness :
  favoriteSubject (stats_of (replicate 2 (view 0 (mkDocument "a"
                     (sample_attempt "alice" "Physics" 1)))
                   ++ [view 0 (mkDocument "b"
                     (sample_attempt "alice" "Biology" 0))]))
  = "Physics"%string ∧
  favoriteSubject (stats_of []) = "-"%string.
Proof.
  split; [reflexivity|].
  apply (proj1 (favoriteSubject_most_attempts (stats_of []))).
  constructor.
Defined.

(** X14.  [getAttemptsForPassage] never returns a list.  Without a
    signed-in user it throws "Authentication required"; with one, building
    the query throws a [ReferenceError], because [orderBy] is not among the
    names that the module imports: the store is not queried, and the error
    is logged and thrown again. *)
Theorem getAttemptsForPassage_never_returns passageId_ now e :
  ∃ message,
    (getAttemptsForPassage passageId_ now e).1 = Thrown message ∧
    attempts (getAttemptsForPassage passageId_ now e).2 = attempts e ∧
    (isAuthenticated (authManager e) = true →
     message = "ReferenceError"%string ∧
     ui (getAttemptsForPassage passageId_ now e).2
     = ui e ++ [ConsoleError "Error getting passage attempts:"]) ∧
    (isAuthenticated (authManager e) = false →
     message = "Authentication required"%string ∧
     (getAttemptsForPassage passageId_ now e).2 = e).
Proof.
  unfold getAttemptsForPassage.
  destruct (isAuthenticated (authManager e)); cbn [negb].
  - change (forallb bound _) with false. cbv iota. cbn [fst snd log attempts ui].
    eexists. by repeat split.
  - eexists. by repeat split.
Qed.

End AttemptsMoreFacts.

(* ===================================================================== *)
(** * More properties of the quiz page *)
(* ===================================================================== *)

Module QuizMoreFacts.
Import JsNumber QuizData Quiz QuizMore QuizFacts ScoreFacts.

Lemma calculateScore_fields p userAnswers startTime now :
  correct (calculateScore p userAnswers startTime now)
  = length (correct_indices userAnswers (questions p)) ∧
  total (calculateScore p userAnswers startTime now) = length (questions p) ∧
  timeElapsed (calculateScore p userAnswers startTime now)
  = elapsed_seconds now startTime.
Proof. unfold calculateScore. by rewrite score_loop_spec. Qed.

Lemma clearInterval_timer handle w :
  timerInterval (clearInterval handle w) = timerInterval w ∧
  next_handle (clearInterval handle w) = next_handle w.
Proof. by destruct handle. Qed.

Lemma Loaded_loadQuiz stored passageId now user p :
  List.find (λ p, String.eqb (id p) passageId) stored = Some p →
  Loaded p user (loadQuiz stored passageId now (initial user)).
Proof.
  intros Hfind. unfold loadQuiz. rewrite Hfind.
  split; [done|]. split; [done|]. split; [by exists 1%nat|]. split; [done|].
  split; [|split; [constructor | by destruct user]].
  intros i [a Ha]. cbn in Ha. by rewrite lookup_empty in Ha.
Qed.

Lemma Loaded_selectAnswer p user questionIndex answerIndex w :
  (questionIndex < length (questions p))%nat →
  Loaded p user w → Loaded p user (selectAnswer questionIndex answerIndex w).
Proof.
  intros Hi (Hp & Hu & Ht & Hn & Ha & Hr & Hl).
  split; [done|]. split; [done|]. split; [done|]. split; [done|].
  split; [|by split].
  intros i. cbn [selectAnswer userAnswers with_vars].
  destruct (decide (i = questionIndex)) as [->|Hne]; [done|].
  rewrite lookup_insert_ne by done. apply Ha.
Qed.

Lemma Loaded_startTimer p user w :
  currentPassage w = Some p → auth_currentUser w = user →
  next_handle w ≠ 0%nat →
  (∀ i, is_Some (userAnswers w !! i) → (i < length (questions p))%nat) →
  Forall (λ r, ra_passageId r = id p ∧
               ra_totalQuestions r = length (questions p) ∧
               (ra_score r ≤ ra_totalQuestions r)%nat) (recorded w) →
  length (recorded w)
  = match user with
    | Some _ => length (results_populated w)
    | None => 0%nat
    end →
  Loaded p user (startTimer w).
Proof.
  intros Hp Hu Hn Ha Hr Hl.
  split; [done|]. split; [done|].
  split; [by exists (next_handle w)|]. by repeat split.
Qed.

Lemma Loaded_submitQuiz p user autoSubmit confirmSubmit now w :
  Loaded p user w → Loaded p user (submitQuiz autoSubmit confirmSubmit now w).
Proof.
  intros (Hp & Hu & Ht & Hn & Ha & Hr & Hl). unfold submitQuiz.
  destruct (clearInterval_frame (timerInterval w) w)
    as (Hp1 & Hua1 & _ & _ & Hrp1 & _ & Hrec1 & Hau1).
  destruct (clearInterval_timer (timerInterval w) w) as [Ht1 Hn1].
  rewrite Hp1, Hp.
  destruct (negb autoSubmit && _ && negb confirmSubmit).
  - apply Loaded_startTimer; rewrite ?Hp1, ?Hua1, ?Hrp1, ?Hrec1, ?Hau1, ?Hn1;
      done.
  - set (results := calculateScore _ _ _ _).
    destruct (calculateScore_fields p
                (userAnswers (clearInterval (timerInterval w) w))
                (startTime (clearInterval (timerInterval w) w)) now)
      as (Hcorrect & Htotal & _).
    fold results in Hcorrect, Htotal.
    unfold showResults. rewrite Hau1, Hu, Hrec1, Hrp1.
    split; [cbn; by rewrite Hp1|]. split; [cbn; by rewrite Hau1|].
    split; [cbn; by rewrite Ht1|]. split; [cbn; by rewrite Hn1|].
    split; [cbn; by rewrite Hua1|].
    cbn [recorded results_populated with_page].
    destruct user as [u|].
    + split; [|cbn; by rewrite Hl].
      constructor; [|done]. cbn. split; [done|]. split; [done|].
      rewrite Hcorrect, Htotal. apply correct_indices_length.
    + by split.
Qed.

Lemma Loaded_updateTimerDisplay p user remaining w :
  Loaded p user w → Loaded p user (updateTimerDisplay remaining w).
Proof. intros H. exact H. Qed.

Lemma Loaded_fire p user handle now now' w :
  Loaded p user w → Loaded p user (fire handle now now' w).
Proof.
  intros H. unfold fire. destruct (decide _); [|done].
  unfold timer_callback. destruct (_ =? 0); [|done].
  by apply Loaded_submitQuiz.
Qed.

Lemma Loaded_retakeQuiz p user now w :
  Loaded p user w → Loaded p user (retakeQuiz now w).
Proof.
  intros (Hp & Hu & Ht & Hn & Ha & Hr & Hl). unfold retakeQuiz.
  apply Loaded_startTimer; try done.
  intros i [a Hi]. cbn in Hi. by rewrite lookup_empty in Hi.
Qed.

Lemma Loaded_run p user events w :
  Forall (offered p) events → Loaded p user w → Loaded p user (run events w).
Proof.
  unfold run. intros Hevents. revert w.
  induction Hevents as [|ev events Hev _ IH]; intros w Hw; [done|].
  cbn [fold_left]. apply IH.
  destruct ev as [i a|c now|h now now'|now]; cbn [handle_event].
  - by apply Loaded_selectAnswer.
  - by apply Loaded_submitQuiz.
  - by apply Loaded_fire.
  - by apply Loaded_retakeQuiz.
Qed.

Lemma size_answers (userAnswers : gmap nat Z) (N : nat) :
  (∀ i, is_Some (userAnswers !! i) → (i < N)%nat) →
  (size userAnswers ≤ N)%nat ∧
  (size userAnswers = N ↔ ∀ i, (i < N)%nat → is_Some (userAnswers !! i)).
Proof.
  intros Hkeys.
  assert (Hsub : dom userAnswers ⊆ (set_seq 0 N : gset nat)).
  { intros i Hi. apply elem_of_dom in Hi. apply elem_of_set_seq.
    specialize (Hkeys i Hi). lia. }
  pose proof (subseteq_size _ _ Hsub) as Hle.
  rewrite size_dom, size_set_seq in Hle.
  split; [done|]. split.
  - intros Hsize i Hi.
    assert (Heq : dom userAnswers = (set_seq 0 N : gset nat)).
    { apply set_subseteq_size_eq; [done|].
      rewrite size_dom, size_set_seq. lia. }
    apply elem_of_dom. rewrite Heq. apply elem_of_set_seq. lia.
  - intros Hall.
    assert (Hsup : (set_seq 0 N : gset nat) ⊆ dom userAnswers).
    { intros i Hi. apply elem_of_set_seq in Hi. apply elem_of_dom, Hall. lia. }
    pose proof (subseteq_size _ _ Hsup) as Hge.
    rewrite size_dom, size_set_seq in Hge. lia.
Qed.

Lemma submitQuiz_answers autoSubmit confirmSubmit now w :
  currentPassage (submitQuiz autoSubmit confirmSubmit now w) = currentPassage w ∧
  userAnswers (submitQuiz autoSubmit confirmSubmit now w) = userAnswers w.
Proof.
  unfold submitQuiz.
  destruct (clearInterval_frame (timerInterval w) w) as (Hp1 & Hua1 & _).
  destruct (currentPassage (clearInterval (timerInterval w) w)) eqn:Hp;
    [|by rewrite <- Hp1].
  destruct (negb autoSubmit && _ && negb confirmSubmit);
    cbn [startTimer setInterval updateTimerDisplay showResults with_page
         with_timer currentPassage userAnswers];
    by rewrite Hp, Hua1.
Qed.

Lemma fire_answers handle now now' w :
  currentPassage (fire handle now now' w) = currentPassage w ∧
  userAnswers (fire handle now now' w) = userAnswers w.
Proof.
  unfold fire. destruct (decide _); [|done].
  unfold timer_callback. destruct (_ =? 0); [|done].
  apply (submitQuiz_answers true false now' (updateTimerDisplay _ w)).
Qed.

Lemma run_button_run events w written :
  (fold_left handle_event_button events (w, written)).1 = run events w.
Proof.
  revert w written. induction events as [|ev events IH]; intros w written;
    [done|].
  cbn [fold_left]. unfold handle_event_button at 2. cbn [fst snd].
  apply IH.
Qed.

(** What holds of the text written to the button from [loadQuiz] on: it is
    the label of the answers of the page, and none was written exactly when
    no handler that writes one has run. *)
Lemma run_button_label p user events w written :
  Forall (offered p) events → Loaded p user w →
  written = None ∨ written = updateSubmitButton w →
  let st := fold_left handle_event_button events (w, written) in
  (st.2 = None ∨ st.2 = updateSubmitButton st.1) ∧
  (st.2 = None ↔ written = None ∧ Forall (λ ev, writes_button ev = false) events).
Proof.
  intros Hevents. revert w written.
  induction Hevents as [|ev events Hev _ IH]; intros w written Hw Hwritten.
  - cbn. split; [done|]. split; [by split | by intros [? _]].
  - cbn [fold_left]. unfold handle_event_button at 2. cbn [fst snd].
    assert (Hw' : Loaded p user (handle_event w ev)).
    { destruct ev as [i a|c now|h now now'|now]; cbn [handle_event].
      - by apply Loaded_selectAnswer.
      - by apply Loaded_submitQuiz.
      - by apply Loaded_fire.
      - by apply Loaded_retakeQuiz. }
    assert (Hlabel : is_Some (updateSubmitButton (handle_event w ev))).
    { unfold updateSubmitButton. destruct Hw' as (-> & _). by eexists. }
    assert (Hstep : (written_by ev w written = None
                     ∨ written_by ev w written
                       = updateSubmitButton (handle_event w ev)) ∧
                    (written_by ev w written = None ↔
                     written = None ∧ writes_button ev = false)).
    { destruct ev as [i a|c now|h now now'|now];
        cbn [written_by handle_event writes_button offered] in *.
      - destruct Hw' as (Hp' & _). rewrite Hp'.
        destruct (Nat.ltb_spec i (length (questions p))) as [_|Hge]; [|lia].
        destruct Hlabel as [label Hlabel]. rewrite Hlabel.
        split; [by right|]. split; [done | by intros [_ ?]].
      - destruct (submitQuiz_answers false c now w) as [Hp' Hua'].
        split.
        + destruct Hwritten as [->| ->]; [by left|]. right.
          unfold updateSubmitButton. by rewrite Hp', Hua'.
        + split; [done | by intros [? _]].
      - destruct (fire_answers h now now' w) as [Hp' Hua'].
        split.
        + destruct Hwritten as [->| ->]; [by left|]. right.
          unfold updateSubmitButton. by rewrite Hp', Hua'.
        + split; [done | by intros [? _]].
      - destruct Hlabel as [label Hlabel]. rewrite Hlabel.
        split; [by right|]. split; [done | by intros [_ ?]]. }
    destruct Hstep as [Hor Hnone].
    destruct (IH (handle_event w ev) (written_by ev w written) Hw' Hor)
      as [IHor IHnone].
    split; [exact IHor|]. rewrite IHnone, Hnone, Forall_cons. tauto.
Qed.

(** X15.  From [loadQuiz] on, whatever is selected, submitted, ticked or
    retaken, the number of answered questions that the page counts never
    exceeds the number of questions and equals it exactly when every
    question has an answer: answering a question again does not count
    twice.  [loadQuiz] does not set the text of the submit button: the
    script has written none until an answer is selected or the quiz is
    retaken.  From then on the text last written is the one of the answers
    of the page, as submitting and the countdown change neither: it is
    'Submit Quiz' exactly when every question is answered, and
    'Submit (answered/total)' with the number of answered questions
    otherwise. *)
Theorem answered_questions_count stored passageId now user p events :
  List.find (λ p, String.eqb (id p) passageId) stored = Some p →
  Forall (offered p) events →
  let st := run_button events (loadQuiz stored passageId now (initial user)) in
  let w := st.1 in
  let N := length (questions p) in
  w = run events (loadQuiz stored passageId now (initial user)) ∧
  (size (userAnswers w) ≤ N)%nat ∧
  (size (userAnswers w) = N ↔
   ∀ i, (i < N)%nat → is_Some (userAnswers w !! i)) ∧
  (st.2 = None ↔ Forall (λ ev, writes_button ev = false) events) ∧
  (st.2 = Some SubmitQuiz ↔
   Exists (λ ev, writes_button ev = true) events ∧
   ∀ i, (i < N)%nat → is_Some (userAnswers w !! i)) ∧
  (∀ answeredQuestions totalQuestions,
     st.2 = Some (SubmitCount answeredQuestions totalQuestions) ↔
     Exists (λ ev, writes_button ev = true) events ∧
     answeredQuestions = size (userAnswers w) ∧ totalQuestions = N ∧
     (answeredQuestions < N)%nat).
Proof.
  intros Hfind Hevents st w N.
  assert (Hrun : w = run events (loadQuiz stored passageId now (initial user))).
  { apply run_button_run. }
  assert (Hw : Loaded p user w).
  { rewrite Hrun. apply Loaded_run; [done|]. by apply Loaded_loadQuiz. }
  destruct (run_button_label p user events
              (loadQuiz stored passageId now (initial user)) None Hevents
              (Loaded_loadQuiz stored passageId now user p Hfind)
              (or_introl eq_refl)) as [Hor Hnone].
  fold (run_button events (loadQuiz stored passageId now (initial user)))
    in Hor, Hnone.
  fold st in Hor, Hnone. fold w in Hor.
  destruct Hw as (Hp & _ & _ & _ & Ha & _).
  destruct (size_answers (userAnswers w) N Ha) as [Hle Hiff].
  assert (Hlabel : updateSubmitButton w
                   = Some (if (size (userAnswers w) =? N)%nat then SubmitQuiz
                           else SubmitCount (size (userAnswers w)) N)).
  { unfold updateSubmitButton. by rewrite Hp. }
  assert (Hwritten : Exists (λ ev, writes_button ev = true) events ↔
                     st.2 ≠ None).
  { split.
    - intros Hex Hst. apply Hnone in Hst as [_ Hall].
      rewrite Forall_forall in Hall.
      apply Exists_exists in Hex as (ev & Hin & Hev).
      specialize (Hall ev Hin). congruence.
    - intros Hnot.
      destruct (decide (Exists (λ ev, writes_button ev = true) events))
        as [|Hno]; [done|].
      exfalso. apply Hnot, Hnone. split; [done|].
      apply Forall_forall. intros ev Hin.
      destruct (writes_button ev) eqn:Hev; [|done].
      exfalso. apply Hno. apply Exists_exists. by exists ev. }
  split; [done|]. split; [done|]. split; [done|].
  split; [rewrite Hnone; tauto|].
  rewrite Hlabel in Hor.
  split.
  - rewrite Hwritten, <- Hiff.
    destruct Hor as [-> | ->]; [split; [done | by intros [? _]]|].
    destruct (Nat.eqb_spec (size (userAnswers w)) N); split; try done.
    + by intros [_ ?].
  - intros answeredQuestions totalQuestions. rewrite Hwritten.
    destruct Hor as [-> | ->]; [split; [done | by intros [? _]]|].
    destruct (Nat.eqb_spec (size (userAnswers w)) N) as [Heq|Hne]; split;
      try done.
    + intros (_ & -> & _ & Hlt). lia.
    + intros [= <- <-]. repeat split; [done | lia].
    + by intros (_ & -> & -> & _).
Qed.

Lemma answered_questions_count_witness :
  (run_button [] sample_loaded).2 = None ∧
  (run_button [SelectAnswer 0 1; SelectAnswer 0 2; SelectAnswer 2 0;
               Submit false 5000] sample_loaded).2
  = Some (SubmitCount 2 3).
Proof.
  assert (Hevents : Forall (offered sample_passage)
                      [SelectAnswer 0 1; SelectAnswer 0 2; SelectAnswer 2 0;
                       Submit false 5000]).
  { repeat constructor; cbn; lia. }
  destruct (answered_questions_count [sample_passage] "p1" 0
              (Some "alice"%string) sample_passage [] eq_refl
              ltac:(constructor)) as (_ & _ & _ & Hnone & _).
  destruct (answered_questions_count [sample_passage] "p1" 0
              (Some "alice"%string) sample_passage
              [SelectAnswer 0 1; SelectAnswer 0 2; SelectAnswer 2 0;
               Submit false 5000]
              eq_refl Hevents) as (_ & _ & _ & _ & _ & Hcount).
  split.
  - apply Hnone. constructor.
  - apply Hcount. split; [by apply Exists_cons_hd|]. by vm_compute.
Defined.

(** X16.  From [loadQuiz] on, leaving the page asks for confirmation
    exactly when an answer is selected: [timerInterval] is never reset, so
    the question is asked also after the quiz was submitted and while its
    results are shown, until [retakeQuiz] clears the answers. *)
Theorem beforeunload_asks stored passageId now user p events :
  List.find (λ p, String.eqb (id p) passageId) stored = Some p →
  Forall (offered p) events →
  let w := run events (loadQuiz stored passageId now (initial user)) in
  (beforeunload w = true ↔ userAnswers w ≠ ∅) ∧
  (∀ autoSubmit confirmSubmit now',
     beforeunload (submitQuiz autoSubmit confirmSubmit now' w)
     = beforeunload w) ∧
  (∀ now', beforeunload (retakeQuiz now' w) = false).
Proof.
  intros Hfind Hevents w.
  assert (Hw : Loaded p user w).
  { apply Loaded_run; [done|]. by apply Loaded_loadQuiz. }
  assert (Hasks : ∀ w', Loaded p user w' →
            beforeunload w' = true ↔ userAnswers w' ≠ ∅).
  { intros w' (_ & _ & (h & Ht & Hh) & _). unfold beforeunload. rewrite Ht.
    destruct (Nat.eqb_spec h 0) as [|_]; [done|]. cbn [negb andb].
    rewrite Nat.ltb_lt. rewrite <- map_size_non_empty_iff. lia. }
  split; [by apply Hasks|]. split.
  - intros autoSubmit confirmSubmit now'.
    pose proof (Loaded_submitQuiz p user autoSubmit confirmSubmit now' w Hw)
      as Hw'.
    assert (Hua : userAnswers (submitQuiz autoSubmit confirmSubmit now' w)
                  = userAnswers w).
    { unfold submitQuiz.
      destruct (clearInterval_frame (timerInterval w) w)
        as (Hp1 & Hua1 & _).
      destruct (currentPassage (clearInterval (timerInterval w) w));
        [|done].
      by destruct (negb autoSubmit && _ && negb confirmSubmit). }
    apply Hasks in Hw'. apply Hasks in Hw. rewrite Hua in Hw'.
    destruct (beforeunload w), (beforeunload (submitQuiz _ _ _ _));
      try done.
    + apply Hw'. by apply Hw.
    + symmetry. apply Hw. by apply Hw'.
  - intros now'. unfold beforeunload, retakeQuiz. cbn.
    by rewrite andb_false_r.
Qed.

Lemma beforeunload_asks_witness :
  results_modal_shown (run [SelectAnswer 0 1; Submit true 5000] sample_loaded)
  = true ∧
  beforeunload (run [SelectAnswer 0 1; Submit true 5000] sample_loaded) = true.
Proof.
  assert (Hevents : Forall (offered sample_passage)
                      [SelectAnswer 0 1; Submit true 5000]).
  { repeat constructor; cbn; lia. }
  destruct (beforeunload_asks [sample_passage] "p1" 0 (Some "alice"%string)
              sample_passage [SelectAnswer 0 1; Submit true 5000]
              eq_refl Hevents) as (Hasks & _).
  split; [reflexivity|]. apply Hasks. by vm_compute.
Defined.

(** X17.  From [loadQuiz] on, every attempt that the page records is an
    attempt at the loaded passage, with the number of its questions as
    [totalQuestions] and a score that does not exceed it; for a signed-in
    visitor one attempt is recorded each time the results are shown, and
    for a visitor who is not signed in none ever is. *)
Theorem recorded_attempts_of_session stored passageId now user p events :
  List.find (λ p, String.eqb (id p) passageId) stored = Some p →
  Forall (offered p) events →
  let w := run events (loadQuiz stored passageId now (initial user)) in
  (∀ r, r ∈ recorded w →
        ra_passageId r = id p ∧
        ra_totalQuestions r = length (questions p) ∧
        (ra_score r ≤ ra_totalQuestions r)%nat) ∧
  (is_Some user → length (recorded w) = length (results_populated w)) ∧
  (user = None → recorded w = []).
Proof.
  intros Hfind Hevents w.
  assert (Hw : Loaded p user w).
  { apply Loaded_run; [done|]. by apply Loaded_loadQuiz. }
  destruct Hw as (_ & _ & _ & _ & _ & Hr & Hl).
  split; [by apply Forall_forall|]. split.
  - intros [u ->]. done.
  - intros ->. by apply nil_length_inv.
Qed.

Lemma recorded_attempts_of_session_witness :
  length
    (recorded (run [SelectAnswer 0 1; Submit true 5000; Retake 6000;
                    SelectAnswer 1 1; Tick 2 70000 70001] sample_loaded))
  = length
      (results_populated
         (run [SelectAnswer 0 1; Submit true 5000; Retake 6000;
               SelectAnswer 1 1; Tick 2 70000 70001] sample_loaded)) ∧
  map ra_score
    (recorded (run [SelectAnswer 0 1; Submit true 5000; Retake 6000;
                    SelectAnswer 1 1; Tick 2 70000 70001] sample_loaded))
  = [0; 1]%nat.
Proof.
  assert (Hevents : Forall (offered sample_passage)
            [SelectAnswer 0 1; Submit true 5000; Retake 6000;
             SelectAnswer 1 1; Tick 2 70000 70001]).
  { repeat constructor; cbn; lia. }
  destruct (recorded_attempts_of_session [sample_passage] "p1" 0
              (Some "alice"%string) sample_passage
              [SelectAnswer 0 1; Submit true 5000; Retake 6000;
               SelectAnswer 1 1; Tick 2 70000 70001]
              eq_refl Hevents) as (_ & Hlen & _).
  split; [apply Hlen; by eexists | by vm_compute].
Defined.

(** One tick of a live interval that is not the one held in
    [timerInterval], once the time is over: the quiz is submitted again and
    the interval stays live. *)
Lemma fire_leftover p u first second now now' w :
  currentPassage w = Some p → auth_currentUser w = Some u →
  first ∈ intervals w → timerInterval w = Some second → first ≠ second →
  remainingSeconds w now = 0 →
  let w' := fire first now now' w in
  currentPassage w' = Some p ∧ auth_currentUser w' = Some u ∧
  first ∈ intervals w' ∧ timerInterval w' = Some second ∧
  startTime w' = startTime w ∧ timeLimit w' = timeLimit w ∧
  length (recorded w') = S (length (recorded w)) ∧
  results_modal_shown w' = true.
Proof.
  intros Hp Hu Hfirst Ht Hne Hzero. cbv zeta. unfold fire.
  destruct (decide (first ∈ intervals w)) as [_|]; [|done].
  rewrite timer_callback_expired by done.
  rewrite (submitQuiz_through _ _ _ _ p) by (done || by left).
  unfold showResults, updateTimerDisplay.
  cbn [timerInterval with_page auth_currentUser clearInterval with_timer
       currentPassage intervals startTime timeLimit recorded
       results_modal_shown].
  rewrite Ht.
  cbn [timerInterval with_page auth_currentUser clearInterval with_timer
       currentPassage intervals startTime timeLimit recorded
       results_modal_shown].
  rewrite Hu. cbn [length]. repeat split; try done. set_solver.
Qed.

Lemma ticks_leftover p u first second times w :
  currentPassage w = Some p → auth_currentUser w = Some u →
  first ∈ intervals w → timerInterval w = Some second → first ≠ second →
  Forall (λ t, remainingSeconds w t.1 = 0) times →
  first ∈ intervals (ticks first times w) ∧
  length (recorded (ticks first times w))
  = (length (recorded w) + length times)%nat.
Proof.
  intros Hp Hu Hfirst Ht Hne Htimes. revert w Hp Hu Hfirst Ht Htimes.
  induction times as [|t times IH]; intros w Hp Hu Hfirst Ht Htimes.
  - cbn. split; [done | lia].
  - apply Forall_cons in Htimes as [Hzero Htimes].
    destruct (fire_leftover p u first second t.1 t.2 w Hp Hu Hfirst Ht Hne
                Hzero) as (Hp' & Hu' & Hfirst' & Ht' & Hst & Htl & Hrec & _).
    unfold ticks. cbn [fold_left]. fold (ticks first times (fire first t.1 t.2 w)).
    destruct (IH (fire first t.1 t.2 w) Hp' Hu' Hfirst' Ht') as [Hin Hlen].
    { eapply Forall_impl; [exact Htimes|]. intros t' Ht0.
      unfold remainingSeconds in *. by rewrite Hst, Htl. }
    split; [done|]. rewrite Hlen, Hrec. cbn [length]. lia.
Qed.

(** X18.  [startTimer] never clears the interval that is running.  When a
    finished session with an unanswered question is submitted again by
    Ctrl+Enter and the dialog is declined, the timer restarts behind the
    results; [retakeQuiz] then starts a second interval and only that one
    is held in [timerInterval].  The first one can no longer be cleared: it
    survives any later submission, and from the end of the time on each of
    its ticks submits the quiz again and records one more attempt. *)
Theorem leftover_interval w p u now1 now2 :
  Finished w → currentPassage w = Some p → auth_currentUser w = Some u →
  (size (userAnswers w) < length (questions p))%nat →
  let first := next_handle w in
  let second := S (next_handle w) in
  let w2 := retakeQuiz now2 (submitQuiz false false now1 w) in
  intervals w2 = {[ first; second ]} ∧
  timerInterval w2 = Some second ∧
  ∀ autoSubmit now3 times,
    let w3 := submitQuiz autoSubmit true now3 w2 in
    Forall (λ t, remainingSeconds w2 t.1 = 0) times →
    results_modal_shown w3 = true ∧
    intervals w3 = {[ first ]} ∧
    first ∈ intervals (ticks first times w3) ∧
    length (recorded (ticks first times w3))
    = (length (recorded w3) + length times)%nat.
Proof.
  intros (_ & _ & Hlive) Hp Hu Hpartial first second w2.
  assert (Hw1 : submitQuiz false false now1 w
                = startTimer (clearInterval (timerInterval w) w)).
  { unfold submitQuiz.
    destruct (clearInterval_frame (timerInterval w) w)
      as (Hp1 & Hua1 & _).
    rewrite Hp1, Hp, Hua1. cbn [negb andb].
    destruct (Nat.ltb_spec (size (userAnswers w)) (length (questions p)));
      [done | lia]. }
  destruct (clearInterval_timer (timerInterval w) w) as [_ Hn1].
  assert (Hlive1 : intervals (clearInterval (timerInterval w) w) = ∅).
  { unfold clearInterval. destruct (timerInterval w); [|done].
    cbn. rewrite Hlive. set_solver. }
  destruct (clearInterval_frame (timerInterval w) w)
    as (Hp1 & _ & _ & _ & _ & _ & _ & Hau1).
  assert (Hintervals : intervals w2 = {[ first; second ]}).
  { unfold w2, retakeQuiz. rewrite Hw1.
    cbn [startTimer setInterval updateTimerDisplay with_timer with_page
         with_vars intervals next_handle timerInterval].
    rewrite Hn1, Hlive1. unfold first, second. set_solver. }
  assert (Htimer : timerInterval w2 = Some second).
  { unfold w2, retakeQuiz. rewrite Hw1. cbn. by rewrite Hn1. }
  assert (Hp2 : currentPassage w2 = Some p).
  { unfold w2, retakeQuiz. rewrite Hw1. cbn. by rewrite Hp1. }
  assert (Hu2 : auth_currentUser w2 = Some u).
  { unfold w2, retakeQuiz. rewrite Hw1. cbn. by rewrite Hau1. }
  split; [done|]. split; [done|]. clearbody w2.
  intros autoSubmit now3 times w3 Htimes.
  assert (Hw3 : w3 = showResults p
                  (calculateScore p (userAnswers w2) (startTime w2) now3)
                  autoSubmit (clearInterval (timerInterval w2) w2)).
  { unfold w3. apply submitQuiz_through; [done|]. right. by left. }
  assert (Hne : first ≠ second) by (unfold first, second; lia).
  assert (Hintervals3 : intervals w3 = {[ first ]}).
  { rewrite Hw3, Htimer. cbn. rewrite Hintervals. set_solver. }
  split; [by rewrite Hw3|]. split; [done|].
  apply (ticks_leftover p u first second).
  - rewrite Hw3, Htimer. cbn. done.
  - rewrite Hw3, Htimer. cbn. done.
  - rewrite Hintervals3. set_solver.
  - rewrite Hw3, Htimer. cbn. done.
  - done.
  - eapply Forall_impl; [exact Htimes|]. intros t Ht.
    rewrite Hw3, Htimer. exact Ht.
Qed.

Lemma leftover_interval_witness :
  length (recorded
            (ticks 2 [(70000, 70001); (71000, 71001); (72000, 72001)]
               (submitQuiz false true 9000
                  (retakeQuiz 8000 (submitQuiz false false 7000
                                      sample_finished)))))
  = (length (recorded
               (submitQuiz false true 9000
                  (retakeQuiz 8000 (submitQuiz false false 7000
                                      sample_finished)))) + 3)%nat.
Proof.
  assert (Hfinished : Finished sample_finished).
  { split; [by eexists|]. split; [reflexivity|]. by vm_compute. }
  destruct (leftover_interval sample_finished sample_passage "alice" 7000 8000
              Hfinished eq_refl eq_refl ltac:(vm_compute; lia))
    as (_ & _ & Hticks).
  destruct (Hticks false 9000
              [(70000, 70001); (71000, 71001); (72000, 72001)])
    as (_ & _ & _ & Hlen).
  { repeat constructor. }
  exact Hlen.
Defined.

(** X19.  For a passage without questions [calculateScore] counts nothing
    and its percentage is the Number [NaN], the result of [0 / 0]: the
    score that is displayed is not a number from 0 to 100. *)
Theorem calculateScore_no_questions p userAnswers startTime now :
  questions p = [] →
  let results := calculateScore p userAnswers startTime now in
  correct results = 0%nat ∧ total results = 0%nat ∧
  breakdown results = [] ∧
  percentage results = S754_nan ∧
  ∀ k, 0 ≤ k ≤ 100 → percentage results ≠ of_Z k.
Proof.
  intros Hq. unfold calculateScore. rewrite Hq. cbn [score_loop length].
  repeat split.
  intros k Hk. cbn [percentage].
  change (Math_round (mul (div (of_Z (Z.of_nat 0)) (of_Z (Z.of_nat 0)))
                          (of_Z 100))) with S754_nan.
  destruct (Z.eq_dec k 0) as [->|Hk0]; [done|].
  destruct (JsNumberFacts.of_Z_pos k ltac:(lia)) as (m & -> & _). done.
Qed.

Lemma calculateScore_no_questions_witness :
  percentage
    (calculateScore
       {| id := "p0"; title := "Empty"; subject := "biology"; category := None;
          difficulty := "Easy"; text := "text"; QuizData.timeLimit := 1;
          questions := [] |} ∅ 0 1000)
  = S754_nan.
Proof.
  apply (calculateScore_no_questions
           {| id := "p0"; title := "Empty"; subject := "biology";
              category := None; difficulty := "Easy"; text := "text";
              QuizData.timeLimit := 1; questions := [] |} ∅ 0 1000 eq_refl).
Defined.

End QuizMoreFacts.

(* ===================================================================== *)
(** * More properties of the parser of pasted questions *)
(* ===================================================================== *)

Module BulkParseMoreFacts.
Import Js BulkParse BulkParseMore JsFacts BulkParseFacts.

Lemma collect_finish lines :
  collect lines = finish (fold_left parse_line lines ([], None)).
Proof.
  unfold collect, finish.
  destruct (fold_left parse_line lines ([], None)) as [qs [c|]]; cbn;
    [done | by rewrite app_nil_r].
Qed.

(** Before the first question line nothing is collected. *)
Lemma fold_preamble preamble qs :
  Forall (λ line, is_question_line line = false) preamble →
  fold_left parse_line preamble (qs, None) = (qs, None).
Proof.
  induction 1 as [|line rest Hline _ IH]; [done|].
  cbn [fold_left]. unfold parse_line at 2. by rewrite Hline.
Qed.

(** After a question line, the option lines are collected in their order
    and every other line is skipped. *)
Lemma fold_body body qs c :
  Forall (λ line, is_question_line line = false) body →
  fold_left parse_line body (qs, Some c) =
  (qs, Some {| text := text c;
               options :=
                 options c ++ map option_text (List.filter is_option_line body);
               correctIndex :=
                 last_marked (List.filter is_option_line body)
                   (length (options c)) (correctIndex c) |}).
Proof.
  intros Hbody. revert c.
  induction Hbody as [|line rest Hline _ IH]; intros c.
  - destruct c. cbn. by rewrite app_nil_r.
  - cbn [fold_left List.filter]. unfold parse_line at 2. rewrite Hline.
    destruct (is_option_line line) eqn:Hopt.
    + rewrite IH. cbn [text options correctIndex map last_marked].
      rewrite <- app_assoc. cbn [app].
      rewrite length_app. cbn [length].
      replace (length (options c) + 1)%nat with (S (length (options c)))
        by lia.
      replace (Z.of_nat (S (length (options c))) - 1)
        with (Z.of_nat (length (options c))) by lia.
      done.
    + apply IH.
Qed.

Lemma fold_block b st :
  well_formed b →
  finish (fold_left parse_line (block_lines b) st)
  = finish st ++ [question_of_block b].
Proof.
  intros [Hq Hbody]. destruct st as [qs cur]. unfold block_lines.
  cbn [fold_left]. unfold parse_line at 2. rewrite Hq.
  rewrite fold_body by done. unfold finish, question_of_block.
  cbn [fst snd text options correctIndex app length].
  destruct cur; [done | by rewrite app_nil_r].
Qed.

Lemma fold_blocks blocks st :
  Forall well_formed blocks →
  finish (fold_left parse_line (concat (map block_lines blocks)) st)
  = finish st ++ map question_of_block blocks.
Proof.
  intros Hblocks. revert st.
  induction Hblocks as [|b blocks Hb _ IH]; intros st.
  - cbn. by rewrite app_nil_r.
  - cbn [map concat]. rewrite fold_left_app, IH, fold_block by done.
    by rewrite <- app_assoc.
Qed.

(** X20.  The parser reads the lines block by block.  The lines before the
    first question line are ignored; each question line opens a question
    and closes the one before; in a block, the option lines give the
    options in the order of the lines, whatever their letters, the last
    marked one gives the correct index, and every other line is skipped.
    [parseQuestionText] returns, in the order of the blocks, the questions
    of the blocks that pass the validation. *)
Theorem parseQuestionText_blocks input preamble blocks :
  lines_of input = preamble ++ concat (map block_lines blocks) →
  Forall (λ line, is_question_line line = false) preamble →
  Forall well_formed blocks →
  collect (lines_of input) = map question_of_block blocks ∧
  parseQuestionText input
  = List.filter valid (map question_of_block blocks).
Proof.
  intros Hlines Hpre Hblocks.
  assert (Hcollect : collect (lines_of input) = map question_of_block blocks).
  { rewrite Hlines, collect_finish, fold_left_app, fold_preamble by done.
    by rewrite fold_blocks. }
  split; [done|]. unfold parseQuestionText. by rewrite Hcollect.
Qed.

Lemma parseQuestionText_blocks_witness :
  parseQuestionText (join_lines noisy_lines)
  = [ {| text := "First?"; options := ["one"; "two"; "three"; "four"];
         correctIndex := 1 |};
      {| text := "Second?"; options := ["x"; "y"; "z"; "w"];
         correctIndex := 0 |} ]%string.
Proof.
  destruct (parseQuestionText_blocks (join_lines noisy_lines)
              ["Chapter 1"; "A) stray"]%string
              [ ("Question: First?",
                 ["D) one"; "(see page 3)"; "C) two *"; "B) three"; "A) four"]);
                ("QUESTION: Second?", ["A) *x"; "B) y"; "C) z"; "D) w"])
              ]%string) as [_ Hparse].
  - reflexivity.
  - repeat constructor.
  - repeat constructor.
  - rewrite Hparse. reflexivity.
Defined.

End BulkParseMoreFacts.

(* ===================================================================== *)
(** * Properties of the question editor *)
(* ===================================================================== *)

Module EditorFacts.
Import Js BulkParse Editor JsFacts.

Lemma nodes_renumber items_ :
  map node (imap renumber_item items_) = map node items_.
Proof.
  apply list_eq. intros k.
  rewrite !list_lookup_fmap, list_lookup_imap.
  by destruct (items_ !! k).
Qed.

Lemma numbered_renumberQuestions page : numbered (renumberQuestions page).
Proof.
  split; [done|]. intros i el. cbn [renumberQuestions with_items items].
  rewrite list_lookup_imap.
  destruct (items page !! i) as [el0|]; [|done].
  by intros [= <-].
Qed.

Lemma numbered_append_item data page :
  numbered page → numbered (append_item data page).
Proof.
  intros [Hcount Hitems]. split.
  - cbn. rewrite length_app. cbn. lia.
  - intros i el. cbn [append_item items].
    intros Hi. apply lookup_app_Some in Hi as [Hi|[Hlen Hi]].
    + by apply Hitems.
    + apply list_lookup_singleton_Some in Hi as [Hi <-]. cbn.
      rewrite Hcount. repeat split; lia.
Qed.

Lemma add_questions_plain questions page :
  Forall (λ questionData, plain questionData = true) questions →
  add_questions questions page
  = Some (fold_left (λ page_ questionData,
                       append_item (Some questionData) page_)
            questions page).
Proof.
  intros Hplain. revert page.
  induction Hplain as [|Q questions HQ _ IH]; intros page; [done|].
  cbn [add_questions fold_left]. unfold addQuestionWithData. rewrite HQ.
  apply IH.
Qed.

Lemma numbered_fold_add questions page :
  numbered page →
  numbered (fold_left (λ page_ questionData,
                         append_item (Some questionData) page_)
              questions page).
Proof.
  revert page. induction questions as [|Q questions IH]; intros page Hpage;
    [done|].
  cbn [fold_left]. apply IH. by apply numbered_append_item.
Qed.

Lemma numbered_processPastedQuestions value page :
  numbered page → plain_op (Paste value) →
  ∃ page', processPastedQuestions value page = Some page' ∧ numbered page'.
Proof.
  intros Hpage Hplain. unfold processPastedQuestions.
  destruct (negb (truthy (trim value))); [by eexists|].
  destruct (length _ =? 0)%nat; [by eexists|].
  rewrite add_questions_plain by exact Hplain.
  eexists. split; [reflexivity|].
  set (page1 := fold_left _ _ _).
  assert (H1 : numbered page1).
  { apply numbered_fold_add. split; [done|]. intros i el Hi.
    cbn in Hi. by rewrite lookup_nil in Hi. }
  exact H1.
Qed.

Lemma numbered_apply_op page op :
  numbered page → plain_op op →
  ∃ page', apply_op page op = Some page' ∧ numbered page'.
Proof.
  intros Hpage Hplain. destruct op as [|id|id|id|value]; cbn [apply_op].
  - eexists. split; [reflexivity|]. by apply numbered_append_item.
  - eexists. split; [reflexivity|].
    unfold removeQuestion. destruct (querySelector id (items page));
      [apply numbered_renumberQuestions | done].
  - eexists. split; [reflexivity|].
    unfold moveQuestionUp.
    destruct (querySelector id (items page)) as [[|i]|];
      cbn [from_option Datatypes.id];
      [done | apply numbered_renumberQuestions | done].
  - eexists. split; [reflexivity|].
    unfold moveQuestionDown.
    destruct (querySelector id (items page)) as [i|];
      cbn [from_option Datatypes.id]; [|done].
    destruct (S i <? length (items page))%nat;
      cbn [from_option Datatypes.id];
      [apply numbered_renumberQuestions | done].
  - by apply numbered_processPastedQuestions.
Qed.

Lemma numbered_apply_ops ops page :
  numbered page → Forall plain_op ops →
  ∃ page', apply_ops ops page = Some page' ∧ numbered page'.
Proof.
  intros Hpage Hplain. revert page Hpage.
  induction Hplain as [|op ops Hop _ IH]; intros page Hpage; [by eexists|].
  cbn [apply_ops].
  destruct (numbered_apply_op page op Hpage Hop) as (page1 & -> & Hpage1).
  by apply IH.
Qed.

(** On items whose ids are their positions, [querySelector] finds the item
    at the position of the id. *)
Lemma querySelector_positions items_ start id :
  (∀ i el, items_ !! i = Some el → questionId el = (start + i)%nat) →
  querySelector id items_
  = if bool_decide (start ≤ id < start + length items_)%nat
    then Some (id - start)%nat else None.
Proof.
  revert start. induction items_ as [|el rest IH]; intros start Hids.
  - cbn. rewrite bool_decide_eq_false_2; [done | lia].
  - cbn [querySelector length].
    pose proof (Hids 0%nat el eq_refl) as Hel. rewrite Hel, Nat.add_0_r.
    destruct (Nat.eqb_spec start id) as [->|Hne].
    + rewrite bool_decide_eq_true_2 by lia. f_equal. lia.
    + rewrite (IH (S start)).
      * destruct (decide (start ≤ id < start + S (length rest))%nat).
        -- rewrite !bool_decide_eq_true_2 by lia. cbn. f_equal. lia.
        -- rewrite !bool_decide_eq_false_2 by lia. done.
      * intros i el' Hi. rewrite (Hids (S i) el' Hi). lia.
Qed.

Lemma querySelector_numbered page id :
  numbered page →
  querySelector id (items page)
  = if bool_decide (1 ≤ id ≤ length (items page))%nat
    then Some (id - 1)%nat else None.
Proof.
  intros [_ Hitems].
  rewrite (querySelector_positions _ 1).
  - destruct (decide (1 ≤ id ≤ length (items page))%nat).
    + by rewrite !bool_decide_eq_true_2 by lia.
    + by rewrite !bool_decide_eq_false_2 by lia.
  - intros i el Hi. by destruct (Hitems i el Hi) as [-> _].
Qed.

(** X21.  Whatever questions are added, removed, moved or pasted, as long
    as the pasted questions are plain (their texts and options hold none of
    the characters [<], [&] and the double quote, which the markup of an
    item would not read back as text), the items of the editor stay
    numbered by their positions: [questionCount] is the number of items and
    the item at position [n] has the label 'Question n', the radio group
    'correct-n' and the id [n], so that a lookup by id finds the item at
    that position and an id that is out of range finds none. *)
Theorem editor_numbered ops page :
  numbered page → Forall plain_op ops →
  ∃ page',
    apply_ops ops page = Some page' ∧
    questionCount page' = length (items page') ∧
    (∀ i el, items page' !! i = Some el →
             questionId el = S i ∧ number el = S i ∧ radioName el = S i ∧
             querySelector (S i) (items page') = Some i) ∧
    (∀ id, (id = 0 ∨ length (items page') < id)%nat →
           querySelector id (items page') = None).
Proof.
  intros Hpage Hplain.
  destruct (numbered_apply_ops ops page Hpage Hplain)
    as (page' & Hops & Hnumbered).
  exists page'. split; [exact Hops|].
  pose proof Hnumbered as [Hcount Hitems].
  split; [done|]. split.
  - intros i el Hi. destruct (Hitems i el Hi) as (H1 & H2 & H3).
    repeat split; try done.
    rewrite (querySelector_numbered page' (S i)) by done.
    apply lookup_lt_Some in Hi.
    rewrite bool_decide_eq_true_2 by lia. f_equal. lia.
  - intros id Hid. rewrite (querySelector_numbered page' id) by done.
    rewrite bool_decide_eq_false_2; [done | lia].
Qed.

Lemma editor_numbered_witness :
  ∃ page',
    apply_ops [AddQuestion; Paste two_questions; AddQuestion;
               MoveQuestionUp 3; RemoveQuestion 1] empty_page
    = Some page' ∧
    questionCount page' = 2%nat ∧
    map node (items page') = [3; 2]%nat.
Proof.
  assert (Hempty : numbered empty_page).
  { split; [done|]. intros i el Hi. cbn in Hi. by rewrite lookup_nil in Hi. }
  assert (Hplain : Forall plain_op
                     [AddQuestion; Paste two_questions; AddQuestion;
                      MoveQuestionUp 3; RemoveQuestion 1]).
  { constructor; [exact I|]. constructor; [|repeat constructor].
    cbn [plain_op]. apply Forall_forall. intros Q HQ.
    vm_compute in HQ.
    repeat (apply elem_of_cons in HQ as [->|HQ]; [reflexivity|]).
    by apply elem_of_nil in HQ. }
  destruct (editor_numbered
              [AddQuestion; Paste two_questions; AddQuestion;
               MoveQuestionUp 3; RemoveQuestion 1] empty_page Hempty Hplain)
    as (page' & Hops & Hcount & _).
  exists page'. split; [exact Hops|].
  vm_compute in Hops. injection Hops as <-. split; reflexivity.
Defined.

Lemma removeQuestion_numbered page i el :
  numbered page → items page !! i = Some el →
  removeQuestion (S i) page
  = renumberQuestions
      (with_items page (questionCount page) (delete i (items page))).
Proof.
  intros Hpage Hi. unfold removeQuestion.
  rewrite querySelector_numbered by done.
  apply lookup_lt_Some in Hi.
  rewrite bool_decide_eq_true_2 by lia.
  by replace (S i - 1)%nat with i by lia.
Qed.

Lemma NoDup_delete_lookup {A} (l : list A) k x :
  NoDup l → l !! k = Some x → x ∉ delete k l.
Proof.
  revert k. induction l as [|a l IH]; intros k Hnodup Hk; [done|].
  apply NoDup_cons in Hnodup as [Ha Hnodup].
  destruct k as [|k]; cbn in *.
  - by injection Hk as <-.
  - intros Hin. apply elem_of_cons in Hin as [->|Hin].
    + apply Ha. by eapply list_elem_of_lookup_2.
    + by apply (IH k).
Qed.

(** X22.  The buttons of an item keep the number the item had when it was
    generated, while removing or moving a question renumbers the ids.  In
    an editor whose buttons act on their own items, once a question has
    been removed, the remove button of every item after it no longer
    removes that item: it removes the item that follows it, or nothing
    when it is the last one. *)
Theorem remove_button_after_removal page i j victim el :
  numbered page → wired page → NoDup (nodes page) →
  items page !! i = Some victim → items page !! j = Some el →
  (i < j)%nat →
  let page1 := click_remove victim page in
  ∃ el1,
    items page1 !! (j - 1)%nat = Some el1 ∧
    node el1 = node el ∧ content el1 = content el ∧
    questionId el1 = j ∧ handlerId el1 = S j ∧
    let page2 := click_remove el1 page1 in
    node el ∈ nodes page2 ∧
    match items page !! S j with
    | Some next =>
        (node next ∉ nodes page2) ∧
        length (items page2) = (length (items page) - 2)%nat
    | None => page2 = page1
    end.
Proof.
  intros Hnumbered Hwired Hnodup Hi Hj Hij page1.
  pose proof Hnumbered as [_ Hitems].
  assert (Hvictim : handlerId victim = S i).
  { rewrite (Hwired victim) by (by eapply list_elem_of_lookup_2).
    by destruct (Hitems i victim Hi) as [-> _]. }
  assert (Hel : handlerId el = S j).
  { rewrite (Hwired el) by (by eapply list_elem_of_lookup_2).
    by destruct (Hitems j el Hj) as [-> _]. }
  assert (Hpage1 : page1 = renumberQuestions
            (with_items page (questionCount page) (delete i (items page)))).
  { unfold page1, click_remove. rewrite Hvictim.
    by apply (removeQuestion_numbered page i victim). }
  assert (Hitems1 : items page1 = imap renumber_item (delete i (items page))).
  { by rewrite Hpage1. }
  assert (Hnodes1 : nodes page1 = delete i (nodes page)).
  { unfold nodes. rewrite Hitems1, nodes_renumber.
    clear. revert i. induction (items page) as [|a l IH]; intros [|i];
      cbn; try done. by rewrite IH. }
  assert (Hnumbered1 : numbered page1).
  { rewrite Hpage1. apply numbered_renumberQuestions. }
  assert (Hlookup1 : ∀ k, (i ≤ k)%nat →
            items page1 !! k = renumber_item k <$> items page !! S k).
  { intros k Hk. rewrite Hitems1, list_lookup_imap.
    by rewrite list_lookup_delete_ge by lia. }
  exists (renumber_item (j - 1) el).
  split.
  { rewrite Hlookup1 by lia. replace (S (j - 1)) with j by lia.
    by rewrite Hj. }
  split; [done|]. split; [done|].
  split; [cbn; lia|]. split; [by cbn|].
  intros page2.
  assert (Hin1 : nodes page1 !! (j - 1)%nat = Some (node el)).
  { rewrite Hnodes1, list_lookup_delete_ge by lia.
    replace (S (j - 1)) with j by lia.
    unfold nodes. by rewrite list_lookup_fmap, Hj. }
  assert (Hnodup1 : NoDup (nodes page1)).
  { rewrite Hnodes1. clear -Hnodup. revert i.
    induction Hnodup as [|a l Ha Hl IH]; intros [|i]; cbn;
      [constructor | constructor | done |].
    constructor; [|apply IH].
    intros Hin. apply Ha. eapply list_elem_of_delete_inv, Hin. }
  assert (Hclick : page2 = removeQuestion (S j) page1).
  { unfold page2, click_remove. cbn [renumber_item handlerId].
    by rewrite Hel. }
  clearbody page2. subst page2.
  destruct (items page !! S j) as [next|] eqn:Hnext.
  - assert (Hnext1 : items page1 !! j = Some (renumber_item j next)).
    { rewrite Hlookup1 by lia. by rewrite Hnext. }
    assert (Hpage2 : removeQuestion (S j) page1 = renumberQuestions
              (with_items page1 (questionCount page1)
                 (delete j (items page1)))).
    { by apply (removeQuestion_numbered page1 j _ Hnumbered1 Hnext1). }
    assert (Hnodes2 : nodes (removeQuestion (S j) page1)
                      = delete j (nodes page1)).
    { unfold nodes. rewrite Hpage2. cbn [renumberQuestions with_items items].
      rewrite nodes_renumber.
      clear. generalize (items page1). intros l. revert j.
      induction l as [|a l IH]; intros [|j]; cbn; try done. by rewrite IH. }
    split; [|split].
    + rewrite Hnodes2. apply (list_elem_of_lookup_2 _ (j - 1)%nat).
      rewrite list_lookup_delete_lt by lia. exact Hin1.
    + rewrite Hnodes2.
      apply NoDup_delete_lookup; [done|].
      unfold nodes. rewrite list_lookup_fmap, Hnext1. done.
    + rewrite Hpage2. cbn [renumberQuestions with_items items].
      rewrite length_imap, length_delete by (by eexists).
      rewrite Hitems1, length_imap, length_delete by (by eexists).
      lia.
  - split.
    + eapply list_elem_of_lookup_2. unfold removeQuestion.
      rewrite querySelector_numbered by done.
      apply lookup_ge_None in Hnext.
      assert (Hlen1 : length (items page1) = (length (items page) - 1)%nat).
      { rewrite Hitems1, length_imap, length_delete by (by eexists). lia. }
      rewrite bool_decide_eq_false_2 by lia. exact Hin1.
    + unfold removeQuestion.
      rewrite querySelector_numbered by done.
      apply lookup_ge_None in Hnext.
      assert (Hlen1 : length (items page1) = (length (items page) - 1)%nat).
      { rewrite Hitems1, length_imap, length_delete by (by eexists). lia. }
      by rewrite bool_decide_eq_false_2 by lia.
Qed.

Lemma remove_button_after_removal_witness :
  ∃ first second third,
    items three_items = [first; second; third] ∧
    nodes (click_remove first three_items) = [node second; node third] ∧
    ∃ el1, items (click_remove first three_items) !! 0%nat = Some el1 ∧
           node el1 = node second ∧
           nodes (click_remove el1 (click_remove first three_items))
           = [node second].
Proof.
  assert (Hnumbered : numbered three_items).
  { split; [done|]. intros [|[|[|i]]] el [= <-]; done. }
  assert (Hwired : wired three_items).
  { intros el Hel. unfold three_items in Hel. cbn in Hel.
    repeat (apply elem_of_cons in Hel as [->|Hel]; [done|]).
    by apply elem_of_nil in Hel. }
  assert (Hnodup : NoDup (nodes three_items)).
  { cbn. repeat (constructor; [set_solver|]). constructor. }
  eexists _, _, _. split; [reflexivity|]. split; [reflexivity|].
  destruct (remove_button_after_removal three_items 0 1 _ _
              Hnumbered Hwired Hnodup eq_refl eq_refl ltac:(lia))
    as (el1 & Hel1 & Hnode & _).
  exists el1. split; [exact Hel1|]. split; [exact Hnode|].
  cbn in Hel1. injection Hel1 as <-. reflexivity.
Defined.

Lemma fold_add_items questions page :
  let page' := fold_left (λ page_ questionData,
                            append_item (Some questionData) page_)
                 questions page in
  map content (items page')
  = map content (items page) ++ map Some questions ∧
  (wired page → numbered page → wired page') ∧
  (next_node page ≤ next_node page')%nat ∧
  (∀ n, n ∈ nodes page' → n ∈ nodes page ∨ (next_node page ≤ n)%nat) ∧
  paste_modal_shown page' = paste_modal_shown page ∧
  toasts page' = toasts page.
Proof.
  revert page. induction questions as [|Q questions IH]; intros page.
  - cbn. rewrite app_nil_r. repeat split; try done. intros n Hn. by left.
  - cbn [fold_left]. cbv zeta.
    destruct (IH (append_item (Some Q) page))
      as (Hcontent & Hwired & Hnext & Hnodes & Hmodal & Htoasts).
    split; [|split; [|split; [|split; [|split]]]].
    + rewrite Hcontent. cbn [append_item items].
      rewrite map_app, <- app_assoc. done.
    + intros Hw Hn. apply Hwired; [|by apply numbered_append_item].
      intros el Hel. cbn [append_item items] in Hel.
      apply elem_of_app in Hel as [Hel|Hel]; [by apply Hw|].
      by apply list_elem_of_singleton in Hel as ->.
    + cbn in Hnext. lia.
    + intros n Hn. destruct (Hnodes n Hn) as [Hin|Hge].
      * unfold nodes in Hin.
        cbn [append_item items] in Hin.
        rewrite map_app in Hin.
        apply elem_of_app in Hin as [Hin|Hin]; [by left|].
        apply list_elem_of_singleton in Hin as ->. right. done.
      * right. cbn in Hge. lia.
    + by rewrite Hmodal.
    + by rewrite Htoasts.
Qed.

(** X23.  Pasting questions replaces the questions of the editor.  When
    the pasted text holds no valid question, the editor is left as it is,
    the dialog stays open and a warning is shown.  Otherwise, the parsed
    questions being plain (their texts and options hold none of the
    characters [<], [&] and the double quote, which the markup of an item
    would not read back as text), every item that the editor held is
    discarded, whatever had been typed into it, and the editor holds one
    item for each parsed question, in their order, numbered from one, with
    buttons that act on their own items; the dialog is closed and the
    number of questions is announced. *)
Theorem processPastedQuestions_replaces value page :
  Forall (λ n, (n < next_node page)%nat) (nodes page) →
  let questions := parseQuestionText (trim value) in
  Forall (λ questionData, plain questionData = true) questions →
  ∃ page',
    processPastedQuestions value page = Some page' ∧
    (questions = [] →
     items page' = items page ∧ questionCount page' = questionCount page ∧
     paste_modal_shown page' = paste_modal_shown page ∧
     ∃ warning, toasts page' = toasts page ++ [warning] ∧
                (warning = PleasePaste ∨ warning = NoValidQuestions)) ∧
    (questions ≠ [] →
     map content (items page') = map Some questions ∧
     numbered page' ∧ wired page' ∧
     (∀ n, n ∈ nodes page → n ∉ nodes page') ∧
     paste_modal_shown page' = false ∧
     toasts page' = toasts page ++ [Added (length questions)]).
Proof.
  intros Hfresh questions Hplain. unfold processPastedQuestions.
  fold questions.
  destruct (truthy (trim value)) eqn:Htext; cbn [negb].
  - destruct questions as [|Q rest] eqn:Hq; cbn [length Nat.eqb].
    + eexists. split; [reflexivity|]. split; [|done]. intros _. cbn.
      repeat split. exists NoValidQuestions. split; [done | by right].
    + rewrite add_questions_plain by exact Hplain.
      eexists. split; [reflexivity|]. split; [done|]. intros _.
      destruct (fold_add_items (Q :: rest) (with_items page 0 []))
        as (Hcontent & Hwired & _ & Hnodes & Hmodal & Htoasts).
      cbn [items paste_modal_shown toasts]. rewrite Hcontent, Htoasts.
      split; [done|]. split.
      { apply (numbered_fold_add (Q :: rest)). split; [done|].
        intros i el Hi. cbn in Hi. by rewrite lookup_nil in Hi. }
      split.
      { apply Hwired.
        - intros el Hel. cbn in Hel. by apply elem_of_nil in Hel.
        - split; [done|]. intros i el Hi. cbn in Hi.
          by rewrite lookup_nil in Hi. }
      split; [|done].
      intros n Hn Hn'. destruct (Hnodes n Hn') as [Hin|Hge].
      * cbn in Hin. by apply elem_of_nil in Hin.
      * rewrite Forall_forall in Hfresh. specialize (Hfresh n Hn).
        cbn in Hge. lia.
  - assert (Hnone : questions = []).
    { unfold questions. destruct (trim value); [done | discriminate]. }
    eexists. split; [reflexivity|]. split; [|done]. intros _. cbn.
    repeat split. exists PleasePaste. split; [done | by left].
Qed.

Lemma processPastedQuestions_replaces_witness :
  ∃ page',
    processPastedQuestions two_questions three_items = Some page' ∧
    map content (items page')
    = map Some (parseQuestionText (trim two_questions)) ∧
    length (items page') = 2%nat.
Proof.
  assert (Hfresh : Forall (λ n, (n < next_node three_items)%nat)
                     (nodes three_items)).
  { repeat constructor. }
  assert (Hplain : Forall (λ questionData, plain questionData = true)
                     (parseQuestionText (trim two_questions))).
  { apply Forall_forall. intros Q HQ. vm_compute in HQ.
    repeat (apply elem_of_cons in HQ as [->|HQ]; [reflexivity|]).
    by apply elem_of_nil in HQ. }
  destruct (processPastedQuestions_replaces two_questions three_items Hfresh
              Hplain) as (page' & Hpaste & _ & Hsome).
  destruct Hsome as (Hcontent & _); [by vm_compute|].
  exists page'. split; [exact Hpaste|]. split; [exact Hcontent|].
  vm_compute in Hpaste. injection Hpaste as <-. reflexivity.
Defined.

End EditorFacts.

(* ===================================================================== *)
(** * Properties of the form of the authoring page *)
(* ===================================================================== *)

Module PassageFormFacts.
Import Js QuizData PassageForm JsFacts.

Lemma collect_questions_spec elements acc :
  fold_left collect_question elements acc
  = acc ++ map question_of (List.filter complete elements).
Proof.
  revert acc. induction elements as [|element elements IH]; intros acc.
  - cbn. by rewrite app_nil_r.
  - cbn [fold_left List.filter]. rewrite IH.
    unfold collect_question, complete.
    destruct (truthy (questionText element) && _ && _); [|done].
    cbn [map]. by rewrite <- app_assoc.
Qed.

Lemma filter_idemp {A} (f : A → bool) (l : list A) :
  List.filter f (List.filter f l) = List.filter f l.
Proof.
  induction l as [|a l IH]; cbn; [done|].
  destruct (f a) eqn:Ha; cbn; [|exact IH]. by rewrite Ha, IH.
Qed.

Lemma question_errors_complete index element :
  complete element = true →
  ∀ n, (EmptyOptions n ∉ question_errors index (question_of element)) ∧
       (NeedsCorrectAnswer n ∉ question_errors index (question_of element)).
Proof.
  unfold complete. intros Hcomplete n.
  apply andb_true_iff in Hcomplete as [Hcomplete Hindex].
  apply andb_true_iff in Hcomplete as [_ Hoptions].
  unfold question_errors, question_of. cbn [q options answerIndex].
  assert (Hnone : existsb (λ opt, negb (filled opt)) (optionValues element)
                  = false).
  { apply not_true_is_false. intros Hex.
    apply existsb_exists in Hex as (opt & Hin & Hopt).
    rewrite forallb_forall in Hoptions. rewrite (Hoptions opt Hin) in Hopt.
    done. }
  rewrite Hnone.
  destruct (Z.ltb_spec
              match checkedValue element with
              | Some value => Z.of_nat value
              | None => -1
              end 0) as [Hlt|_]; [apply Z.leb_le in Hindex; lia|].
  destruct (negb (filled (questionText element))); cbn; split; intros Hin;
    repeat (apply elem_of_cons in Hin as [Hin|Hin]; [discriminate Hin|]);
    by apply elem_of_nil in Hin.
Qed.

(** X24.  [collectFormData] keeps, in their order, the question items that
    have a text, four filled options and a checked correct answer, and
    drops the others; [validateForm] sees the collected questions only.
    So the question items that are not complete have no effect on the
    validation, which gives the same errors as for the form without them,
    and the errors 'has empty options' and 'needs a correct answer' are
    never reported: an incomplete question is left out without a word. *)
Theorem validateForm_ignores_incomplete less_than_one form :
  questions (collectFormData form)
  = map question_of (List.filter complete (f_questionElements form)) ∧
  validateForm less_than_one form
  = validateForm less_than_one (without_incomplete form) ∧
  ∀ n, (EmptyOptions n ∉ validateForm less_than_one form) ∧
       (NeedsCorrectAnswer n ∉ validateForm less_than_one form).
Proof.
  assert (Hquestions : questions (collectFormData form)
            = map question_of (List.filter complete (f_questionElements form))).
  { cbn. by rewrite collect_questions_spec. }
  split; [done|]. split.
  - unfold validateForm.
    assert (Hsame : questions (collectFormData (without_incomplete form))
                    = questions (collectFormData form)).
    { rewrite Hquestions. cbn [collectFormData questions without_incomplete
                                 f_questionElements].
      by rewrite collect_questions_spec, filter_idemp. }
    by rewrite Hsame.
  - intros n. unfold validateForm. rewrite Hquestions.
    set (elements := List.filter complete (f_questionElements form)).
    assert (Hcomplete : Forall (λ element, complete element = true) elements).
    { apply Forall_forall. intros element Hin.
      by apply elem_of_List_filter in Hin as [_ Hin]. }
    assert (Herrors : ∀ e, e ∈ concat (imap question_errors
                                         (map question_of elements)) →
              e ≠ EmptyOptions n ∧ e ≠ NeedsCorrectAnswer n).
    { intros e He.
      apply list_elem_of_In, in_concat in He as (errors & Herrors & He).
      apply list_elem_of_In in Herrors, He.
      apply list_elem_of_lookup in Herrors as [index Herrors].
      rewrite list_lookup_imap, list_lookup_fmap in Herrors.
      destruct (elements !! index) as [element|] eqn:Helement; [|done].
      injection Herrors as <-.
      rewrite Forall_forall in Hcomplete.
      destruct (question_errors_complete index element
                  (Hcomplete element (list_elem_of_lookup_2 _ _ _ Helement)) n)
        as [H1 H2].
      split; intros ->; done. }
    split; intros Hin;
      repeat (apply elem_of_app in Hin as [Hin|Hin];
              [match type of Hin with
               | _ ∈ (if ?c then _ else _) => destruct c
               end;
               repeat (apply elem_of_cons in Hin as [Hin|Hin];
                       [discriminate Hin|]);
               by apply elem_of_nil in Hin|]);
      by destruct (Herrors _ Hin).
Qed.

Lemma validateForm_ignores_incomplete_witness :
  validateForm (λ _, false) sample_form = [] ∧
  length (f_questionElements sample_form) = 3%nat ∧
  map q (questions (collectFormData sample_form)) = ["First?"%string].
Proof.
  destruct (validateForm_ignores_incomplete (λ _, false) sample_form)
    as (Hquestions & Hvalidate & _).
  split; [rewrite Hvalidate; reflexivity|]. split; [reflexivity|].
  rewrite Hquestions. reflexivity.
Defined.

End PassageFormFacts.

(* ===================================================================== *)
(** * Properties of the loading of the role *)
(* ===================================================================== *)

Module AuthFacts.
Import Platform Auth.

Lemma check_claims_frame e :
  currentUser (authManager (check_claims e)) = currentUser (authManager e) ∧
  localStorage (check_claims e) = localStorage e ∧
  users (check_claims e) = users e ∧
  store_reads (check_claims e) = store_reads e ∧
  (truthy_role (userRole (authManager e)) = true →
   truthy_role (userRole (authManager (check_claims e))) = true) ∧
  (token_admin e ≠ Returned true →
   userRole (authManager (check_claims e)) = userRole (authManager e)).
Proof.
  unfold check_claims. destruct (token_admin e) as [[|]|message];
    repeat split; try done.
Qed.

Lemma read_user_document_frame u e :
  currentUser (authManager (read_user_document u e))
  = currentUser (authManager e) ∧
  localStorage (read_user_document u e) = localStorage e ∧
  truthy_role (userRole (authManager (read_user_document u e))) = true.
Proof.
  unfold read_user_document. cbn [reachable users create_ok].
  destruct (reachable e); cbn [reachable users create_ok]; [|done].
  destruct (_ !! uid u) as [userDoc|].
  - split; [done|]. split; [done|]. cbn.
    by destruct (truthy_role (role_field userDoc)) eqn:Hrole.
  - by destruct (create_ok e).
Qed.

(** X25.  When [loadUserRole] finds no fresh entry for the signed-in user
    in the local storage (no entry, an unreadable one, or one whose
    [expires] is not found greater than the clock, after the conversion to
    a Number that the comparison makes of a value that is not one), it
    leaves a role that is not empty and stores it with the clock plus ten
    minutes as [expires].  Until then, every later [loadUserRole] for that
    user over the same local storage gives this role again, whatever the
    token and the user's document say by then, without reading either. *)
Theorem loadUserRole_cached greater_than now e u :
  currentUser (authManager e) = Some u →
  cached_role greater_than (localStorage e !! cacheKey u) now = None →
  let e1 := loadUserRole greater_than now e in
  truthy_role (userRole (authManager e1)) = true ∧
  localStorage e1 !! cacheKey u
  = Some (Entry (userRole (authManager e1)) (Integer (now + 600000))) ∧
  ∀ e' now',
    currentUser (authManager e') = Some u →
    localStorage e' = localStorage e1 →
    now' < now + 600000 →
    loadUserRole greater_than now' e'
    = with_role e' (userRole (authManager e1)).
Proof.
  intros Hu Hmiss e1.
  assert (He1 : e1 =
    let e1 := check_claims e in
    let e2 := if negb (truthy_role (userRole (authManager e1)))
              then read_user_document u e1 else e1 in
    {| authManager := authManager e2;
       localStorage :=
         <[cacheKey u := Entry (userRole (authManager e2))
                           (Integer (now + 10 * 60 * 1000))]> (localStorage e2);
       token_admin := token_admin e2; users := users e2;
       reachable := reachable e2; create_ok := create_ok e2;
       store_reads := store_reads e2; console := console e2 |}).
  { unfold e1, loadUserRole. by rewrite Hu, Hmiss. }
  cbv zeta in He1. clearbody e1. subst e1.
  cbn [authManager localStorage].
  set (e2 := if negb _ then _ else _).
  assert (Htruthy : truthy_role (userRole (authManager e2)) = true).
  { unfold e2.
    destruct (truthy_role (userRole (authManager (check_claims e)))) eqn:Hrole;
      cbn [negb]; [done|].
    by destruct (read_user_document_frame u (check_claims e)) as (_ & _ & ?). }
  split; [done|]. split.
  { rewrite lookup_insert. by destruct (decide _). }
  intros e' now' Hu' Hstorage Hnow.
  unfold loadUserRole. rewrite Hu', Hstorage.
  cbn [localStorage]. rewrite lookup_insert.
  destruct (decide (cacheKey u = cacheKey u)); [|done].
  cbn [cached_role].
  destruct (Z.ltb_spec now' (now + 10 * 60 * 1000)) as [_|Hge]; [done | lia].
Qed.

Lemma loadUserRole_cached_witness :
  userRole (authManager
              (loadUserRole never_greater 2000
                 (loadUserRole never_greater 1000 dave_signed_in)))
  = Some "student"%string ∧
  store_reads (loadUserRole never_greater 2000
                 (loadUserRole never_greater 1000 dave_signed_in)) = 1%nat.
Proof.
  destruct (loadUserRole_cached never_greater 1000 dave_signed_in
              (mkUser "dave") eq_refl eq_refl) as (_ & _ & Hlater).
  assert (Huser : currentUser
                    (authManager
                       (loadUserRole never_greater 1000 dave_signed_in))
                  = Some (mkUser "dave")) by (by vm_compute).
  rewrite (Hlater (loadUserRole never_greater 1000 dave_signed_in) 2000 Huser
             eq_refl ltac:(lia)).
  split; by vm_compute.
Defined.

Lemma loadUserRole_miss_kept greater_than now e u r :
  currentUser (authManager e) = Some u →
  cached_role greater_than (localStorage e !! cacheKey u) now = None →
  token_admin e ≠ Returned true →
  userRole (authManager e) = Some r → Js.truthy r = true →
  userRole (authManager (loadUserRole greater_than now e)) = Some r ∧
  store_reads (loadUserRole greater_than now e) = store_reads e ∧
  users (loadUserRole greater_than now e) = users e ∧
  localStorage (loadUserRole greater_than now e) !! cacheKey u
  = Some (Entry (Some r) (Integer (now + 600000))).
Proof.
  intros Hu Hmiss Htoken Hr Htruthy. unfold loadUserRole.
  rewrite Hu, Hmiss.
  destruct (check_claims_frame e) as (_ & Hstorage & Husers & Hreads & _ & Hrole).
  specialize (Hrole Htoken).
  rewrite Hrole, Hr. cbn [truthy_role]. rewrite Htruthy.
  cbn [negb authManager store_reads users localStorage].
  rewrite Hrole, Hr, Hreads, Husers, lookup_insert.
  by destruct (decide _).
Qed.

Lemma loadUserRole_miss_document greater_than now e u userDoc role :
  currentUser (authManager e) = Some u →
  cached_role greater_than (localStorage e !! cacheKey u) now = None →
  token_admin e ≠ Returned true →
  userRole (authManager e) = None →
  reachable e = true → users e !! uid u = Some userDoc →
  role_field userDoc = Some role → Js.truthy role = true →
  userRole (authManager (loadUserRole greater_than now e)) = Some role.
Proof.
  intros Hu Hmiss Htoken Hnone Hreach Hdoc Hrole Htruthy.
  unfold loadUserRole. rewrite Hu, Hmiss.
  destruct (check_claims_frame e) as (_ & _ & Husers & _ & _ & Hkept).
  specialize (Hkept Htoken).
  rewrite Hkept, Hnone. cbn [truthy_role negb authManager].
  unfold read_user_document. cbn [reachable users].
  assert (Hreach' : reachable (check_claims e) = true).
  { unfold check_claims. by destruct (token_admin e) as [[|]|]. }
  rewrite Hreach', Husers, Hdoc. cbn [with_role authManager userRole].
  rewrite Hrole. cbn [truthy_role]. by rewrite Htruthy.
Qed.

(** X26.  The role is reset only when the auth state changes to signed
    out.  When a user becomes the signed-in user while the role of the
    user before is still set, and has neither a fresh entry in the local
    storage (none, an unreadable one, or one whose [expires] is not found
    greater than the clock, after the conversion that the comparison makes
    of a value that is not a Number) nor the admin claim, the role of the
    user before is kept: the document of the new user is not read, and the
    kept role is stored for the new user for ten minutes.  After a change
    to signed out the role is empty, and the next user who has neither
    entry nor claim but a document with a role gets the role of that
    document. *)
Theorem onAuthStateChanged_keeps_role greater_than e u now r :
  userRole (authManager e) = Some r → Js.truthy r = true →
  cached_role greater_than (localStorage e !! cacheKey u) now = None →
  token_admin e ≠ Returned true →
  let e1 := onAuthStateChanged greater_than (Some u) now e in
  userRole (authManager e1) = Some r ∧
  isAdmin (authManager e1) = isAdmin (authManager e) ∧
  store_reads e1 = store_reads e ∧
  users e1 = users e ∧
  localStorage e1 !! cacheKey u
  = Some (Entry (Some r) (Integer (now + 600000))) ∧
  ∀ now' userDoc role,
    reachable e = true → users e !! uid u = Some userDoc →
    role_field userDoc = Some role → Js.truthy role = true →
    userRole (authManager
                (onAuthStateChanged greater_than (Some u) now
                   (onAuthStateChanged greater_than None now' e)))
    = Some role.
Proof.
  intros Hr Htruthy Hmiss Htoken e1.
  destruct (loadUserRole_miss_kept greater_than now
              {| authManager := {| currentUser := Some u;
                                   userRole := userRole (authManager e) |};
                 localStorage := localStorage e;
                 token_admin := token_admin e; users := users e;
                 reachable := reachable e; create_ok := create_ok e;
                 store_reads := store_reads e; console := console e |}
              u r eq_refl Hmiss Htoken Hr Htruthy)
    as (Hrole & Hreads & Husers & Hstorage).
  split; [exact Hrole|]. split.
  { unfold isAdmin. unfold e1, onAuthStateChanged. by rewrite Hrole, Hr. }
  split; [exact Hreads|]. split; [exact Husers|]. split; [exact Hstorage|].
  intros now' userDoc role Hreach Hdoc Hfield Hroletruthy.
  apply (loadUserRole_miss_document greater_than now
           {| authManager := {| currentUser := Some u; userRole := None |};
              localStorage := localStorage e;
              token_admin := token_admin e; users := users e;
              reachable := reachable e; create_ok := create_ok e;
              store_reads := store_reads e; console := console e |}
           u userDoc role eq_refl Hmiss Htoken eq_refl Hreach Hdoc Hfield
           Hroletruthy).
Qed.

Lemma onAuthStateChanged_keeps_role_witness :
  isAdmin (authManager
             (onAuthStateChanged never_greater (Some (mkUser "dave")) 2000
                (onAuthStateChanged never_greater (Some (mkUser "carol")) 1000
                   sample_env)))
  = true ∧
  isAdmin (authManager
             (onAuthStateChanged never_greater (Some (mkUser "dave")) 2000
                (onAuthStateChanged never_greater None 1500
                   (onAuthStateChanged never_greater (Some (mkUser "carol"))
                      1000 sample_env))))
  = false.
Proof.
  destruct (onAuthStateChanged_keeps_role never_greater
              (onAuthStateChanged never_greater (Some (mkUser "carol")) 1000
                 sample_env)
              (mkUser "dave") 2000 "admin" eq_refl eq_refl eq_refl
              ltac:(discriminate)) as (Hrole & _ & _ & _ & _ & Hafter).
  split.
  - unfold isAdmin. by rewrite Hrole.
  - unfold isAdmin.
    rewrite (Hafter 1500 {| role_field := Some "student"%string |} "student"%string
               eq_refl eq_refl eq_refl eq_refl).
    reflexivity.
Defined.

End AuthFacts.

(* ===================================================================== *)
(** * Properties of the router *)
(* ===================================================================== *)

Module RouterFacts.
Import Platform Firestore Passages PassagesMore Router.

Lemma quiz_link_is_no_route passageId :
  let path := String.append "/quiz?passage=" passageId in
  routes_get path routes = None ∧
  String.eqb path "/" = false ∧ String.eqb path "/subjects" = false ∧
  String.eqb path "/dashboard" = false ∧ String.eqb path "/admin" = false ∧
  String.eqb path "/quiz" = false.
Proof. cbn. repeat split. Qed.

(** X27.  The router looks a path up as it is, with its query.  The path
    ['/quiz?passage=id'] that the dashboard's [retakeQuiz] navigates to for
    a published passage is none of the routes: the router loads the partial
    of the home page into [main] and starts no page module, so the quiz is
    not opened, while the path is pushed to the history. *)
Theorem retakeQuiz_navigation resolve am fuel passageId e path r :
  (dashboard_retakeQuiz passageId e).1 = Navigate path →
  isNavigating r = false →
  let r' := navigate resolve am (S fuel) path r in
  main_partial r' = Some "partials/home.html"%string ∧
  main_partial r' ≠ routes_get "/quiz" routes ∧
  started r' = started r ∧
  currentRoute r' = Some path ∧
  (String.eqb path (pathname r) = false → pushed r' = pushed r ++ [path]) ∧
  isNavigating r' = false.
Proof.
  intros Hnavigate Hidle.
  assert (Hpath : path = String.append "/quiz?passage=" passageId).
  { revert Hnavigate. unfold dashboard_retakeQuiz.
    destruct (getPassages _ e) as [[passages_|message] e1]; cbn [fst];
      [|done].
    destruct (List.find _ passages_); cbn [fst]; [|done]. by intros [= <-]. }
  subst path.
  destruct (quiz_link_is_no_route passageId)
    as (Hroute & H1 & H2 & H3 & H4 & H5).
  cbv zeta in *. unfold navigate. cbn [navigateToPath].
  rewrite Hidle, Hroute, H1, H2, H3, H4, H5.
  cbn [main_partial started currentRoute pushed isNavigating routes_get routes
       from_option andb].
  split; [done|]. split; [done|]. split; [done|]. split; [done|].
  split; [|done]. by intros ->.
Qed.

Lemma retakeQuiz_navigation_witness :
  main_partial (navigate (λ _ url, before_query url) student 1
                  "/quiz?passage=p1" on_dashboard)
  = Some "partials/home.html"%string ∧
  started (navigate (λ _ url, before_query url) student 1
             "/quiz?passage=p1" on_dashboard)
  = [DashboardPage].
Proof.
  destruct (retakeQuiz_navigation (λ _ url, before_query url) student 0 "p1"
              Passages.sample_env "/quiz?passage=p1" on_dashboard
              eq_refl eq_refl) as (Hmain & _ & Hstarted & _).
  split; [exact Hmain | exact Hstarted].
Defined.

(** X28.  [navigateToPath] drops every call made while a navigation is
    under way, and [initAdminPage] redirects a visitor who is not an admin
    by such a call.  So the redirect never happens: after a navigation to
    ['/admin'] by a visitor who is not an admin, the admin partial is what
    [main] shows, the current route is ['/admin'], nothing is pushed for
    the dashboard and no page module is started. *)
Theorem admin_redirect_dropped resolve am fuel pushState r :
  isNavigating r = false → isAdmin am = false →
  let r' := navigateToPath resolve am (S fuel) "/admin" pushState r in
  main_partial r' = Some "partials/admin.html"%string ∧
  currentRoute r' = Some "/admin"%string ∧
  started r' = started r ∧
  "/dashboard"%string ∉ drop (length (pushed r)) (pushed r') ∧
  isNavigating r' = false.
Proof.
  intros Hidle Hadmin. cbv zeta. cbn [navigateToPath]. rewrite Hidle, Hadmin.
  cbn [routes_get routes String.eqb Ascii.eqb Bool.eqb].
  change (String.eqb "/admin" "/") with false.
  change (String.eqb "/admin" "/subjects") with false.
  change (String.eqb "/admin" "/dashboard") with false.
  change (String.eqb "/admin" "/admin") with true.
  cbv iota.
  set (r1 := {| isNavigating := true; currentRoute := _; main_partial := _;
                started := _; auth_modal_shown := _; pushed := _;
                pathname := _ |}).
  assert (Hnested : navigateToPath resolve am fuel "/dashboard" true r1 = r1).
  { by destruct fuel. }
  rewrite Hnested. cbn.
  repeat split; try done.
  destruct (pushState && _).
  - rewrite drop_app_length. intros Hin.
    apply list_elem_of_singleton in Hin. discriminate Hin.
  - rewrite drop_all. apply not_elem_of_nil.
Qed.

Lemma admin_redirect_dropped_witness :
  main_partial (navigate (λ _ url, before_query url) student 2 "/admin"
                  on_dashboard)
  = Some "partials/admin.html"%string ∧
  pathname (navigate (λ _ url, before_query url) student 2 "/admin"
              on_dashboard)
  = "/admin"%string.
Proof.
  destruct (admin_redirect_dropped (λ _ url, before_query url) student 1 true
              on_dashboard eq_refl eq_refl) as (Hmain & _).
  split; [exact Hmain | reflexivity].
Defined.

End RouterFacts.

(* ===================================================================== *)
(** * Properties of the listings by date *)
(* ===================================================================== *)

Module PassagesListingFacts.
Import Platform Firestore Passages PassagesListing JsFacts PassagesFacts.

Lemma compare_on_createdAt a b :
  compare_on field_of "createdAt" a b
  = comparison_Z (createdAt (doc_data a) ?= createdAt (doc_data b)).
Proof. done. Qed.

Lemma compare_createdAt_le a b :
  compare_on field_of "createdAt" a b ≤ 0 ↔
  createdAt (doc_data a) ≤ createdAt (doc_data b).
Proof.
  rewrite compare_on_createdAt.
  destruct (Z.compare_spec (createdAt (doc_data a)) (createdAt (doc_data b)));
    cbn; lia.
Qed.

Lemma newest_first_sorted (docs : list (Document PassageDoc)) :
  StronglySorted newer_first
    (rev (Js.sort (compare_on field_of "createdAt") docs)).
Proof.
  apply (AttemptsMoreFacts.StronglySorted_rev
           (λ a b, createdAt (doc_data a) ≤ createdAt (doc_data b))).
  apply (PassagesMoreFacts.StronglySorted_impl
           (λ a b, compare_on field_of "createdAt" a b ≤ 0)).
  - intros a b. apply compare_createdAt_le.
  - apply PassagesMoreFacts.sort_sorted_by.
    + intros a b Hgt. apply compare_createdAt_le.
      assert (Hnot : ¬ compare_on field_of "createdAt" a b ≤ 0) by lia.
      rewrite compare_createdAt_le in Hnot. lia.
    + intros a b c. rewrite !compare_createdAt_le. lia.
Qed.

Lemma order_by_createdAt (docs : list (Document PassageDoc)) :
  apply_constraint field_of docs (OrderBy "createdAt" "desc")
  = rev (Js.sort (compare_on field_of "createdAt") docs) ∧
  apply_constraint field_of docs (OrderBy "createdAt" "desc") ≡ₚ docs ∧
  StronglySorted newer_first
    (apply_constraint field_of docs (OrderBy "createdAt" "desc")).
Proof.
  assert (Heq : apply_constraint field_of docs (OrderBy "createdAt" "desc")
                = rev (Js.sort (compare_on field_of "createdAt") docs)).
  { cbn [apply_constraint]. change (String.eqb "desc" "desc") with true.
    cbv iota.
    by rewrite (PassagesMoreFacts.filter_all
                  (λ d, has_field field_of d "createdAt"))
      by apply PassagesMoreFacts.has_field_createdAt. }
  split; [done|]. rewrite Heq. split.
  - by rewrite <- Permutation_rev, sort_Permutation.
  - apply newest_first_sorted.
Qed.

(** X29.  On a reachable store [getSubjectPassagesOptimized(subject)]
    returns the twelve newest published passages of the subject, newest
    first, or all of them when there are fewer: the count on a subject card,
    which is the length of this result, never exceeds twelve however many
    passages the subject has. *)
Theorem getSubjectPassagesOptimized_capped subject_ e :
  reachable e = true →
  let published :=
    List.filter (λ d, String.eqb (subject (doc_data d)) subject_
                      && isPublished (doc_data d)) (passages e) in
  ∃ l rest,
    (getSubjectPassagesOptimized subject_ e).1 = Returned l ∧
    length l = (12 `min` length published)%nat ∧
    l ++ rest ≡ₚ published ∧
    StronglySorted newer_first (l ++ rest).
Proof.
  intros Hreach published.
  unfold getSubjectPassagesOptimized, getDocs.
  cbn [io reachable passages forallb acceptable andb]. rewrite Hreach.
  change (0 <? 12) with true. cbn [andb fst fold_left].
  destruct (order_by_createdAt
              (apply_constraint field_of
                 (apply_constraint field_of (passages e)
                    (Where "subject" (VString subject_)))
                 (Where "isPublished" (VBoolean true))))
    as (_ & Hperm & Hsorted).
  set (all := apply_constraint field_of _ (OrderBy "createdAt" "desc")) in *.
  assert (Hall : all ≡ₚ published).
  { rewrite Hperm. cbn [apply_constraint].
    rewrite PassagesMoreFacts.filter_filter_andb. unfold published.
    erewrite filter_ext; [reflexivity|].
    intros d. cbn beta.
    by rewrite PassagesMoreFacts.has_value_subject,
      PassagesMoreFacts.has_value_isPublished. }
  exists (take 12 all), (drop 12 all).
  cbn [apply_constraint]. change (Z.to_nat 12) with 12%nat.
  split; [done|]. split; [by rewrite length_take, Hall|].
  rewrite take_drop. by split.
Qed.

Lemma getSubjectPassagesOptimized_capped_witness :
  ∃ l, (getSubjectPassagesOptimized "Biology" many_passages).1 = Returned l ∧
       length l = 12%nat ∧ length (passages many_passages) = 15%nat.
Proof.
  destruct (getSubjectPassagesOptimized_capped "Biology" many_passages eq_refl)
    as (l & rest & Hl & Hlen & _).
  exists l. split; [exact Hl|]. split; [|reflexivity].
  rewrite Hlen. reflexivity.
Defined.

Lemma has_value_difficulty (d : Document PassageDoc) s :
  has_value field_of d "difficulty" (VString s)
  = String.eqb (difficulty (doc_data d)) s.
Proof. done. Qed.

(** The equality filters that [getPassages] builds keep the selected
    passages, in their order. *)
Lemma fold_filters options am (docs : list (Document PassageDoc)) :
  fold_left (apply_constraint field_of)
    (match truthy_string (opt_subject options) with
     | Some s => [Where "subject" (VString s)]
     | None => []
     end
     ++ match truthy_string (opt_difficulty options) with
        | Some d => [Where "difficulty" (VString d)]
        | None => []
        end
     ++ (if publishedOnly options am
         then [Where "isPublished" (VBoolean true)] else []))
    docs
  = List.filter (selected options am) docs.
Proof.
  unfold selected.
  destruct (truthy_string (opt_subject options)) as [s|];
    destruct (truthy_string (opt_difficulty options)) as [d|];
    destruct (publishedOnly options am);
    cbn [app fold_left apply_constraint];
    rewrite ?PassagesMoreFacts.filter_filter_andb;
    try (apply filter_ext; intros doc; cbn beta;
         rewrite ?PassagesMoreFacts.has_value_subject, ?has_value_difficulty,
           ?PassagesMoreFacts.has_value_isPublished;
         try destruct (String.eqb (subject (doc_data doc)) _);
         try destruct (String.eqb (difficulty (doc_data doc)) _);
         try destruct (isPublished (doc_data doc)); reflexivity).
  symmetry. by apply PassagesMoreFacts.filter_all.
Qed.

Lemma constraints_of_default options am limitCount :
  opt_orderByField options = None → opt_orderDirection options = None →
  constraints_of (with_limit options limitCount) am
  = (match truthy_string (opt_subject options) with
     | Some s => [Where "subject" (VString s)]
     | None => []
     end
     ++ match truthy_string (opt_difficulty options) with
        | Some d => [Where "difficulty" (VString d)]
        | None => []
        end
     ++ (if publishedOnly options am
         then [Where "isPublished" (VBoolean true)] else []))
    ++ [OrderBy "createdAt" "desc"]
    ++ match limitCount with
       | Some n => if n =? 0 then [] else [Limit n]
       | None => []
       end.
Proof.
  intros Hfield Hdirection. unfold constraints_of, publishedOnly.
  cbn [with_limit opt_subject opt_difficulty opt_publishedOnly opt_limitCount
       opt_orderByField opt_orderDirection].
  rewrite Hfield, Hdirection. cbn [from_option id].
  by rewrite <- !app_assoc.
Qed.

Lemma acceptable_filters options am :
  forallb acceptable
    (match truthy_string (opt_subject options) with
     | Some s => [Where "subject" (VString s)]
     | None => []
     end
     ++ match truthy_string (opt_difficulty options) with
        | Some d => [Where "difficulty" (VString d)]
        | None => []
        end
     ++ (if publishedOnly options am
         then [Where "isPublished" (VBoolean true)] else []))
  = true.
Proof.
  by destruct (truthy_string (opt_subject options)),
    (truthy_string (opt_difficulty options)), (publishedOnly options am).
Qed.

(** X30.  With the default ordering, [getPassages] on a reachable store
    lists the passages that pass its filters (the subject and the
    difficulty when given and not empty, and [isPublished] when
    [publishedOnly] holds), each as often as it is stored, from the newest
    to the oldest by [createdAt].  A positive [limitCount] cuts the listing
    to its first passages, a [limitCount] of zero is ignored, and a negative
    one makes the call throw. *)
Theorem getPassages_newest_first options e :
  reachable e = true →
  opt_orderByField options = None → opt_orderDirection options = None →
  ∃ all,
    all ≡ₚ List.filter (selected options (authManager e)) (passages e) ∧
    StronglySorted newer_first all ∧
    (getPassages (with_limit options None) e).1 = Returned all ∧
    (getPassages (with_limit options (Some 0)) e).1 = Returned all ∧
    (∀ n, 0 < n →
          (getPassages (with_limit options (Some n)) e).1
          = Returned (take (Z.to_nat n) all)) ∧
    (∀ n, n < 0 →
          (getPassages (with_limit options (Some n)) e).1
          = Thrown "FirebaseError").
Proof.
  intros Hreach Hfield Hdirection.
  destruct (order_by_createdAt
              (List.filter (selected options (authManager e)) (passages e)))
    as (_ & Hperm & Hsorted).
  set (all := apply_constraint field_of _ (OrderBy "createdAt" "desc")) in *.
  exists all. split; [done|]. split; [done|].
  assert (Hget : ∀ limitCount,
    (getPassages (with_limit options limitCount) e).1
    = match limitCount with
      | Some n =>
          if n =? 0 then Returned all
          else if 0 <? n then Returned (take (Z.to_nat n) all)
          else Thrown "FirebaseError"
      | None => Returned all
      end).
  { intros limitCount. unfold getPassages, getDocs.
    rewrite (constraints_of_default _ _ _ Hfield Hdirection).
    rewrite forallb_app, acceptable_filters.
    cbn [forallb acceptable andb app].
    destruct limitCount as [n|].
    - destruct (Z.eqb_spec n 0) as [->|Hn0].
      + cbn [forallb andb io reachable passages]. rewrite Hreach.
        cbn [andb fst]. rewrite fold_left_app, fold_filters.
        by cbn [fold_left].
      + cbn [forallb acceptable andb].
        destruct (Z.ltb_spec 0 n) as [Hpos|Hneg].
        * cbn [andb io reachable passages]. rewrite Hreach.
          cbn [andb fst]. rewrite fold_left_app, fold_filters.
          by cbn [fold_left apply_constraint].
        * done.
    - cbn [forallb andb io reachable passages]. rewrite Hreach.
      cbn [andb fst]. rewrite fold_left_app, fold_filters.
      by cbn [fold_left]. }
  split; [by rewrite Hget|]. split; [by rewrite Hget|]. split.
  - intros n Hn. rewrite Hget.
    destruct (Z.eqb_spec n 0); [lia|].
    by destruct (Z.ltb_spec 0 n); [|lia].
  - intros n Hn. rewrite Hget.
    destruct (Z.eqb_spec n 0); [lia|].
    by destruct (Z.ltb_spec 0 n); [lia|].
Qed.

Lemma getPassages_newest_first_witness :
  ∃ l, (getPassages (with_limit no_options (Some 1)) admin_env_listing).1
       = Returned l ∧ ids_listing l = ["p2"%string].
Proof.
  destruct (getPassages_newest_first no_options admin_env_listing
              eq_refl eq_refl eq_refl)
    as (all & _ & _ & Hall & _ & Hlimit & _).
  exists (take 1 all). split; [apply (Hlimit 1); lia|].
  vm_compute in Hall. injection Hall as <-. reflexivity.
Defined.

End PassagesListingFacts.
